(** * ELMo-biLM training scripts: cell, encoder, model and training loop

    A shallow embedding of
      - [scripts/language_model/ELMo-biLM/LSTMPCellWithClip.py]
      - [scripts/language_model/ELMo-biLM/word_language_model.py]
      - [scripts/language_model/bi_language_model.py]

    Conventions.  Python floats are real numbers (rounding is not modelled);
    where the special values matter (validation loss, perplexity) the type
    [pyfloat] adds the infinities and NaN.  Python ints are [Z].  A raised
    exception is [inl e], a returned value is [inr v].  An NDArray of rank two
    is the list of its rows; the operators of the tensor library that the
    cell calls ([FullyConnected], [SliceChannel], [Activation], [clip], the
    element-wise sum and product) are given the values they compute, shape
    checks included; the operator namespace [F] of the cell ([mx.nd] or
    [mx.sym]) is a parameter, and the two differ in what [out=] does. *)

From Stdlib Require Import String.
From Stdlib Require Import Reals Lra ZArith Lia Bool Arith List.
Import ListNotations.

Set Implicit Arguments.

(* ================================================================== *)
(** * Exceptions and results *)
(* ================================================================== *)

Inductive exn : Type :=
| AssertionError
| AttributeError
| ImportError
| IndexError
| MXNetError          (* shape mismatch reported by the tensor library *)
| OverflowError
| TypeError
| UnboundLocalError
| ValueError
| ZeroDivisionError.

Definition res (A : Type) : Type := (exn + A)%type.

Definition ret {A} (a : A) : res A := inr a.
Definition raise {A} (e : exn) : res A := inl e.
Definition bind {A B} (m : res A) (k : A -> res B) : res B :=
  match m with
  | inl e => inl e
  | inr a => k a
  end.

Declare Scope res_scope.
Delimit Scope res_scope with res.
Notation "x <- m ;; k" := (bind m (fun x => k))
  (at level 61, m at next level, right associativity) : res_scope.
Notation "' p <- m ;; k" := (bind m (fun x => match x with p => k end))
  (at level 61, p pattern, m at next level, right associativity) : res_scope.

(** [xs[i]] for a Python sequence and a non-negative index. *)
Definition getitem {A} (xs : list A) (i : nat) : res A :=
  match nth_error xs i with
  | Some a => ret a
  | None => raise IndexError
  end.

(* ================================================================== *)
(** * Tensor operators used by the cell *)
(* ================================================================== *)

Module F.

Local Open Scope R_scope.

Definition Vec := list R.
Definition NDArray := list Vec.      (* (batch, features) *)

Fixpoint zipWith {A B C} (f : A -> B -> C) (xs : list A) (ys : list B) : list C :=
  match xs, ys with
  | x :: xs', y :: ys' => f x y :: zipWith f xs' ys'
  | _, _ => []
  end.

Fixpoint dot (w x : Vec) : R :=
  match w, x with
  | a :: w', b :: x' => a * b + dot w' x'
  | _, _ => 0
  end.

(** Row width check: every row of [a] has [n] entries. *)
Definition width_is (n : nat) (a : NDArray) : bool :=
  forallb (fun row => Nat.eqb (length row) n) a.

(** Two arrays have the same shape. *)
Fixpoint same_shape (a b : NDArray) : bool :=
  match a, b with
  | [], [] => true
  | x :: a', y :: b' => Nat.eqb (length x) (length y) && same_shape a' b'
  | _, _ => false
  end.

(** [FullyConnected(data, weight, bias, num_hidden)]: [data . weight^T + bias];
    [weight] has [num_hidden] rows whose width is the width of [data]. *)
Definition affine_row (weight : NDArray) (bias : Vec) (x : Vec) : Vec :=
  zipWith (fun w b => dot w x + b) weight bias.

Definition linear_row (weight : NDArray) (x : Vec) : Vec :=
  map (fun w => dot w x) weight.

Definition FullyConnected (data weight : NDArray) (bias : option Vec)
    (num_hidden : Z) : res NDArray :=
  if negb (Z.eqb (Z.of_nat (length weight)) num_hidden) then raise MXNetError
  else if negb (forallb (fun x => width_is (length x) weight) data)
  then raise MXNetError
  else match bias with
       | Some b =>
           if Z.eqb (Z.of_nat (length b)) num_hidden
           then ret (map (affine_row weight b) data)
           else raise MXNetError
       | None => ret (map (linear_row weight) data)
       end.

(** Element-wise binary operators ([+], [*], [_plus], [_mul]) on arrays of
    one shape.  The cell combines arrays of equal shape only; broadcasting
    of unequal shapes is left out, such a call is an error here. *)
Definition elemwise (op : R -> R -> R) (a b : NDArray) : res NDArray :=
  if same_shape a b then ret (zipWith (zipWith op) a b)
  else raise MXNetError.

Definition add := elemwise Rplus.
Definition mul := elemwise Rmult.
Definition _plus := elemwise Rplus.
Definition _mul := elemwise Rmult.

(** [SliceChannel(x, num_outputs)]: split along axis 1 into [num_outputs]
    equal parts. *)
Definition chunk (k i : nat) (row : Vec) : Vec :=
  firstn k (skipn (i * k) row).

Definition SliceChannel (x : NDArray) (num_outputs : nat) : res (list NDArray) :=
  if forallb (fun row => Nat.eqb (Nat.modulo (length row) num_outputs) 0) x
  then ret (map (fun i => map (fun row => chunk (length row / num_outputs) i row) x)
                (seq 0 num_outputs))
  else raise MXNetError.

Inductive act_type := sigmoid | tanh | relu.

Definition sigmoid_fn (x : R) : R := 1 / (1 + exp (- x)).
Definition relu_fn (x : R) : R := if Rlt_dec 0 x then x else 0.

Definition act_fn (a : act_type) : R -> R :=
  match a with
  | sigmoid => sigmoid_fn
  | tanh => Rtrigo_def.tanh
  | relu => relu_fn
  end.

Definition Activation (x : NDArray) (a : act_type) : NDArray :=
  map (map (act_fn a)) x.

(** [clip(x, a_min, a_max)], element-wise: the array it returns. *)
Definition clip1 (a_min a_max v : R) : R :=
  if Rlt_dec a_max v then a_max
  else if Rlt_dec v a_min then a_min
  else v.

Definition clip (x : NDArray) (a_min a_max : R) : NDArray :=
  map (map (clip1 a_min a_max)) x.

(** The operator namespace a block is handed as [F]: [mx.nd] while it runs
    imperatively, [mx.sym] once it is hybridized.  The operators above
    compute the same values under both; the two differ in what [out=]
    does. *)
Inductive api := nd | sym.

(** [F.clip(data, a_min, a_max, out=out)]: the value of the call, and the
    content of the array named by [out] after it.  [mx.nd] writes the
    result into [out]; [mx.sym] has no arrays to write to, takes [out] and
    ignores it, and the result is only the symbol it returns. *)
Definition clip_out (F : api) (data : NDArray) (a_min a_max : R)
    (out : NDArray) : NDArray * NDArray :=
  match F with
  | nd => (clip data a_min a_max, clip data a_min a_max)
  | sym => (clip data a_min a_max, out)
  end.

End F.

(* ================================================================== *)
(** * LSTMPCellWithClip *)
(* ================================================================== *)

Import F.
Local Open Scope R_scope.
Local Open Scope res_scope.

Record LSTMPCellWithClip := {
  _hidden_size : Z;
  _projection_size : option Z;     (* [proj_size] defaults to [None] *)
  _cell_clip : option R;
  _projection_clip : option R;
  _input_size : option Z
}.

(** A required integer argument of an operator that was given [None]. *)
Definition required (n : option Z) : res Z :=
  match n with
  | Some n => ret n
  | None => raise MXNetError
  end.

(** The two calls of [F.clip] are statements: their value is dropped, and
    [next_c] and [next_r] are clipped only as far as [out=] changes the
    arrays they name. *)
Definition hybrid_forward (self : LSTMPCellWithClip) (F : api)
    (inputs : NDArray) (states : list NDArray)
    (i2h_weight h2h_weight h2r_weight : NDArray) (i2h_bias h2h_bias : Vec)
  : res (NDArray * list NDArray) :=
  i2h <- FullyConnected inputs i2h_weight (Some i2h_bias) (_hidden_size self * 4)%Z ;;
  states0 <- getitem states 0 ;;
  h2h <- FullyConnected states0 h2h_weight (Some h2h_bias) (_hidden_size self * 4)%Z ;;
  gates <- add i2h h2h ;;
  slice_gates <- SliceChannel gates 4 ;;
  g0 <- getitem slice_gates 0 ;;
  let in_gate := Activation g0 sigmoid in
  g1 <- getitem slice_gates 1 ;;
  let forget_gate := Activation g1 sigmoid in
  g2 <- getitem slice_gates 2 ;;
  let in_transform := Activation g2 tanh in
  g3 <- getitem slice_gates 3 ;;
  let out_gate := Activation g3 sigmoid in
  states1 <- getitem states 1 ;;
  fc <- mul forget_gate states1 ;;
  ig <- mul in_gate in_transform ;;
  next_c <- _plus fc ig ;;
  let next_c :=
    match _cell_clip self with
    | Some cell_clip =>
        let (_, next_c) := clip_out F next_c (- cell_clip) cell_clip next_c in
        next_c
    | None => next_c
    end in
  hidden <- _mul out_gate (Activation next_c tanh) ;;
  num_hidden <- required (_projection_size self) ;;
  next_r <- FullyConnected hidden h2r_weight None num_hidden ;;
  let next_r :=
    match _projection_clip self with
    | Some projection_clip =>
        let (_, next_r) :=
          clip_out F next_r (- projection_clip) projection_clip next_r in
        next_r
    | None => next_r
    end in
  ret (next_r, [next_r; next_c]).

(** The projected-LSTM equations, for one example: [x] is the input
    vector, [r_prev] the previous recurrent output, [c_prev] the previous
    cell state. Written from the equations, not from [hybrid_forward]. *)
Module Reference.

Record Params := {
  W_ii : NDArray; W_if : NDArray; W_ig : NDArray; W_io : NDArray;
  b_ii : Vec; b_if : Vec; b_ig : Vec; b_io : Vec;
  W_ri : NDArray; W_rf : NDArray; W_rg : NDArray; W_ro : NDArray;
  b_ri : Vec; b_rf : Vec; b_rg : Vec; b_ro : Vec;
  W_hr : NDArray
}.

Definition vadd (u v : Vec) : Vec := zipWith Rplus u v.
Definition vmul (u v : Vec) : Vec := zipWith Rmult u v.
Definition matvec (W : NDArray) (x : Vec) : Vec := map (fun w => dot w x) W.

(** [act (W_i x + b_i + W_r r + b_r)], the sum of the two affine maps. *)
Definition gate (act : R -> R) (W_i : NDArray) (b_i : Vec)
    (W_r : NDArray) (b_r : Vec) (x r_prev : Vec) : Vec :=
  map act (vadd (vadd (matvec W_i x) b_i) (vadd (matvec W_r r_prev) b_r)).

Definition step (p : Params) (x r_prev c_prev : Vec) : Vec * Vec :=
  let i_t := gate sigmoid_fn (W_ii p) (b_ii p) (W_ri p) (b_ri p) x r_prev in
  let f_t := gate sigmoid_fn (W_if p) (b_if p) (W_rf p) (b_rf p) x r_prev in
  let g_t := gate Rtrigo_def.tanh (W_ig p) (b_ig p) (W_rg p) (b_rg p) x r_prev in
  let o_t := gate sigmoid_fn (W_io p) (b_io p) (W_ro p) (b_ro p) x r_prev in
  let c_t := vadd (vmul f_t c_prev) (vmul i_t g_t) in
  let h_t := vmul o_t (map Rtrigo_def.tanh c_t) in
  let r_t := matvec (W_hr p) h_t in
  (r_t, c_t).

Fixpoint zip3With {A B C D} (f : A -> B -> C -> D)
    (xs : list A) (ys : list B) (zs : list C) : list D :=
  match xs, ys, zs with
  | x :: xs', y :: ys', z :: zs' => f x y z :: zip3With f xs' ys' zs'
  | _, _, _ => []
  end.

(** One step for every example of a batch. *)
Definition r_t (p : Params) (xs rs cs : NDArray) : NDArray :=
  zip3With (fun x r c => fst (step p x r c)) xs rs cs.
Definition c_t (p : Params) (xs rs cs : NDArray) : NDArray :=
  zip3With (fun x r c => snd (step p x r c)) xs rs cs.

(** The stacked parameters the cell holds: the four gate blocks in the
    order input, forget, cell, output. *)
Definition i2h_weight (p : Params) := W_ii p ++ W_if p ++ W_ig p ++ W_io p.
Definition i2h_bias (p : Params) := b_ii p ++ b_if p ++ b_ig p ++ b_io p.
Definition h2h_weight (p : Params) := W_ri p ++ W_rf p ++ W_rg p ++ W_ro p.
Definition h2h_bias (p : Params) := b_ri p ++ b_rf p ++ b_rg p ++ b_ro p.

End Reference.

(** [a] has [n] rows of [m] entries. *)
Definition rect (n m : nat) (a : NDArray) : Prop :=
  length a = n /\ Forall (fun row => length row = m) a.

(** Shapes of the parameters of a cell with [H] hidden units, projection
    size [P] and input size [I]. *)
Definition params_shaped (H P I : nat) (p : Reference.Params) : Prop :=
  rect H I (Reference.W_ii p) /\ rect H I (Reference.W_if p) /\
  rect H I (Reference.W_ig p) /\ rect H I (Reference.W_io p) /\
  length (Reference.b_ii p) = H /\ length (Reference.b_if p) = H /\
  length (Reference.b_ig p) = H /\ length (Reference.b_io p) = H /\
  rect H P (Reference.W_ri p) /\ rect H P (Reference.W_rf p) /\
  rect H P (Reference.W_rg p) /\ rect H P (Reference.W_ro p) /\
  length (Reference.b_ri p) = H /\ length (Reference.b_rf p) = H /\
  length (Reference.b_rg p) = H /\ length (Reference.b_ro p) = H /\
  rect P H (Reference.W_hr p).

(** What [hybrid_forward] computes on one example of the batch, with no
    clipping: the summed pre-activations, the new cell state and the new
    recurrent output.  Used to relate the batched code to [Reference.step]. *)
Definition row_gates (i2h_weight : NDArray) (i2h_bias : Vec)
    (h2h_weight : NDArray) (h2h_bias : Vec) (x r : Vec) : Vec :=
  zipWith Rplus (affine_row i2h_weight i2h_bias x) (affine_row h2h_weight h2h_bias r).

Definition row_c (H : nat) (g c : Vec) : Vec :=
  zipWith Rplus
    (zipWith Rmult (map sigmoid_fn (chunk H 1 g)) c)
    (zipWith Rmult (map sigmoid_fn (chunk H 0 g)) (map Rtrigo_def.tanh (chunk H 2 g))).

Definition row_r (H : nat) (h2r_weight : NDArray) (g c : Vec) : Vec :=
  linear_row h2r_weight
    (zipWith Rmult (map sigmoid_fn (chunk H 3 g)) (map Rtrigo_def.tanh (row_c H g c))).

(** A small cell and parameter set used in examples: one hidden unit,
    projection size one, input size one, every weight and bias zero. *)
Definition zero_params : Reference.Params :=
  {| Reference.W_ii := [[0]]; Reference.W_if := [[0]];
     Reference.W_ig := [[0]]; Reference.W_io := [[0]];
     Reference.b_ii := [0]; Reference.b_if := [0];
     Reference.b_ig := [0]; Reference.b_io := [0];
     Reference.W_ri := [[0]]; Reference.W_rf := [[0]];
     Reference.W_rg := [[0]]; Reference.W_ro := [[0]];
     Reference.b_ri := [0]; Reference.b_rf := [0];
     Reference.b_rg := [0]; Reference.b_ro := [0];
     Reference.W_hr := [[0]] |}.

Definition unit_cell (cell_clip projection_clip : option R) : LSTMPCellWithClip :=
  {| _hidden_size := 1; _projection_size := Some 1%Z;
     _cell_clip := cell_clip; _projection_clip := projection_clip;
     _input_size := Some 1%Z |}.

(* ================================================================== *)
(** * Blocks, parameters and the interpreter state *)
(* ================================================================== *)

(** Constructing a block has effects: it registers a [ParameterDict] and
    creates [Parameter]s.  Running a script has effects too; the phases it
    reaches are recorded in [trace].  Both live in one state, which
    survives a raised exception. *)

Inductive event : Type :=
| ParseArgs | LoadData | BuildModel | CreateTrainer | Train | Evaluate.

(** A parameter is known by its full name: the prefix of the dictionary that
    created it (a number stands for the unique name prefix) and its short
    name. Its identity is its position in [parameters]. *)
Definition full_name : Type := (nat * string)%type.

Record ParameterDict := {
  pd_prefix : nat;
  pd_params : list (full_name * nat);
  pd_shared : option nat              (* the dictionary given as [params=] *)
}.

Record store := {
  trace : list event;
  dicts : list ParameterDict;
  parameters : list full_name;
  next_prefix : nat
}.

Definition empty_store : store :=
  {| trace := []; dicts := []; parameters := []; next_prefix := 0 |}.

Definition M (A : Type) : Type := store -> res A * store.

Definition retM {A} (a : A) : M A := fun s => (inr a, s).
Definition raiseM {A} (e : exn) : M A := fun s => (inl e, s).
Definition bindM {A B} (m : M A) (k : A -> M B) : M B :=
  fun s => match m s with
           | (inl e, s') => (inl e, s')
           | (inr a, s') => k a s'
           end.
Definition liftM {A} (r : res A) : M A := fun s => (r, s).
Definition log (e : event) (s : store) : store :=
  {| trace := trace s ++ [e]; dicts := dicts s;
     parameters := parameters s; next_prefix := next_prefix s |}.
Definition emit (e : event) : M unit := fun s => (inr tt, log e s).

Declare Scope M_scope.
Delimit Scope M_scope with M.
Notation "x <- m ;; k" := (bindM m (fun x => k))
  (at level 61, m at next level, right associativity) : M_scope.
Notation "m ;;; k" := (bindM m (fun _ => k))
  (at level 61, right associativity) : M_scope.

(** Reading a local variable that may not have been assigned yet. *)
Definition load {A} (v : option A) : res A :=
  match v with
  | Some a => ret a
  | None => raise UnboundLocalError
  end.

(** [assert cond]. *)
Definition assert (cond : bool) : res unit :=
  if cond then ret tt else raise AssertionError.

Fixpoint lookup_name (n : full_name) (ps : list (full_name * nat)) : option nat :=
  match ps with
  | [] => None
  | ((pfx, nm), id) :: ps' =>
      if Nat.eqb pfx (fst n) && String.eqb nm (snd n) then Some id
      else lookup_name n ps'
  end.

Fixpoint set_nth {A} (i : nat) (a : A) (xs : list A) : list A :=
  match xs, i with
  | [], _ => []
  | _ :: xs', O => a :: xs'
  | x :: xs', S i' => x :: set_nth i' a xs'
  end.

(** [Block.__init__(prefix=None, params=shared)]: the block's own
    dictionary.  Without [params] it gets a fresh prefix; with [params] it
    takes the prefix of the given dictionary and keeps it as [shared]. *)
Definition Block_init (shared : option nat) : M nat :=
  fun s =>
    let id := length (dicts s) in
    match shared with
    | None =>
        (inr id,
         {| trace := trace s;
            dicts := dicts s ++ [{| pd_prefix := next_prefix s;
                                    pd_params := []; pd_shared := None |}];
            parameters := parameters s;
            next_prefix := S (next_prefix s) |})
    | Some d =>
        match nth_error (dicts s) d with
        | None => (inl AttributeError, s)
        | Some pd =>
            (inr id,
             {| trace := trace s;
                dicts := dicts s ++ [{| pd_prefix := pd_prefix pd;
                                        pd_params := []; pd_shared := Some d |}];
                parameters := parameters s;
                next_prefix := next_prefix s |})
        end
    end.

(** [ParameterDict.get(name)]: the parameter of that full name in this
    dictionary, else the one in the shared dictionary (which is then
    entered here as well), else a new parameter. *)
Definition params_get (d : nat) (name : string) : M nat :=
  fun s =>
    match nth_error (dicts s) d with
    | None => (inl AttributeError, s)
    | Some pd =>
        let n := (pd_prefix pd, name) in
        let enter id ps :=
          {| trace := trace s;
             dicts := set_nth d {| pd_prefix := pd_prefix pd;
                                   pd_params := pd_params pd ++ [(n, id)];
                                   pd_shared := pd_shared pd |} (dicts s);
             parameters := ps;
             next_prefix := next_prefix s |} in
        match lookup_name n (pd_params pd) with
        | Some id => (inr id, s)
        | None =>
            let in_shared :=
              match pd_shared pd with
              | Some d' =>
                  match nth_error (dicts s) d' with
                  | Some pd' => lookup_name n (pd_params pd')
                  | None => None
                  end
              | None => None
              end in
            match in_shared with
            | Some id => (inr id, enter id (parameters s))
            | None =>
                let id := length (parameters s) in
                (inr id, enter id (parameters s ++ [n]))
            end
        end
    end.

Local Open Scope M_scope.
Local Open Scope string_scope.

(* ================================================================== *)
(** * Recurrent cells and [_get_rnn_cell] *)
(* ================================================================== *)

Inductive Cell : Type :=
| RNNCell (params : nat) (hidden_size : Z) (activation : string)
    (input_size : option Z)
| LSTMCell (params : nat) (hidden_size : Z) (input_size : option Z)
| GRUCell (params : nat) (hidden_size : Z) (input_size : option Z)
| LSTMPCell (params : nat) (cell : LSTMPCellWithClip)
| ResidualCell (params : nat) (base_cell : Cell)
| DropoutCell (params : nat) (rate : R).

Record SequentialRNNCell := {
  seq_params : nat;
  children : list Cell
}.

(** The parameters a recurrent cell creates in its constructor. *)
Definition recurrent_params (names : list string) : M nat :=
  d <- Block_init None ;;
  (fix create (ns : list string) : M unit :=
     match ns with
     | [] => retM tt
     | n :: ns' => _ <- params_get d n ;; create ns'
     end) names ;;;
  retM d.

Definition gate_params : list string :=
  ["i2h_weight"; "h2h_weight"; "i2h_bias"; "h2h_bias"].

Definition new_RNNCell (hidden_size : Z) (activation : string)
    (input_size : option Z) : M Cell :=
  d <- recurrent_params gate_params ;;
  retM (RNNCell d hidden_size activation input_size).

Definition new_LSTMCell (hidden_size : Z) (input_size : option Z) : M Cell :=
  d <- recurrent_params gate_params ;;
  retM (LSTMCell d hidden_size input_size).

Definition new_GRUCell (hidden_size : Z) (input_size : option Z) : M Cell :=
  d <- recurrent_params gate_params ;;
  retM (GRUCell d hidden_size input_size).

(** [LSTMPCellWithClip.__init__]: the parent's constructor, then the two
    clip attributes. *)
Definition new_LSTMPCellWithClip (hidden_size : Z) (projection_size : option Z)
    (cell_clip projection_clip : option R) (input_size : option Z) : M Cell :=
  d <- recurrent_params
         ["i2h_weight"; "h2h_weight"; "h2r_weight"; "i2h_bias"; "h2h_bias"] ;;
  retM (LSTMPCell d {| _hidden_size := hidden_size;
                       _projection_size := projection_size;
                       _cell_clip := cell_clip;
                       _projection_clip := projection_clip;
                       _input_size := input_size |}).

Definition new_ResidualCell (base_cell : Cell) : M Cell :=
  d <- Block_init None ;;
  retM (ResidualCell d base_cell).

Definition new_DropoutCell (rate : R) : M Cell :=
  d <- Block_init None ;;
  retM (DropoutCell d rate).

(** The [if]/[elif] chain of [_get_rnn_cell]: it assigns [cell] in five
    cases and has no [else]. *)
Definition assign_cell (mode : string) (hidden_size : Z)
    (input_size proj_size : option Z) (cell_clip proj_clip : option R)
    (cell : option Cell) : M (option Cell) :=
  if String.eqb mode "rnn_relu" then
    c <- new_RNNCell hidden_size "relu" input_size ;; retM (Some c)
  else if String.eqb mode "rnn_tanh" then
    c <- new_RNNCell hidden_size "tanh" input_size ;; retM (Some c)
  else if String.eqb mode "lstm" then
    c <- new_LSTMCell hidden_size input_size ;; retM (Some c)
  else if String.eqb mode "gru" then
    c <- new_GRUCell hidden_size input_size ;; retM (Some c)
  else if String.eqb mode "lstmp" then
    c <- new_LSTMPCellWithClip hidden_size proj_size cell_clip proj_clip
           input_size ;;
    retM (Some c)
  else retM cell.

(** The body of [for i in range(num_layers)], run [n] times; [cell] is the
    local variable, [rnn_cell] the children added so far. *)
Fixpoint rnn_cell_loop (n : nat) (mode : string) (hidden_size : Z)
    (input_size : option Z) (dropout : R) (skip_connection : bool)
    (proj_size : option Z) (cell_clip proj_clip : option R)
    (cell : option Cell) (rnn_cell : list Cell) : M (list Cell) :=
  match n with
  | O => retM rnn_cell
  | S n' =>
      cell <- assign_cell mode hidden_size input_size proj_size
                cell_clip proj_clip cell ;;
      cell <- (if skip_connection
               then base <- liftM (load cell) ;;
                    c <- new_ResidualCell base ;;
                    retM (Some c)
               else retM cell) ;;
      c <- liftM (load cell) ;;
      let rnn_cell := (rnn_cell ++ [c])%list in
      rnn_cell <- (if Req_dec_T dropout 0 then retM rnn_cell
                   else d <- new_DropoutCell dropout ;;
                        retM (rnn_cell ++ [d])%list) ;;
      rnn_cell_loop n' mode hidden_size input_size dropout skip_connection
        proj_size cell_clip proj_clip cell rnn_cell
  end.

Definition _get_rnn_cell (mode : string) (num_layers : Z)
    (input_size : option Z) (hidden_size : Z) (dropout : R)
    (skip_connection : bool) (proj_size : option Z)
    (cell_clip proj_clip : option R) : M SequentialRNNCell :=
  d <- Block_init None ;;
  cs <- rnn_cell_loop (Z.to_nat num_layers) mode hidden_size input_size
          dropout skip_connection proj_size cell_clip proj_clip None [] ;;
  retM {| seq_params := d; children := cs |}.

Definition recognized_modes : list string :=
  ["rnn_relu"; "rnn_tanh"; "lstm"; "gru"; "lstmp"].

Local Close Scope string_scope.
Local Close Scope M_scope.

(* ================================================================== *)
(** * ElmoLSTM *)
(* ================================================================== *)

Record ElmoLSTM := {
  num_layers : Z;
  char_embedding : bool;
  weight_file : option string;
  elmo_params : nat;
  forward_layer_ : list SequentialRNNCell;    (* [forward_layer_0], ... *)
  backward_layer_ : list SequentialRNNCell    (* [backward_layer_0], ... *)
}.

(** [range(n)] *)
Definition range (n : Z) : list nat := seq 0 (Z.to_nat n).

Local Open Scope M_scope.

(** The loop of [ElmoLSTM.__init__]. [setattr] of the two layers of index
    [layer_index] is the extension of the two lists. *)
Fixpoint ElmoLSTM_layers (idxs : list nat) (mode : string) (num_layers : Z)
    (hidden_size : Z) (dropout : R) (skip_connection : bool)
    (proj_size : option Z) (cell_clip proj_clip : option R)
    (lstm_input_size : option Z) (fw bw : list SequentialRNNCell)
  : M (list SequentialRNNCell * list SequentialRNNCell) :=
  match idxs with
  | [] => retM (fw, bw)
  | layer_index :: rest =>
      let last := Z.eqb (Z.of_nat layer_index) (num_layers - 1) in
      let first := Nat.eqb layer_index 0 in
      forward_layer <-
        _get_rnn_cell mode 1 lstm_input_size hidden_size
          (if last then 0 else dropout)
          (if first then false else skip_connection)
          proj_size cell_clip proj_clip ;;
      backward_layer <-
        _get_rnn_cell mode 1 lstm_input_size hidden_size
          (if last then 0 else dropout)
          (if first then false else skip_connection)
          proj_size cell_clip proj_clip ;;
      let lstm_input_size :=
        if String.eqb mode "lstmp" then proj_size else Some hidden_size in
      ElmoLSTM_layers rest mode num_layers hidden_size dropout skip_connection
        proj_size cell_clip proj_clip lstm_input_size
        (fw ++ [forward_layer]) (bw ++ [backward_layer])
  end.

Definition ElmoLSTM_init (mode : string) (num_layers : Z) (input_size : Z)
    (hidden_size : Z) (dropout : R) (skip_connection char_embedding : bool)
    (proj_size : option Z) (cell_clip proj_clip : option R)
    (weight_file : option string) : M ElmoLSTM :=
  d <- Block_init None ;;
  layers <- ElmoLSTM_layers (range num_layers) mode num_layers hidden_size
              dropout skip_connection proj_size cell_clip proj_clip
              (Some input_size) [] [] ;;
  retM {| num_layers := num_layers; char_embedding := char_embedding;
          weight_file := weight_file; elmo_params := d;
          forward_layer_ := fst layers; backward_layer_ := snd layers |}.

Local Close Scope M_scope.

(** [getattr(self, 'forward_layer_{}'.format(j))] *)
Definition getattr_layer (layers : list SequentialRNNCell) (j : nat)
  : res SequentialRNNCell :=
  match nth_error layers j with
  | Some l => ret l
  | None => raise AttributeError
  end.

Section Encoder.

(** The tensors and the cells are those of the tensor library:
    [X] is the array of one time step, [S] the state of one layer,
    [Stacked] what [mx.nd.stack] returns; [call layer x state] is
    [layer(x, state)] under the current parameter values,
    [cell_begin_state layer batch_size] is [layer.begin_state(...)], and
    [batch_size_of stream] is [stream.shape[1]]. *)
Variables X S Stacked : Type.
Variable call : SequentialRNNCell -> X -> S -> res (X * S).
Variable cell_begin_state : SequentialRNNCell -> Z -> S.
Variable batch_size_of : list X -> Z.
Variable stack : list X -> res Stacked.

(** [inputs] is one array in character mode and a pair of arrays
    (forward stream, backward stream) in word mode. An array of rank three
    is the list of its time steps.  The two lists of states are distinct
    objects, as [begin_state] and [detach] build them, so the in-place
    updates of one are not seen through the other. *)
Inductive Inputs : bool -> Type :=
| CharInputs (x : list X) : Inputs true
| WordInputs (fwd bwd : list X) : Inputs false.

(** [inputs if char_embedding else inputs[0]] and
    [inputs if char_embedding else inputs[1]] *)
Definition forward_stream {ce} (inputs : Inputs ce) : list X :=
  match inputs with
  | CharInputs x => x
  | WordInputs fwd _ => fwd
  end.

Definition backward_stream {ce} (inputs : Inputs ce) : list X :=
  match inputs with
  | CharInputs x => x
  | WordInputs _ bwd => bwd
  end.

Fixpoint begin_state_layers (layers : list SequentialRNNCell) (js : list nat)
    (batch_size : Z) : res (list S) :=
  match js with
  | [] => ret []
  | j :: js' =>
      l <- getattr_layer layers j ;;
      rest <- begin_state_layers layers js' batch_size ;;
      ret (cell_begin_state l batch_size :: rest)
  end.

Definition begin_state (self : ElmoLSTM) (batch_size : Z)
  : res (list S * list S) :=
  sf <- begin_state_layers (forward_layer_ self) (range (num_layers self))
          batch_size ;;
  sb <- begin_state_layers (backward_layer_ self) (range (num_layers self))
          batch_size ;;
  ret (sf, sb).

(** The forward loop of layer [j]: [for i in range(seq_len)]. *)
Fixpoint forward_steps (self : ElmoLSTM) (j : nat) (stream : list X)
    (steps : list nat) (outputs_forward : list (list X))
    (states_forward : list S) : res (list (list X) * list S) :=
  match steps with
  | [] => ret (outputs_forward, states_forward)
  | i :: steps' =>
      layer <- getattr_layer (forward_layer_ self) j ;;
      x <- (if Nat.eqb j 0 then getitem stream i
            else prev <- getitem outputs_forward (j - 1) ;; getitem prev i) ;;
      st <- getitem states_forward j ;;
      r <- call layer x st ;;
      let states_forward := set_nth j (snd r) states_forward in
      cur <- getitem outputs_forward j ;;
      let outputs_forward := set_nth j (cur ++ [fst r]) outputs_forward in
      forward_steps self j stream steps' outputs_forward states_forward
  end.

(** An entry of [outputs_backward] that is still [None] is no array. *)
Definition filled (o : option X) : res X :=
  match o with
  | Some x => ret x
  | None => raise TypeError
  end.

(** The backward loop of layer [j]: [for i in reversed(range(seq_len))]. *)
Fixpoint backward_steps (self : ElmoLSTM) (j : nat) (stream : list X)
    (steps : list nat) (outputs_backward : list (list (option X)))
    (states_backward : list S) : res (list (list (option X)) * list S) :=
  match steps with
  | [] => ret (outputs_backward, states_backward)
  | i :: steps' =>
      layer <- getattr_layer (backward_layer_ self) j ;;
      x <- (if Nat.eqb j 0 then getitem stream i
            else prev <- getitem outputs_backward (j - 1) ;;
                 o <- getitem prev i ;; filled o) ;;
      st <- getitem states_backward j ;;
      r <- call layer x st ;;
      let states_backward := set_nth j (snd r) states_backward in
      cur <- getitem outputs_backward j ;;
      _ <- (if Nat.ltb i (length cur) then ret tt else raise IndexError) ;;
      let outputs_backward :=
        set_nth j (set_nth i (Some (fst r)) cur) outputs_backward in
      backward_steps self j stream steps' outputs_backward states_backward
  end.

Record loop_state := {
  outputs_forward : list (list X);
  outputs_backward : list (list (option X));
  states_forward : list S;
  states_backward : list S
}.

(** [for j in range(self.num_layers)] *)
Fixpoint layers_loop (self : ElmoLSTM) (js : list nat)
    (fwd bwd : list X) (seq_len : nat) (st : loop_state) : res loop_state :=
  match js with
  | [] => ret st
  | j :: js' =>
      f <- forward_steps self j fwd (seq 0 seq_len)
             (outputs_forward st ++ [[]]) (states_forward st) ;;
      b <- backward_steps self j bwd (rev (seq 0 seq_len))
             (outputs_backward st ++ [repeat None seq_len])
             (states_backward st) ;;
      layers_loop self js' fwd bwd seq_len
        {| outputs_forward := fst f; outputs_backward := fst b;
           states_forward := snd f; states_backward := snd b |}
  end.

Fixpoint filled_all (os : list (option X)) : res (list X) :=
  match os with
  | [] => ret []
  | o :: os' => x <- filled o ;; xs <- filled_all os' ;; ret (x :: xs)
  end.

(** The last loop: every layer's outputs are stacked. *)
Fixpoint stack_loop (js : list nat) (outputs_forward : list (list X))
    (outputs_backward : list (list (option X)))
  : res (list Stacked * list Stacked) :=
  match js with
  | [] => ret ([], [])
  | i :: js' =>
      f <- getitem outputs_forward i ;;
      sf <- stack f ;;
      b <- getitem outputs_backward i ;;
      xs <- filled_all b ;;
      sb <- stack xs ;;
      rest <- stack_loop js' outputs_forward outputs_backward ;;
      ret (sf :: fst rest, sb :: snd rest)
  end.

Definition forward (self : ElmoLSTM) (inputs : Inputs (char_embedding self))
    (states : option (list S * list S))
  : res ((list Stacked * list Stacked) * (list S * list S)) :=
  let seq_len := length (forward_stream inputs) in
  states <- match states with
            | None => begin_state self (batch_size_of (forward_stream inputs))
            | Some st => ret st
            end ;;
  st <- layers_loop self (range (num_layers self))
          (forward_stream inputs) (backward_stream inputs) seq_len
          {| outputs_forward := []; outputs_backward := [];
             states_forward := fst states; states_backward := snd states |} ;;
  outs <- stack_loop (range (num_layers self))
            (outputs_forward st) (outputs_backward st) ;;
  ret (outs, (states_forward st, states_backward st)).

End Encoder.

(* ================================================================== *)
(** * ElmoBiLM *)
(* ================================================================== *)

Local Open Scope M_scope.

(** The layers the model puts in its [HybridSequential] containers, with the
    dictionary of each and the parameters it holds. *)
Inductive Layer : Type :=
| Embedding (params weight : nat) (input_dim output_dim : Z)
| Dropout (params : nat) (rate : R)
| Dense (params weight bias : nat) (units : Z).

Record HybridSequential := {
  hs_params : nat;
  layers : list Layer
}.

(** [layer.params] *)
Definition layer_params (l : Layer) : nat :=
  match l with
  | Embedding d _ _ _ => d
  | Dropout d _ => d
  | Dense d _ _ _ => d
  end.

Definition new_Embedding (input_dim output_dim : Z) : M Layer :=
  d <- Block_init None ;;
  w <- params_get d "weight" ;;
  retM (Embedding d w input_dim output_dim).

Definition new_Dropout (rate : R) : M Layer :=
  d <- Block_init None ;;
  retM (Dropout d rate).

(** [nn.Dense(units, flatten=False, params=params)], with its bias. *)
Definition new_Dense (units : Z) (params : option nat) : M Layer :=
  d <- Block_init params ;;
  w <- params_get d "weight" ;;
  b <- params_get d "bias" ;;
  retM (Dense d w b units).

Module ElmoBiLM.

Record t := {
  params : nat;
  _mode : string;
  _embed_size : Z;
  _hidden_size : Z;
  _skip_connection : bool;
  _proj_size : option Z;
  _proj_clip : option R;
  _cell_clip : option R;
  _num_layers : Z;
  _dropout : R;
  _tie_weights : bool;
  _vocab_size : Z;
  _char_embedding : bool;
  embedding : option HybridSequential;      (* [None]: not assigned yet *)
  encoder : option ElmoLSTM;
  decoder : option HybridSequential
}.

Definition set_embedding (self : t) (e : HybridSequential) : t :=
  {| params := params self; _mode := _mode self;
     _embed_size := _embed_size self; _hidden_size := _hidden_size self;
     _skip_connection := _skip_connection self;
     _proj_size := _proj_size self; _proj_clip := _proj_clip self;
     _cell_clip := _cell_clip self; _num_layers := _num_layers self;
     _dropout := _dropout self; _tie_weights := _tie_weights self;
     _vocab_size := _vocab_size self;
     _char_embedding := _char_embedding self;
     embedding := Some e; encoder := encoder self; decoder := decoder self |}.

Definition set_encoder (self : t) (e : ElmoLSTM) : t :=
  {| params := params self; _mode := _mode self;
     _embed_size := _embed_size self; _hidden_size := _hidden_size self;
     _skip_connection := _skip_connection self;
     _proj_size := _proj_size self; _proj_clip := _proj_clip self;
     _cell_clip := _cell_clip self; _num_layers := _num_layers self;
     _dropout := _dropout self; _tie_weights := _tie_weights self;
     _vocab_size := _vocab_size self;
     _char_embedding := _char_embedding self;
     embedding := embedding self; encoder := Some e; decoder := decoder self |}.

Definition set_decoder (self : t) (d : HybridSequential) : t :=
  {| params := params self; _mode := _mode self;
     _embed_size := _embed_size self; _hidden_size := _hidden_size self;
     _skip_connection := _skip_connection self;
     _proj_size := _proj_size self; _proj_clip := _proj_clip self;
     _cell_clip := _cell_clip self; _num_layers := _num_layers self;
     _dropout := _dropout self; _tie_weights := _tie_weights self;
     _vocab_size := _vocab_size self;
     _char_embedding := _char_embedding self;
     embedding := embedding self; encoder := encoder self; decoder := Some d |}.

(** Reading an attribute that has not been assigned. *)
Definition attr {A} (a : option A) : res A :=
  match a with
  | Some v => ret v
  | None => raise AttributeError
  end.

Definition _get_embedding (self : t) : M HybridSequential :=
  d <- Block_init None ;;
  e <- new_Embedding (_vocab_size self) (_embed_size self) ;;
  if Req_dec_T (_dropout self) 0 then
    retM {| hs_params := d; layers := [e] |}
  else
    dr <- new_Dropout (_dropout self) ;;
    retM {| hs_params := d; layers := [e; dr] |}.

Definition _get_encoder (self : t) : M ElmoLSTM :=
  ElmoLSTM_init (_mode self) (_num_layers self) (_embed_size self)
    (_hidden_size self) (_dropout self) (_skip_connection self)
    (_char_embedding self) (_proj_size self) (_cell_clip self)
    (_proj_clip self) None.

Definition _get_decoder (self : t) : M HybridSequential :=
  d <- Block_init None ;;
  if _tie_weights self then
    emb <- liftM (attr (embedding self)) ;;
    e0 <- liftM (getitem (layers emb) 0) ;;
    dense <- new_Dense (_vocab_size self) (Some (layer_params e0)) ;;
    retM {| hs_params := d; layers := [dense] |}
  else
    dense <- new_Dense (_vocab_size self) None ;;
    retM {| hs_params := d; layers := [dense] |}.

Definition __init__ (mode : string) (vocab_size embed_size hidden_size
    num_layers : Z) (dropout : R) (tie_weights char_embedding
    skip_connection : bool) (proj_size : option Z)
    (proj_clip cell_clip : option R) : M t :=
  _ <- liftM (if tie_weights then assert (Z.eqb embed_size hidden_size)
              else ret tt) ;;
  d <- Block_init None ;;
  let self :=
    {| params := d; _mode := mode; _embed_size := embed_size;
       _hidden_size := hidden_size; _skip_connection := skip_connection;
       _proj_size := proj_size; _proj_clip := proj_clip;
       _cell_clip := cell_clip; _num_layers := num_layers;
       _dropout := dropout; _tie_weights := tie_weights;
       _vocab_size := vocab_size; _char_embedding := char_embedding;
       embedding := None; encoder := None; decoder := None |} in
  e <- _get_embedding self ;;
  let self := set_embedding self e in
  enc <- _get_encoder self ;;
  let self := set_encoder self enc in
  dec <- _get_decoder self ;;
  retM (set_decoder self dec).

(** The weight parameter of the input embedding layer and of the output
    dense layer of a constructed model. *)
Definition embedding_weight (self : t) : option nat :=
  match embedding self with
  | Some {| layers := Embedding _ w _ _ :: _ |} => Some w
  | _ => None
  end.

Definition decoder_weight (self : t) : option nat :=
  match decoder self with
  | Some {| layers := Dense _ w _ _ :: _ |} => Some w
  | _ => None
  end.

End ElmoBiLM.

Local Close Scope M_scope.

(* ================================================================== *)
(** * Floats with special values, [math.exp], perplexity *)
(* ================================================================== *)

(** A Python float whose special values matter. *)
Inductive pyfloat : Type :=
| Fin (r : R)
| PInf
| NInf
| NaN.

(** [x < y]: every comparison with NaN is false. *)
Definition float_lt (x y : pyfloat) : bool :=
  match x, y with
  | NaN, _ | _, NaN => false
  | PInf, _ => false
  | _, NInf => false
  | NInf, _ => true
  | Fin _, PInf => true
  | Fin a, Fin b => if Rlt_dec a b then true else false
  end.

(** The largest finite double, [(2 - 2^-52) * 2^1023]. *)
Definition DBL_MAX : R := (2 - / 2 ^ 52) * 2 ^ 1023.

(** [math.exp(x)]: raises [OverflowError] ("math range error") when the
    result is too large for a double. *)
Definition math_exp (x : pyfloat) : res pyfloat :=
  match x with
  | Fin r => if Rlt_dec DBL_MAX (exp r) then raise OverflowError
             else ret (Fin (exp r))
  | PInf => ret PInf
  | NInf => ret (Fin 0)
  | NaN => ret NaN
  end.

(** [get_ppl] of the ELMo script: the bare [except] turns any exception
    into [float('inf')]. *)
Definition get_ppl (cur_loss : pyfloat) : pyfloat :=
  match math_exp cur_loss with
  | inr ppl => ppl
  | inl _ => PInf
  end.

(* ================================================================== *)
(** * The training loop: reports and learning-rate schedule *)
(* ================================================================== *)

(** The end of an epoch is the same text in both scripts
    ([word_language_model.py] 579-595, [bi_language_model.py] 319-335). *)

Record TrainState := {
  best_val : pyfloat;
  update_lr_epoch : option Z;      (* [None]: the local is not bound yet *)
  learning_rate : R;               (* [trainer.learning_rate] *)
  saved : nat                      (* calls of [model.save_params] *)
}.

(** What one epoch observes: the running losses at its progress lines, the
    validation loss, and the test loss [evaluate] would return. *)
Record Epoch := {
  logged : list pyfloat;
  val_L : pyfloat;
  test_L : pyfloat
}.

(** [x % y] on ints. *)
Definition py_mod (x y : Z) : res Z :=
  if Z.eqb y 0 then raise ZeroDivisionError else ret (Z.modulo x y).

(** The progress line of the batch loop prints [math.exp(cur_L)]. *)
Fixpoint progress_lines (cur_Ls : list pyfloat) : res unit :=
  match cur_Ls with
  | [] => ret tt
  | cur_L :: rest => _ <- math_exp cur_L ;; progress_lines rest
  end.

Definition end_of_epoch (lr_update_interval : Z) (lr_update_factor : R)
    (e : Epoch) (st : TrainState) : res TrainState :=
  _ <- math_exp (val_L e) ;;                        (* 'valid ppl %.2f' *)
  if float_lt (val_L e) (best_val st) then
    _ <- math_exp (test_L e) ;;                     (* 'test ppl %.2f' *)
    ret {| best_val := val_L e; update_lr_epoch := Some 0%Z;
           learning_rate := learning_rate st; saved := S (saved st) |}
  else
    n <- load (update_lr_epoch st) ;;
    let n := (n + 1)%Z in
    m <- py_mod n lr_update_interval ;;
    if Z.eqb m 0 && negb (Z.eqb n 0) then
      let lr_scale := learning_rate st * lr_update_factor in
      ret {| best_val := best_val st; update_lr_epoch := Some 0%Z;
             learning_rate := lr_scale; saved := saved st |}
    else
      ret {| best_val := best_val st; update_lr_epoch := Some n;
             learning_rate := learning_rate st; saved := saved st |}.

Definition run_epoch (lr_update_interval : Z) (lr_update_factor : R)
    (e : Epoch) (st : TrainState) : res TrainState :=
  _ <- progress_lines (logged e) ;;
  end_of_epoch lr_update_interval lr_update_factor e st.

Fixpoint run_epochs (lr_update_interval : Z) (lr_update_factor : R)
    (es : list Epoch) (st : TrainState) : res TrainState :=
  match es with
  | [] => ret st
  | e :: es' =>
      st' <- run_epoch lr_update_interval lr_update_factor e st ;;
      run_epochs lr_update_interval lr_update_factor es' st'
  end.

(** [train()]: [best_val = float('Inf')], and nothing assigns
    [update_lr_epoch] before the loop. *)
Definition train (lr : R) (lr_update_interval : Z) (lr_update_factor : R)
    (es : list Epoch) : res TrainState :=
  run_epochs lr_update_interval lr_update_factor es
    {| best_val := PInf; update_lr_epoch := None;
       learning_rate := lr; saved := 0 |}.

(* ================================================================== *)
(** * Batches and losses: [get_batch], [evaluate], [criterion] *)
(* ================================================================== *)

(** [xs[lo:hi]] for ints: a negative bound counts from the end, and both
    bounds are clamped to the sequence. *)
Definition clamp_index (len i : Z) : Z :=
  let i := if Z.ltb i 0 then (i + len)%Z else i in
  Z.max 0 (Z.min len i).

Definition py_slice {A} (xs : list A) (lo hi : Z) : list A :=
  let len := Z.of_nat (length xs) in
  let lo := clamp_index len lo in
  let hi := clamp_index len hi in
  firstn (Z.to_nat (hi - lo)) (skipn (Z.to_nat lo) xs).

(** [range(start, stop, step)] *)
Definition range3 (start stop step : Z) : res (list Z) :=
  if Z.eqb step 0 then raise ValueError
  else
    let count :=
      if Z.ltb 0 step then Z.max 0 ((stop - start + step - 1) / step)
      else Z.max 0 ((start - stop - step - 1) / (- step)) in
    ret (map (fun k => (start + Z.of_nat k * step)%Z) (seq 0 (Z.to_nat count))).

Definition sum (l : list R) : R := fold_right Rplus 0 l.

(** An array of token ids of shape (length, batch) is the list of its
    rows. *)
Definition Tokens := list (list Z).

(** [get_batch(data_source, i, seq_len=None)] with [args.bptt = bptt]. *)
Definition get_batch (bptt : Z) (data_source : Tokens) (i : Z)
    (seq_len : option Z) : Tokens * Tokens :=
  let wanted := match seq_len with
                | Some n => if Z.eqb n 0 then bptt else n
                | None => bptt
                end in
  let seq_len :=
    Z.min wanted (Z.of_nat (length data_source) - 1 - i) in
  (py_slice data_source i (i + seq_len),
   py_slice data_source (i + 1) (i + 1 + seq_len)).

Section Losses.

(** [Logits] is the score vector of one position, [ce logits label] the
    softmax cross-entropy of that position against one token id;
    [model (data, target) hidden] is the call of the two-directional model
    on the pair of streams, returning the forward and backward logits of
    shape (length, batch) and the new hidden state. *)
Variables Logits Hidden : Type.
Variable ce : Logits -> Z -> R.
Variable model :
  Tokens * Tokens -> Hidden ->
  res ((list (list Logits) * list (list Logits)) * Hidden).
Variable detach : Hidden -> Hidden.

(** [loss(pred, label)] with [loss = SoftmaxCrossEntropyLoss()]: one value
    per position. *)
Definition loss (pred : list Logits) (label : list Z) : res (list R) :=
  if Nat.eqb (length pred) (length label) then ret (zipWith ce pred label)
  else raise MXNetError.

(** The body of the loop of [evaluate]; [output.reshape(-3, -1)] and
    [target.reshape(-1,)] flatten the two leading axes. *)
Definition evaluate_chunk (bptt : Z) (data_source : Tokens) (i : Z)
    (acc : R * Z * Hidden) : res (R * Z * Hidden) :=
  let total_L := fst (fst acc) in
  let ntotal := snd (fst acc) in
  let hidden := snd acc in
  let data := fst (get_batch bptt data_source i None) in
  let target := snd (get_batch bptt data_source i None) in
  r <- model (data, target) hidden ;;
  let output := fst r in
  let hidden := detach (snd r) in
  L <- loss (concat (fst output)) (concat target) ;;
  let total_L := total_L + sum L in
  L <- loss (concat (snd output)) (concat data) ;;
  let total_L := total_L + sum L in
  let ntotal := (ntotal + 2 * Z.of_nat (length L))%Z in
  ret (total_L, ntotal, hidden).

Fixpoint evaluate_loop (bptt : Z) (data_source : Tokens) (starts : list Z)
    (acc : R * Z * Hidden) : res (R * Z * Hidden) :=
  match starts with
  | [] => ret acc
  | i :: rest =>
      acc' <- evaluate_chunk bptt data_source i acc ;;
      evaluate_loop bptt data_source rest acc'
  end.

Definition evaluate (bptt : Z) (data_source : Tokens) (hidden : Hidden)
  : res R :=
  starts <- range3 0 (Z.of_nat (length data_source) - 1) bptt ;;
  acc <- evaluate_loop bptt data_source starts (0, 0%Z, hidden) ;;
  if Z.eqb (snd (fst acc)) 0 then raise ZeroDivisionError
  else ret (fst (fst acc) / IZR (snd (fst acc))).



End Losses.

(* ================================================================== *)
(** * The two scripts, from the first line to the model *)
(* ================================================================== *)

Local Open Scope M_scope.
Local Open Scope string_scope.

(** [import name]: [path] lists the modules that can be imported. *)
Definition import_module (path : list string) (name : string) : res unit :=
  if existsb (String.eqb name) path then ret tt else raise ImportError.

Fixpoint imports (path : list string) (names : list string) : res unit :=
  match names with
  | [] => ret tt
  | n :: rest => bind (import_module path n) (fun _ => imports path rest)
  end.

(** The options of [word_language_model.py]. *)
Record Args := {
  model_ : string;             (* [--model] *)
  emsize : Z;
  nhid : Z;
  cellclip : option R;
  projsize : option Z;
  projclip : option R;
  nlayers : Z;
  lr : R;
  clip_ : R;                   (* [--clip] *)
  epochs : Z;
  batch_size : Z;
  bptt : Z;
  dropout : R;
  dropout_h : R;
  dropout_i : R;
  dropout_e : R;
  weight_dropout : R;
  tied : bool;
  log_interval : Z;
  save : string;
  eval_only : bool;
  gpus : option (list Z);      (* [None], or the ids between the commas *)
  lr_update_interval : Z;
  lr_update_factor : R;
  optimizer : string;
  wd : R;
  skip_connection : bool;
  char_embedding_ : bool;
  alpha : R;
  beta : R;
  test_mode : bool;
  load_ : bool
}.

(** The options of [bi_language_model.py]: its parser defines no
    [--weight_dropout]. *)
Record BiArgs := {
  bi_model : string;
  bi_emsize : Z;
  bi_nhid : Z;
  bi_nlayers : Z;
  bi_lr : R;
  bi_clip : R;
  bi_epochs : Z;
  bi_batch_size : Z;
  bi_bptt : Z;
  bi_dropout : R;
  bi_tied : bool;
  bi_log_interval : Z;
  bi_save : string;
  bi_eval_only : bool;
  bi_gpus : option (list Z);
  bi_lr_update_interval : Z;
  bi_lr_update_factor : R;
  bi_optimizer : string;
  bi_wd : R;
  bi_alpha : R;
  bi_beta : R;
  bi_cellclip : R;
  bi_projsize : Z;
  bi_projclip : R;
  bi_skip_connection : bool;
  bi_test_mode : bool
}.

(** [len(context)]: one device for no or an empty [--gpus], else one per
    listed id. *)
Definition context_size (gpus : option (list Z)) : Z :=
  match gpus with
  | None => 1
  | Some [] => 1
  | Some ids => Z.of_nat (length ids)
  end.

(** [weight_dropout > 0 or (weight_dropout == 0 and alpha == 0)] *)
Definition regularization_allowed (weight_dropout alpha : R) : bool :=
  if Rlt_dec 0 weight_dropout then true
  else if Req_dec_T weight_dropout 0
       then (if Req_dec_T alpha 0 then true else false)
       else false.

Definition apply_test_mode (args : Args) : Args :=
  if test_mode args then
    {| model_ := model_ args; emsize := 200; nhid := 200;
       cellclip := cellclip args; projsize := projsize args;
       projclip := projclip args; nlayers := 1; lr := lr args;
       clip_ := clip_ args; epochs := 3; batch_size := batch_size args;
       bptt := bptt args; dropout := dropout args;
       dropout_h := dropout_h args; dropout_i := dropout_i args;
       dropout_e := dropout_e args; weight_dropout := weight_dropout args;
       tied := tied args; log_interval := log_interval args;
       save := save args; eval_only := eval_only args; gpus := gpus args;
       lr_update_interval := lr_update_interval args;
       lr_update_factor := lr_update_factor args;
       optimizer := optimizer args; wd := wd args;
       skip_connection := skip_connection args;
       char_embedding_ := char_embedding_ args; alpha := alpha args;
       beta := beta args; test_mode := test_mode args;
       load_ := load_ args |}
  else args.

(** [word_language_model.py] from its first line to the construction of
    the model; [vocab_size] is [len(vocab)] and [main] the rest of the
    script (trainer, training, evaluation). *)
Definition word_language_model (path : list string) (args : Args)
    (vocab_size : Z) (main : Args -> ElmoBiLM.t -> M unit) : M unit :=
  liftM (imports path
           ["argparse"; "time"; "math"; "os"; "sys"; "mxnet"; "gluonnlp";
            "LSTMPCellLSTMPCellWithClip"]) ;;;
  emit ParseArgs ;;;
  m <- liftM (py_mod (batch_size args) (context_size (gpus args))) ;;
  liftM (assert (Z.eqb m 0)) ;;;
  liftM (assert (regularization_allowed (weight_dropout args) (alpha args))) ;;;
  emit LoadData ;;;
  let args := apply_test_mode args in
  emit BuildModel ;;;
  model <- ElmoBiLM.__init__ (model_ args) vocab_size (emsize args)
             (nhid args) (nlayers args) (dropout args) (tied args)
             (char_embedding_ args) (skip_connection args) (projsize args)
             (projclip args) (cellclip args) ;;
  main args model.

(** [args.weight_dropout] in [bi_language_model.py]: the namespace has no
    such attribute. *)
Definition bi_weight_dropout (args : BiArgs) : res R := raise AttributeError.

(** [bi_language_model.py] from its first line to the construction of the
    model; [main] is the rest of the script from there. *)
Definition bi_language_model (path : list string) (args : BiArgs)
    (main : BiArgs -> M unit) : M unit :=
  liftM (imports path
           ["argparse"; "time"; "math"; "os"; "sys"; "mxnet"; "gluonnlp"]) ;;;
  emit ParseArgs ;;;
  m <- liftM (py_mod (bi_batch_size args) (context_size (bi_gpus args))) ;;
  liftM (assert (Z.eqb m 0)) ;;;
  w <- liftM (bi_weight_dropout args) ;;
  liftM (assert (regularization_allowed w (bi_alpha args))) ;;;
  emit LoadData ;;;
  emit BuildModel ;;;
  main args.

(** The modules of the directory of the ELMo script. *)
Definition elmo_directory : list string :=
  ["LSTMPCellWithClip"; "word_language_model"].

Local Close Scope string_scope.
Local Close Scope M_scope.

(** A run that ended in an exception having at most parsed its arguments:
    no data loaded, no block or parameter created, nothing trained or
    evaluated. *)
Definition fails_before_model (r : res unit * store) (s : store) : Prop :=
  (exists e, fst r = inl e) /\ (snd r = s \/ snd r = log ParseArgs s).

(** The default options of the ELMo script. *)
Definition default_args : Args :=
  {| model_ := "lstm"; emsize := 400; nhid := 1150;
     cellclip := None; projsize := None; projclip := None;
     nlayers := 3; lr := 30; clip_ := 25 / 100; epochs := 180;
     batch_size := 80; bptt := 70;
     dropout := 4 / 10; dropout_h := 2 / 10; dropout_i := 65 / 100;
     dropout_e := 1 / 10; weight_dropout := 5 / 10;
     tied := false; log_interval := 200; save := "model.params";
     eval_only := false; gpus := None;
     lr_update_interval := 30; lr_update_factor := 1 / 10;
     optimizer := "sgd"; wd := 12 / 10000000;
     skip_connection := false; char_embedding_ := false;
     alpha := 2; beta := 1; test_mode := false; load_ := false |}.

(** The same with [--gpus 0,1,2]: 80 is no multiple of 3. *)
Definition three_gpu_args : Args :=
  {| model_ := "lstm"; emsize := 400; nhid := 1150;
     cellclip := None; projsize := None; projclip := None;
     nlayers := 3; lr := 30; clip_ := 25 / 100; epochs := 180;
     batch_size := 80; bptt := 70;
     dropout := 4 / 10; dropout_h := 2 / 10; dropout_i := 65 / 100;
     dropout_e := 1 / 10; weight_dropout := 5 / 10;
     tied := false; log_interval := 200; save := "model.params";
     eval_only := false; gpus := Some [0%Z; 1%Z; 2%Z];
     lr_update_interval := 30; lr_update_factor := 1 / 10;
     optimizer := "sgd"; wd := 12 / 10000000;
     skip_connection := false; char_embedding_ := false;
     alpha := 2; beta := 1; test_mode := false; load_ := false |}.

(** What can be imported where the ELMo script runs: the libraries it
    names and the modules of its own directory. *)
Definition elmo_path : list string :=
  ["argparse"; "time"; "math"; "os"; "sys"; "mxnet"; "gluonnlp"]%string
  ++ elmo_directory.

(** The default options of [bi_language_model.py]. *)
Definition default_bi_args : BiArgs :=
  {| bi_model := "lstm"; bi_emsize := 650; bi_nhid := 650; bi_nlayers := 2;
     bi_lr := 20; bi_clip := 25 / 100; bi_epochs := 750;
     bi_batch_size := 20; bi_bptt := 35; bi_dropout := 5 / 10;
     bi_tied := false; bi_log_interval := 200; bi_save := "model.params";
     bi_eval_only := false; bi_gpus := None;
     bi_lr_update_interval := 30; bi_lr_update_factor := 1 / 10;
     bi_optimizer := "sgd"; bi_wd := 0; bi_alpha := 0; bi_beta := 0;
     bi_cellclip := 0; bi_projsize := 0; bi_projclip := 0;
     bi_skip_connection := false; bi_test_mode := false |}.

(** [frame n s s']: going from [s] to [s'] kept the first [n]
    dictionaries as they were and dropped none. *)
Definition frame (n : nat) (s s' : store) : Prop :=
  (length (dicts s) <= length (dicts s'))%nat /\
  firstn n (dicts s') = firstn n (dicts s).

(** [succeeds n m Q]: from every state with at least [n] dictionaries, [m]
    returns a value satisfying [Q] and leaves the first [n] dictionaries
    alone. *)
Definition succeeds {A} (n : nat) (m : M A) (Q : A -> Prop) : Prop :=
  forall s, (n <= length (dicts s))%nat ->
    exists a s', m s = (inr a, s') /\ Q a /\ frame n s s'.

(** A constructor that never removes a parameter: the list of parameters
    is at least as long after it, whether it returns or raises. *)
Definition grows {A} (m : M A) : Prop :=
  forall s, (length (parameters s) <= length (parameters (snd (m s))))%nat.

(** A one-layer word-mode encoder over integers whose cell keeps a running
    sum, for examples. *)
Definition toy_layer : SequentialRNNCell := {| seq_params := 0; children := [] |}.

Definition toy_call (_ : SequentialRNNCell) (x s : Z) : res (Z * Z) :=
  ret ((x + s)%Z, (x + s)%Z).

Definition toy_encoder : ElmoLSTM :=
  {| num_layers := 1; char_embedding := false; weight_file := None;
     elmo_params := 0;
     forward_layer_ := [toy_layer]; backward_layer_ := [toy_layer] |}.

Definition toy_forward (fwd bwd : list Z) (states : option (list Z * list Z))
  : res ((list (list Z) * list (list Z)) * (list Z * list Z)) :=
  forward toy_call (fun _ _ => 0%Z) (fun _ => 1%Z) (fun xs => ret xs)
    toy_encoder (WordInputs fwd bwd) states.

(** What the schedule keeps true after [n] epochs of a run of [train]
    started at rate [lr0]: the counter, once bound, stays below the
    interval; the rate is [lr0] times a power [k] of the factor; and every
    decay has used up a full interval of epochs. *)
Definition schedule_inv (lr0 : R) (interval : Z) (factor : R) (n : nat)
    (st : TrainState) : Prop :=
  exists k : nat,
    learning_rate st = lr0 * factor ^ k /\
    match update_lr_epoch st with
    | None => n = 0%nat /\ k = 0%nat
    | Some c => (0 <= c < interval)%Z /\
                (Z.of_nat k * interval + c <= Z.of_nat n)%Z
    end.

(** The cell state and the output of one step of [unit_cell] with
    [zero_params] on input [1], recurrent output [0] and cell state [2]:
    every gate sees the pre-activation [0 * 1 + 0 + 0 + (0 * 0 + 0 + 0)]. *)
Definition example_c : NDArray :=
  [[sigmoid_fn (0 * 1 + 0 + 0 + (0 * 0 + 0 + 0)) * 2 +
    sigmoid_fn (0 * 1 + 0 + 0 + (0 * 0 + 0 + 0)) *
    Rtrigo_def.tanh (0 * 1 + 0 + 0 + (0 * 0 + 0 + 0))]].

Definition example_r : NDArray :=
  [[0 * (sigmoid_fn (0 * 1 + 0 + 0 + (0 * 0 + 0 + 0)) *
         Rtrigo_def.tanh
           (sigmoid_fn (0 * 1 + 0 + 0 + (0 * 0 + 0 + 0)) * 2 +
            sigmoid_fn (0 * 1 + 0 + 0 + (0 * 0 + 0 + 0)) *
            Rtrigo_def.tanh (0 * 1 + 0 + 0 + (0 * 0 + 0 + 0)))) + 0]].

(* ================================================================== *)
(** * The encoder, layer by layer *)
(* ================================================================== *)

Section EncoderReference.

Variables X S Stacked : Type.
Variable call : SequentialRNNCell -> X -> S -> res (X * S).
Variable stack : list X -> res Stacked.

(** One cell run over a sequence from a state: the outputs in order, and
    the last state. *)
Fixpoint unroll (layer : SequentialRNNCell) (xs : list X) (st : S)
  : res (list X * S) :=
  match xs with
  | [] => ret ([], st)
  | x :: xs' =>
      r <- call layer x st ;;
      rest <- unroll layer xs' (snd r) ;;
      ret (fst r :: fst rest, snd rest)
  end.

(** A stack of layers in two directions: every forward layer is unrolled
    over the outputs of the forward layer below it, every backward layer
    over the outputs of the backward layer below it taken from the last
    step to the first, its outputs put back in the order of the steps.
    The result is the outputs of all layers in the two directions and the
    last states. *)
Fixpoint unroll_layers (fls bls : list SequentialRNNCell) (sf sb : list S)
    (xf xb : list X)
  : res ((list (list X) * list (list X)) * (list S * list S)) :=
  match fls, bls, sf, sb with
  | fl :: fls', bl :: bls', s :: sf', t :: sb' =>
      f <- unroll fl xf s ;;
      b <- unroll bl (rev xb) t ;;
      rest <- unroll_layers fls' bls' sf' sb' (fst f) (rev (fst b)) ;;
      ret ((fst f :: fst (fst rest), rev (fst b) :: snd (fst rest)),
           (snd f :: fst (snd rest), snd b :: snd (snd rest)))
  | _, _, _, _ => ret (([], []), ([], []))
  end.

(** Every layer's outputs stacked, forward then backward. *)
Fixpoint stack_layers (fs bs : list (list X))
  : res (list Stacked * list Stacked) :=
  match fs, bs with
  | f :: fs', b :: bs' =>
      sf <- stack f ;;
      sb <- stack b ;;
      rest <- stack_layers fs' bs' ;;
      ret (sf :: fst rest, sb :: snd rest)
  | _, _ => ret ([], [])
  end.

End EncoderReference.

(* ================================================================== *)
(** * The model on a pair of streams *)
(* ================================================================== *)

Section ModelForward.

(** [X], [S], [Stacked], [call], [cell_begin_state], [batch_size_of] and
    [stack] are those of the encoder.  [embedding_call b a] is [b(a)] for
    the embedding block [b] and an array [a] of token ids of shape
    (length, batch): the list of the time steps of the embedded array;
    [decoder_call b x] is [b(x)] for the output block and a stacked array:
    logits of shape (length, batch); [Dropout m x p] is
    [nd.Dropout(x, p=p)] under the random mask [m] drawn for that call;
    [shape1 a] is [a.shape[1]].  [inputs] is the pair the scripts pass,
    [(data, target)]. *)
Variables X S Stacked Logits Mask : Type.
Variable call : SequentialRNNCell -> X -> S -> res (X * S).
Variable cell_begin_state : SequentialRNNCell -> Z -> S.
Variable batch_size_of : list X -> Z.
Variable stack : list X -> res Stacked.
Variable embedding_call : HybridSequential -> Tokens -> res (list X).
Variable decoder_call : HybridSequential -> Stacked -> res (list (list Logits)).
Variable Dropout : Mask -> Stacked -> R -> Stacked.
Variable shape1 : Tokens -> Z.







End ModelForward.




(** Element-wise bound on an array. *)
Definition within (b : R) (a : NDArray) : Prop :=
  Forall (Forall (fun v => - b <= v <= b)) a.

(* ================================================================== *)
(** * Theorems *)
(* ================================================================== *)

Lemma clip1_within b v : 0 <= b -> - b <= clip1 (- b) b v <= b.
Proof.
  intros Hb. unfold clip1.
  destruct (Rlt_dec b v); [lra|].
  destruct (Rlt_dec v (- b)); lra.
Qed.

Lemma clip_within b a : 0 <= b -> within b (clip a (- b) b).
Proof.
  intros Hb. unfold within, clip.
  apply Forall_map, Forall_forall. intros row _.
  apply Forall_map, Forall_forall. intros v _.
  now apply clip1_within.
Qed.

Lemma clip1_inactive_0 b : 0 <= b -> clip1 (- b) b 0 = 0.
Proof.
  intros Hb. unfold clip1.
  destruct (Rlt_dec b 0); [lra|]. destruct (Rlt_dec 0 (- b)); [lra|].
  reflexivity.
Qed.

Lemma bind_inr {A B} (m : res A) (k : A -> res B) (v : B) :
  bind m k = inr v -> exists a, m = inr a /\ k a = inr v.
Proof. destruct m as [e|a]; simpl; [discriminate | eauto]. Qed.

Ltac bind_inv H :=
  let a := fresh "a" in
  let Ha := fresh "H" a in
  apply bind_inr in H; destruct H as (a & Ha & H).

(** Two runs of one computation return one value. *)
Ltac same_result :=
  repeat match goal with
  | H1 : ?e = inr ?a, H2 : ?e = inr ?b |- _ =>
      rewrite H1 in H2; inversion H2; subst; clear H2
  end.

(** Under [mx.nd], whenever a call with both bounds set returns, the
    output is the new recurrent state and both state components are
    clipped arrays. *)
Lemma hybrid_forward_clipped_shape self b_c b_p inputs states
    i2h_weight h2h_weight h2r_weight i2h_bias h2h_bias out st :
  _cell_clip self = Some b_c ->
  _projection_clip self = Some b_p ->
  hybrid_forward self nd inputs states i2h_weight h2h_weight h2r_weight
    i2h_bias h2h_bias = inr (out, st) ->
  exists r c, st = [clip r (- b_p) b_p; clip c (- b_c) b_c]
              /\ out = clip r (- b_p) b_p.
Proof.
  intros Hc Hp H. unfold hybrid_forward in H. rewrite Hc, Hp in H.
  cbn [clip_out] in H.
  repeat bind_inv H.
  inversion H; subst. eauto.
Qed.

(* ------------------------------------------------------------------ *)
(** ** Lists and shapes *)
(* ------------------------------------------------------------------ *)

Section ListFacts.
Context {A B C : Type}.

Lemma zipWith_length (f : A -> B -> C) xs ys :
  length (zipWith f xs ys) = Nat.min (length xs) (length ys).
Proof.
  revert ys. induction xs as [|x xs IH]; intros [|y ys]; simpl; auto.
Qed.

Lemma zipWith_app (f : A -> B -> C) xs1 xs2 ys1 ys2 :
  length xs1 = length ys1 ->
  zipWith f (xs1 ++ xs2) (ys1 ++ ys2) = zipWith f xs1 ys1 ++ zipWith f xs2 ys2.
Proof.
  revert ys1. induction xs1 as [|x xs1 IH]; intros [|y ys1] Hl;
    simpl in *; try discriminate; auto.
  f_equal. apply IH. lia.
Qed.

Lemma zipWith_map_l {A'} (f : A -> B -> C) (g : A' -> A) xs ys :
  zipWith f (map g xs) ys = zipWith (fun a b => f (g a) b) xs ys.
Proof.
  revert ys. induction xs as [|x xs IH]; intros [|y ys]; simpl; auto.
  f_equal. apply IH.
Qed.

End ListFacts.

Lemma chunk_app (k i : nat) (l0 l1 rest : Vec) :
  length l0 = (i * k)%nat -> length l1 = k ->
  chunk k i (l0 ++ l1 ++ rest) = l1.
Proof.
  intros H0 H1. unfold chunk.
  rewrite skipn_app, <- H0, Nat.sub_diag, skipn_all. simpl.
  rewrite firstn_app, <- H1, Nat.sub_diag, firstn_all. simpl.
  apply app_nil_r.
Qed.

Lemma rect_length n m a : rect n m a -> length a = n.
Proof. now intros [H _]. Qed.

Lemma rect_app n1 n2 m a b :
  rect n1 m a -> rect n2 m b -> rect (n1 + n2) m (a ++ b).
Proof.
  intros [Ha Fa] [Hb Fb]. split.
  - rewrite length_app. lia.
  - apply Forall_app. now split.
Qed.

Lemma rect_map {X} n m (f : X -> Vec) (xs : list X) :
  length xs = n -> (forall x, In x xs -> length (f x) = m) ->
  rect n m (map f xs).
Proof.
  intros Hl Hf. split.
  - now rewrite length_map.
  - apply Forall_map, Forall_forall. exact Hf.
Qed.

Lemma rect_zipWith n m (op : R -> R -> R) a b :
  rect n m a -> rect n m b -> rect n m (zipWith (zipWith op) a b).
Proof.
  intros [Ha Fa] [Hb Fb]. subst n. revert b Hb Fb.
  induction Fa as [|x a Hx Fa IH]; intros [|y b] Hb Fb; simpl in *;
    try discriminate.
  - split; auto.
  - inversion Fb; subst. destruct (IH b) as [Hl Hr]; auto.
    split; simpl; [now rewrite Hl|].
    constructor; auto. rewrite zipWith_length. lia.
Qed.

Lemma rect_same_shape n m a b :
  rect n m a -> rect n m b -> same_shape a b = true.
Proof.
  intros [Ha Fa] [Hb Fb]. subst n. revert b Hb Fb.
  induction Fa as [|x a Hx Fa IH]; intros [|y b] Hb Fb; simpl in *;
    try discriminate; auto.
  inversion Fb; subst. rewrite IH by auto.
  rewrite H1, Nat.eqb_refl. reflexivity.
Qed.

Lemma elemwise_ok n m op a b :
  rect n m a -> rect n m b ->
  elemwise op a b = inr (zipWith (zipWith op) a b).
Proof.
  intros Ha Hb. unfold elemwise. now rewrite (rect_same_shape Ha Hb).
Qed.

Lemma width_is_true n (W : NDArray) :
  Forall (fun w => length w = n) W -> width_is n W = true.
Proof.
  intros H. unfold width_is. apply forallb_forall. intros w Hw.
  rewrite Forall_forall in H. apply Nat.eqb_eq. auto.
Qed.

Lemma FullyConnected_bias_ok B I n (data W : NDArray) (b : Vec) :
  rect B I data -> rect n I W -> length b = n ->
  FullyConnected data W (Some b) (Z.of_nat n) = inr (map (affine_row W b) data).
Proof.
  intros [_ Fd] [HW FW] Hb. unfold FullyConnected.
  rewrite HW, Hb, Z.eqb_refl. simpl.
  replace (forallb (fun x => width_is (length x) W) data) with true; auto.
  symmetry. apply forallb_forall. intros x Hx.
  rewrite Forall_forall in Fd. rewrite (Fd x Hx). now apply width_is_true.
Qed.

Lemma FullyConnected_nobias_ok B I n (data W : NDArray) :
  rect B I data -> rect n I W ->
  FullyConnected data W None (Z.of_nat n) = inr (map (linear_row W) data).
Proof.
  intros [_ Fd] [HW FW]. unfold FullyConnected.
  rewrite HW, Z.eqb_refl. simpl.
  replace (forallb (fun x => width_is (length x) W) data) with true; auto.
  symmetry. apply forallb_forall. intros x Hx.
  rewrite Forall_forall in Fd. rewrite (Fd x Hx). now apply width_is_true.
Qed.

Lemma SliceChannel_ok n k B (x : NDArray) :
  k <> 0%nat -> rect B (k * n) x ->
  SliceChannel x k
  = inr (map (fun i => map (chunk n i) x) (seq 0 k)).
Proof.
  intros Hk [_ Fx]. unfold SliceChannel.
  rewrite Forall_forall in Fx.
  replace (forallb _ x) with true.
  - unfold ret. f_equal. apply map_ext. intros i. apply map_ext_in. intros row Hr.
    rewrite (Fx row Hr), Nat.mul_comm, Nat.div_mul; auto.
  - symmetry. apply forallb_forall. intros row Hr.
    rewrite (Fx row Hr), Nat.mul_comm, Nat.Div0.mod_mul. reflexivity.
Qed.

Lemma chunk_length k i (row : Vec) :
  ((i + 1) * k <= length row)%nat -> length (chunk k i row) = k.
Proof.
  intros H. unfold chunk. rewrite length_firstn, length_skipn. lia.
Qed.

Lemma chunk4 k (l0 l1 l2 l3 : Vec) :
  length l0 = k -> length l1 = k -> length l2 = k -> length l3 = k ->
  chunk k 0 (l0 ++ l1 ++ l2 ++ l3) = l0 /\
  chunk k 1 (l0 ++ l1 ++ l2 ++ l3) = l1 /\
  chunk k 2 (l0 ++ l1 ++ l2 ++ l3) = l2 /\
  chunk k 3 (l0 ++ l1 ++ l2 ++ l3) = l3.
Proof.
  intros H0 H1 H2 H3. repeat split.
  - apply (chunk_app 0 [] l0 (l1 ++ l2 ++ l3)); auto.
  - apply (chunk_app 1 l0 l1 (l2 ++ l3)); auto. lia.
  - rewrite app_assoc. apply (chunk_app 2 (l0 ++ l1) l2 l3); auto.
    rewrite length_app. lia.
  - replace (l0 ++ l1 ++ l2 ++ l3) with (((l0 ++ l1) ++ l2) ++ l3 ++ [])
      by now rewrite app_nil_r, <- !app_assoc.
    apply (chunk_app 3 ((l0 ++ l1) ++ l2) l3 []); auto.
    rewrite !length_app. lia.
Qed.

Lemma affine_row_length (W : NDArray) b x n :
  length W = n -> length b = n -> length (affine_row W b x) = n.
Proof. intros HW Hb. unfold affine_row. rewrite zipWith_length. lia. Qed.

Lemma affine_row_app W1 W2 b1 b2 x :
  length W1 = length b1 ->
  affine_row (W1 ++ W2) (b1 ++ b2) x = affine_row W1 b1 x ++ affine_row W2 b2 x.
Proof. intros H. unfold affine_row. now apply zipWith_app. Qed.

Lemma affine_row_reference W b x :
  affine_row W b x = Reference.vadd (Reference.matvec W x) b.
Proof.
  unfold affine_row, Reference.vadd, Reference.matvec.
  now rewrite zipWith_map_l.
Qed.

(* ------------------------------------------------------------------ *)
(** ** The batched cell, example by example *)
(* ------------------------------------------------------------------ *)

Lemma batch_c_rows H Wi bi Wr br (xs rs cs : NDArray) :
  let G := zipWith (zipWith Rplus) (map (affine_row Wi bi) xs)
                                   (map (affine_row Wr br) rs) in
  zipWith (zipWith Rplus)
    (zipWith (zipWith Rmult) (Activation (map (chunk H 1) G) sigmoid) cs)
    (zipWith (zipWith Rmult) (Activation (map (chunk H 0) G) sigmoid)
                             (Activation (map (chunk H 2) G) tanh))
  = Reference.zip3With (fun x r c => row_c H (row_gates Wi bi Wr br x r) c)
      xs rs cs.
Proof.
  unfold Activation, act_fn. revert rs cs.
  induction xs as [|x xs IH]; intros [|r rs] [|c cs]; try reflexivity.
  cbn [map zipWith Reference.zip3With]. f_equal. apply IH.
Qed.

Lemma batch_r_rows H Wi bi Wr br Whr (xs rs cs : NDArray) :
  let G := zipWith (zipWith Rplus) (map (affine_row Wi bi) xs)
                                   (map (affine_row Wr br) rs) in
  map (linear_row Whr)
    (zipWith (zipWith Rmult) (Activation (map (chunk H 3) G) sigmoid)
       (Activation
          (Reference.zip3With
             (fun x r c => row_c H (row_gates Wi bi Wr br x r) c) xs rs cs)
          tanh))
  = Reference.zip3With (fun x r c => row_r H Whr (row_gates Wi bi Wr br x r) c)
      xs rs cs.
Proof.
  unfold Activation, act_fn. revert rs cs.
  induction xs as [|x xs IH]; intros [|r rs] [|c cs];
    cbn [map zipWith Reference.zip3With]; try reflexivity.
  f_equal. apply IH.
Qed.

Lemma zip3With_ext {A B C D} (f g : A -> B -> C -> D) xs ys zs :
  (forall x y z, f x y z = g x y z) ->
  Reference.zip3With f xs ys zs = Reference.zip3With g xs ys zs.
Proof.
  intros E. revert ys zs.
  induction xs as [|x xs IH]; intros [|y ys] [|z zs]; simpl; auto.
  rewrite E. f_equal. apply IH.
Qed.

Lemma row_gates_chunks H P I p x r :
  params_shaped H P I p ->
  let g := row_gates (Reference.i2h_weight p) (Reference.i2h_bias p)
             (Reference.h2h_weight p) (Reference.h2h_bias p) x r in
  let pre Wi bi Wr br :=
    Reference.vadd (Reference.vadd (Reference.matvec Wi x) bi)
                   (Reference.vadd (Reference.matvec Wr r) br) in
  chunk H 0 g = pre (Reference.W_ii p) (Reference.b_ii p)
                    (Reference.W_ri p) (Reference.b_ri p) /\
  chunk H 1 g = pre (Reference.W_if p) (Reference.b_if p)
                    (Reference.W_rf p) (Reference.b_rf p) /\
  chunk H 2 g = pre (Reference.W_ig p) (Reference.b_ig p)
                    (Reference.W_rg p) (Reference.b_rg p) /\
  chunk H 3 g = pre (Reference.W_io p) (Reference.b_io p)
                    (Reference.W_ro p) (Reference.b_ro p).
Proof.
  intros (Wii & Wif & Wig & Wio & bii & bif & big & bio &
          Wri & Wrf & Wrg & Wro & bri & brf & brg & bro & _).
  apply rect_length in Wii, Wif, Wig, Wio, Wri, Wrf, Wrg, Wro.
  intros g pre. subst g pre.
  unfold row_gates, Reference.i2h_weight, Reference.i2h_bias,
    Reference.h2h_weight, Reference.h2h_bias.
  do 6 (rewrite affine_row_app by lia).
  do 3 (rewrite zipWith_app
    by (rewrite !affine_row_length with (n := H); auto)).
  rewrite <- !affine_row_reference.
  apply chunk4; unfold Reference.vadd; rewrite zipWith_length;
    rewrite !affine_row_length with (n := H); auto; lia.
Qed.

Lemma row_step_reference H P I p x r c :
  params_shaped H P I p ->
  let g := row_gates (Reference.i2h_weight p) (Reference.i2h_bias p)
             (Reference.h2h_weight p) (Reference.h2h_bias p) x r in
  (row_r H (Reference.W_hr p) g c, row_c H g c) = Reference.step p x r c.
Proof.
  intros Hp g.
  destruct (row_gates_chunks x r Hp) as (E0 & E1 & E2 & E3).
  fold g in E0, E1, E2, E3.
  unfold row_r, row_c. rewrite E0, E1, E2, E3. reflexivity.
Qed.


Lemma rect_Activation n m a t : rect n m a -> rect n m (Activation a t).
Proof.
  intros [Hl Hf]. unfold Activation. apply rect_map; auto.
  intros x Hx. rewrite length_map. rewrite Forall_forall in Hf. auto.
Qed.

Lemma rect_clip n m a lo hi : rect n m a -> rect n m (clip a lo hi).
Proof.
  intros [Hl Hf]. unfold clip. apply rect_map; auto.
  intros x Hx. rewrite length_map. rewrite Forall_forall in Hf. auto.
Qed.

Lemma rect_chunk n k H i a :
  (i < k)%nat -> rect n (k * H) a -> rect n H (map (chunk H i) a).
Proof.
  intros Hi [Hl Hf]. apply rect_map; auto.
  intros x Hx. rewrite Forall_forall in Hf. apply chunk_length.
  rewrite (Hf x Hx). nia.
Qed.

Lemma rect_affine B n (data W : NDArray) b :
  length data = B -> length W = n -> length b = n ->
  rect B n (map (affine_row W b) data).
Proof.
  intros Hd HW Hb. apply rect_map; auto.
  intros x _. now apply affine_row_length.
Qed.

Lemma rect_linear B n (data W : NDArray) :
  length data = B -> length W = n -> rect B n (map (linear_row W) data).
Proof.
  intros Hd HW. apply rect_map; auto.
  intros x _. unfold linear_row. now rewrite length_map.
Qed.

Lemma params_shaped_stacked H P I p :
  params_shaped H P I p ->
  rect (4 * H) I (Reference.i2h_weight p) /\
  rect (4 * H) P (Reference.h2h_weight p) /\
  length (Reference.i2h_bias p) = (4 * H)%nat /\
  length (Reference.h2h_bias p) = (4 * H)%nat.
Proof.
  intros (Wii & Wif & Wig & Wio & bii & bif & big & bio &
          Wri & Wrf & Wrg & Wro & bri & brf & brg & bro & _).
  replace (4 * H)%nat with (H + (H + (H + H)))%nat by lia.
  unfold Reference.i2h_weight, Reference.h2h_weight,
    Reference.i2h_bias, Reference.h2h_bias.
  rewrite !length_app.
  split; [|split; [|split]]; try lia; repeat apply rect_app; auto.
Qed.

(* ------------------------------------------------------------------ *)
(** ** One call of the cell on well-shaped arguments *)
(* ------------------------------------------------------------------ *)

Lemma hybrid_forward_eval H P I B self F p (xs rs cs : NDArray) :
  _hidden_size self = Z.of_nat H ->
  _projection_size self = Some (Z.of_nat P) ->
  params_shaped H P I p ->
  rect B I xs -> rect B P rs -> rect B H cs ->
  let G := zipWith (zipWith Rplus)
             (map (affine_row (Reference.i2h_weight p) (Reference.i2h_bias p)) xs)
             (map (affine_row (Reference.h2h_weight p) (Reference.h2h_bias p)) rs) in
  let NC0 :=
    zipWith (zipWith Rplus)
      (zipWith (zipWith Rmult) (Activation (map (chunk H 1) G) sigmoid) cs)
      (zipWith (zipWith Rmult) (Activation (map (chunk H 0) G) sigmoid)
                               (Activation (map (chunk H 2) G) tanh)) in
  let NC := match _cell_clip self with
            | Some b => snd (clip_out F NC0 (- b) b NC0)
            | None => NC0
            end in
  let NR0 := map (linear_row (Reference.W_hr p))
               (zipWith (zipWith Rmult) (Activation (map (chunk H 3) G) sigmoid)
                                        (Activation NC tanh)) in
  let NR := match _projection_clip self with
            | Some b => snd (clip_out F NR0 (- b) b NR0)
            | None => NR0
            end in
  hybrid_forward self F xs [rs; cs]
    (Reference.i2h_weight p) (Reference.h2h_weight p) (Reference.W_hr p)
    (Reference.i2h_bias p) (Reference.h2h_bias p)
  = inr (NR, [NR; NC])
  /\ rect B H NC /\ rect B P NR.
Proof.
  intros Hh Hp Hps Hx Hr Hc G NC0 NC NR0 NR.
  destruct (params_shaped_stacked Hps) as (Hwi & Hwr & Hbi & Hbr).
  assert (Hhr : rect P H (Reference.W_hr p)) by apply Hps.
  assert (HG : rect B (4 * H) G).
  { apply rect_zipWith; apply rect_affine;
      eauto using rect_length. }
  assert (Hs : forall i, (i < 4)%nat -> rect B H (map (chunk H i) G)).
  { intros i Hi. eapply rect_chunk; eauto. }
  assert (Hs0 := Hs 0%nat ltac:(lia)). assert (Hs1 := Hs 1%nat ltac:(lia)).
  assert (Hs2 := Hs 2%nat ltac:(lia)). assert (Hs3 := Hs 3%nat ltac:(lia)).
  assert (HNC0 : rect B H NC0).
  { repeat apply rect_zipWith; auto using rect_Activation. }
  assert (HNC : rect B H NC).
  { subst NC. destruct (_cell_clip self), F; cbn [clip_out snd];
      auto using rect_clip. }
  assert (Hhid : rect B H (zipWith (zipWith Rmult)
                   (Activation (map (chunk H 3) G) sigmoid) (Activation NC tanh))).
  { apply rect_zipWith; auto using rect_Activation. }
  assert (HNR0 : rect B P NR0).
  { apply rect_linear; eauto using rect_length. }
  assert (HNR : rect B P NR).
  { subst NR. destruct (_projection_clip self), F; cbn [clip_out snd];
      auto using rect_clip. }
  split; [|split]; auto.
  unfold hybrid_forward. rewrite Hh, Hp.
  replace (Z.of_nat H * 4)%Z with (Z.of_nat (4 * H)) by lia.
  rewrite (FullyConnected_bias_ok _ Hx Hwi Hbi). cbn [bind getitem nth_error ret].
  rewrite (FullyConnected_bias_ok _ Hr Hwr Hbr). cbn [bind].
  unfold add.
  rewrite (@elemwise_ok B (4 * H)) by (apply rect_affine; eauto using rect_length).
  cbn [bind]. fold G.
  rewrite (@SliceChannel_ok H 4 B) by (auto; discriminate).
  cbn [bind seq map getitem nth_error ret required].
  unfold mul, _plus, _mul.
  rewrite (@elemwise_ok B H) by auto using rect_Activation. cbn [bind].
  rewrite (@elemwise_ok B H) by auto using rect_Activation. cbn [bind].
  rewrite (@elemwise_ok B H) by (apply rect_zipWith; auto using rect_Activation).
  cbn [bind]. fold NC0.
  change (match _cell_clip self with
          | Some cell_clip =>
              let (_, next_c) :=
                clip_out F NC0 (- cell_clip) cell_clip NC0 in next_c
          | None => NC0
          end) with NC.
  rewrite (@elemwise_ok B H) by auto using rect_Activation. cbn [bind].
  rewrite (FullyConnected_nobias_ok Hhid Hhr). cbn [bind]. fold NR0.
  reflexivity.
Qed.

Lemma zero_params_shaped : params_shaped 1 1 1 zero_params.
Proof.
  unfold params_shaped, rect; simpl.
  repeat split; auto; repeat constructor.
Qed.

Lemma rect_1_1 (a : NDArray) : rect 1 1 a -> exists v, a = [[v]].
Proof.
  intros [Hl Hf]. destruct a as [|row [|? ?]]; try discriminate.
  inversion Hf as [|? ? Hrow _]; subst.
  destruct row as [|v [|? ?]]; try discriminate. eauto.
Qed.

(* ------------------------------------------------------------------ *)
(** ** C1: clipping *)
(* ------------------------------------------------------------------ *)

(** Under [mx.nd] the bounds are kept, provided they are not negative:
    whenever one call returns, the emitted output is the new recurrent
    state, the returned cell state lies element-wise in [[-b_c, b_c]] and
    the projected output in [[-b_p, b_p]]. *)
Lemma hybrid_forward_nd_clip_bounds self b_c b_p
    inputs states i2h_weight h2h_weight h2r_weight i2h_bias h2h_bias out st :
  _cell_clip self = Some b_c ->
  _projection_clip self = Some b_p ->
  0 <= b_c -> 0 <= b_p ->
  hybrid_forward self nd inputs states i2h_weight h2h_weight h2r_weight
    i2h_bias h2h_bias = inr (out, st) ->
  exists r c, st = [r; c] /\ out = r /\ within b_c c /\ within b_p r.
Proof.
  intros Hc Hp Hbc Hbp E.
  destruct (hybrid_forward_clipped_shape _ _ _ _ _ _ _ _ Hc Hp E)
    as (r & c & -> & ->).
  exists (clip r (- b_p) b_p), (clip c (- b_c) b_c).
  auto using clip_within.
Qed.

(** A negative bound leaves an empty interval: under [mx.nd], with
    [cell_clip = -1] and [projection_clip = -1] the call returns, and
    neither the cell state nor the projected output lies in [[1, -1]]. *)
Lemma hybrid_forward_negative_clip_escapes :
  exists out r c,
    hybrid_forward (unit_cell (Some (-1)) (Some (-1))) nd
      [[0]] [[[0]]; [[0]]]
      [[0]; [0]; [0]; [0]] [[0]; [0]; [0]; [0]] [[0]]
      [0; 0; 0; 0] [0; 0; 0; 0]
    = inr (out, [r; c])
    /\ out = r /\ ~ within (-1) c /\ ~ within (-1) r.
Proof.
  destruct (@hybrid_forward_eval 1 1 1 1 (unit_cell (Some (-1)) (Some (-1)))
              nd zero_params [[0]] [[0]] [[0]]) as (E & Hc & Hr);
    try reflexivity; try apply zero_params_shaped;
    try (split; [reflexivity | repeat constructor]).
  apply rect_1_1 in Hc, Hr. destruct Hc as [vc Ec], Hr as [vr Er].
  rewrite Er, Ec in E.
  exists [[vr]], [[vr]], [[vc]]. split; [exact E|]. split; [reflexivity|].
  split; intros W; inversion W as [|? ? Hrow _]; subst;
    inversion Hrow as [|? ? Hv _]; subst; lra.
Qed.

Lemma sigmoid_fn_0 : sigmoid_fn 0 = / 2.
Proof. unfold sigmoid_fn. rewrite Ropp_0, exp_0. lra. Qed.

Lemma tanh_0 : Rtrigo_def.tanh 0 = 0.
Proof. unfold Rtrigo_def.tanh. rewrite sinh_0. lra. Qed.

(** With every weight and bias zero, a forget gate of one half takes the
    cell state 10 to 5. *)
Lemma half_of_ten :
  sigmoid_fn (0 * 1 + 0 + 0 + (0 * 0 + 0 + 0)) * 10 +
  sigmoid_fn (0 * 1 + 0 + 0 + (0 * 0 + 0 + 0)) *
  Rtrigo_def.tanh (0 * 1 + 0 + 0 + (0 * 0 + 0 + 0)) = 5.
Proof.
  replace (0 * 1 + 0 + 0 + (0 * 0 + 0 + 0)) with 0 by lra.
  rewrite sigmoid_fn_0, tanh_0. lra.
Qed.

Lemma clip1_above b v : - b <= b -> b < v -> clip1 (- b) b v = b.
Proof. intros Hb Hv. unfold clip1. destruct (Rlt_dec b v); [reflexivity|lra]. Qed.

(** Under [mx.sym] the clip attributes change nothing: the call returns
    what the cell without bounds returns. *)
Lemma hybrid_forward_sym_ignores_clip self inputs states
    i2h_weight h2h_weight h2r_weight i2h_bias h2h_bias :
  hybrid_forward self sym inputs states i2h_weight h2h_weight h2r_weight
    i2h_bias h2h_bias
  = hybrid_forward
      {| _hidden_size := _hidden_size self;
         _projection_size := _projection_size self;
         _cell_clip := None; _projection_clip := None;
         _input_size := _input_size self |}
      sym inputs states i2h_weight h2h_weight h2r_weight i2h_bias h2h_bias.
Proof.
  unfold hybrid_forward.
  cbn [_hidden_size _projection_size _cell_clip _projection_clip clip_out].
  destruct (_cell_clip self), (_projection_clip self); reflexivity.
Qed.

(** C1 fails for the hybridized cell, which is how the script runs it
    ([model.hybridize()]): [hybrid_forward] drops the value of [F.clip]
    and counts on [out=], which [mx.sym] ignores.  Under [mx.sym] a cell
    with both bounds set returns what the cell without bounds returns; with
    [cell_clip = 3], [projection_clip = 1], zero weights, input 1, recurrent
    state 0 and cell state 10 the call returns the cell state 5, outside
    [[-3, 3]].  Under [mx.nd] the same call returns the cell state 3. *)
Theorem hybrid_forward_hybridized_not_clipped :
  (forall self inputs states i2h_weight h2h_weight h2r_weight
          i2h_bias h2h_bias,
      hybrid_forward self sym inputs states i2h_weight h2h_weight h2r_weight
        i2h_bias h2h_bias
      = hybrid_forward
          {| _hidden_size := _hidden_size self;
             _projection_size := _projection_size self;
             _cell_clip := None; _projection_clip := None;
             _input_size := _input_size self |}
          sym inputs states i2h_weight h2h_weight h2r_weight
          i2h_bias h2h_bias)
  /\
  hybrid_forward (unit_cell (Some 3) (Some 1)) sym [[1]] [[[0]]; [[10]]]
    [[0]; [0]; [0]; [0]] [[0]; [0]; [0]; [0]] [[0]]
    [0; 0; 0; 0] [0; 0; 0; 0]
  = inr ([[0]], [[[0]]; [[5]]])
  /\
  ~ within 3 [[5]]
  /\
  hybrid_forward (unit_cell (Some 3) (Some 1)) nd [[1]] [[[0]]; [[10]]]
    [[0]; [0]; [0]; [0]] [[0]; [0]; [0]; [0]] [[0]]
    [0; 0; 0; 0] [0; 0; 0; 0]
  = inr ([[0]], [[[0]]; [[3]]]).
Proof.
  split; [exact hybrid_forward_sym_ignores_clip|].
  split; [|split].
  - transitivity
      (inr (A := exn)
         ([[0 * (sigmoid_fn (0 * 1 + 0 + 0 + (0 * 0 + 0 + 0)) *
                 Rtrigo_def.tanh
                   (sigmoid_fn (0 * 1 + 0 + 0 + (0 * 0 + 0 + 0)) * 10 +
                    sigmoid_fn (0 * 1 + 0 + 0 + (0 * 0 + 0 + 0)) *
                    Rtrigo_def.tanh (0 * 1 + 0 + 0 + (0 * 0 + 0 + 0)))) + 0]],
          [[[0 * (sigmoid_fn (0 * 1 + 0 + 0 + (0 * 0 + 0 + 0)) *
                  Rtrigo_def.tanh
                    (sigmoid_fn (0 * 1 + 0 + 0 + (0 * 0 + 0 + 0)) * 10 +
                     sigmoid_fn (0 * 1 + 0 + 0 + (0 * 0 + 0 + 0)) *
                     Rtrigo_def.tanh (0 * 1 + 0 + 0 + (0 * 0 + 0 + 0)))) +
              0]];
           [[sigmoid_fn (0 * 1 + 0 + 0 + (0 * 0 + 0 + 0)) * 10 +
             sigmoid_fn (0 * 1 + 0 + 0 + (0 * 0 + 0 + 0)) *
             Rtrigo_def.tanh (0 * 1 + 0 + 0 + (0 * 0 + 0 + 0))]]]));
      [reflexivity|].
    rewrite half_of_ten. repeat f_equal; lra.
  - intros W. inversion W as [|? ? Hrow _]; subst.
    inversion Hrow as [|? ? Hv _]; subst. lra.
  - transitivity
      (inr (A := exn)
         ([[clip1 (- (1)) 1
              (0 * (sigmoid_fn (0 * 1 + 0 + 0 + (0 * 0 + 0 + 0)) *
                    Rtrigo_def.tanh
                      (clip1 (- (3)) 3
                         (sigmoid_fn (0 * 1 + 0 + 0 + (0 * 0 + 0 + 0)) * 10 +
                          sigmoid_fn (0 * 1 + 0 + 0 + (0 * 0 + 0 + 0)) *
                          Rtrigo_def.tanh
                            (0 * 1 + 0 + 0 + (0 * 0 + 0 + 0))))) + 0)]],
          [[[clip1 (- (1)) 1
               (0 * (sigmoid_fn (0 * 1 + 0 + 0 + (0 * 0 + 0 + 0)) *
                     Rtrigo_def.tanh
                       (clip1 (- (3)) 3
                          (sigmoid_fn (0 * 1 + 0 + 0 + (0 * 0 + 0 + 0)) * 10 +
                           sigmoid_fn (0 * 1 + 0 + 0 + (0 * 0 + 0 + 0)) *
                           Rtrigo_def.tanh
                             (0 * 1 + 0 + 0 + (0 * 0 + 0 + 0))))) + 0)]];
           [[clip1 (- (3)) 3
               (sigmoid_fn (0 * 1 + 0 + 0 + (0 * 0 + 0 + 0)) * 10 +
                sigmoid_fn (0 * 1 + 0 + 0 + (0 * 0 + 0 + 0)) *
                Rtrigo_def.tanh (0 * 1 + 0 + 0 + (0 * 0 + 0 + 0)))]]]));
      [reflexivity|].
    rewrite half_of_ten, (@clip1_above 3 5) by lra.
    replace (0 * (sigmoid_fn (0 * 1 + 0 + 0 + (0 * 0 + 0 + 0)) *
                  Rtrigo_def.tanh 3) + 0) with 0 by lra.
    rewrite (@clip1_inactive_0 1) by lra. reflexivity.
Qed.

(* ------------------------------------------------------------------ *)
(** ** C2: the unclipped cell and the reference equations *)
(* ------------------------------------------------------------------ *)

(** C2: with [cell_clip] and [projection_clip] both [None], one call of
    [hybrid_forward] on a batch returns, for every example, exactly the
    values of the projected-LSTM equations; the emitted output is [r_t] and
    the new state is the list [[r_t; c_t]]. *)
Theorem hybrid_forward_unclipped_reference H P I B self F p xs rs cs :
  _cell_clip self = None ->
  _projection_clip self = None ->
  _hidden_size self = Z.of_nat H ->
  _projection_size self = Some (Z.of_nat P) ->
  params_shaped H P I p ->
  rect B I xs -> rect B P rs -> rect B H cs ->
  hybrid_forward self F xs [rs; cs]
    (Reference.i2h_weight p) (Reference.h2h_weight p) (Reference.W_hr p)
    (Reference.i2h_bias p) (Reference.h2h_bias p)
  = inr (Reference.r_t p xs rs cs,
         [Reference.r_t p xs rs cs; Reference.c_t p xs rs cs]).
Proof.
  intros Hcc Hpc Hh Hpr Hps Hx Hr Hcs.
  destruct (hybrid_forward_eval self F Hh Hpr Hps Hx Hr Hcs) as (E & _).
  rewrite Hcc, Hpc in E. rewrite E. clear E.
  pose proof (batch_c_rows H (Reference.i2h_weight p) (Reference.i2h_bias p)
                (Reference.h2h_weight p) (Reference.h2h_bias p) xs rs cs) as Ec.
  pose proof (batch_r_rows H (Reference.i2h_weight p) (Reference.i2h_bias p)
                (Reference.h2h_weight p) (Reference.h2h_bias p)
                (Reference.W_hr p) xs rs cs) as Er.
  cbv zeta in Ec, Er. rewrite Ec, Er.
  assert (Ec' : Reference.zip3With
                  (fun x r c => row_c H
                     (row_gates (Reference.i2h_weight p) (Reference.i2h_bias p)
                        (Reference.h2h_weight p) (Reference.h2h_bias p) x r) c)
                  xs rs cs = Reference.c_t p xs rs cs).
  { apply zip3With_ext. intros x r c.
    pose proof (row_step_reference x r c Hps) as S. cbv zeta in S.
    now rewrite <- S. }
  assert (Er' : Reference.zip3With
                  (fun x r c => row_r H (Reference.W_hr p)
                     (row_gates (Reference.i2h_weight p) (Reference.i2h_bias p)
                        (Reference.h2h_weight p) (Reference.h2h_bias p) x r) c)
                  xs rs cs = Reference.r_t p xs rs cs).
  { apply zip3With_ext. intros x r c.
    pose proof (row_step_reference x r c Hps) as S. cbv zeta in S.
    now rewrite <- S. }
  now rewrite Ec', Er'.
Qed.

Lemma hybrid_forward_unclipped_reference_witness :
  hybrid_forward (unit_cell None None) sym [[1]] [[[0]]; [[2]]]
    (Reference.i2h_weight zero_params) (Reference.h2h_weight zero_params)
    (Reference.W_hr zero_params)
    (Reference.i2h_bias zero_params) (Reference.h2h_bias zero_params)
  = inr (Reference.r_t zero_params [[1]] [[0]] [[2]],
         [Reference.r_t zero_params [[1]] [[0]] [[2]];
          Reference.c_t zero_params [[1]] [[0]] [[2]]]).
Proof.
  apply (@hybrid_forward_unclipped_reference 1 1 1 1 (unit_cell None None)
           sym zero_params [[1]] [[0]] [[2]]);
    try reflexivity; try apply zero_params_shaped;
    (split; [reflexivity | repeat constructor]).
Defined.

(* ------------------------------------------------------------------ *)
(** ** C10: an unrecognised mode *)
(* ------------------------------------------------------------------ *)

Lemma assign_cell_unknown mode hidden_size input_size proj_size
    cell_clip proj_clip cell s :
  ~ In mode recognized_modes ->
  assign_cell mode hidden_size input_size proj_size cell_clip proj_clip cell s
  = (inr cell, s).
Proof.
  intros Hm. unfold assign_cell, recognized_modes in *. simpl in Hm.
  repeat match goal with
  | |- context [String.eqb mode ?m] =>
      destruct (String.eqb_spec mode m) as [->|_]; [exfalso; tauto|]
  end.
  reflexivity.
Qed.

Lemma bindM_inr {A B} (m : M A) (k : A -> M B) s a s' :
  m s = (inr a, s') -> bindM m k s = k a s'.
Proof. intros E. unfold bindM. now rewrite E. Qed.

Lemma bindM_inl {A B} (m : M A) (k : A -> M B) s e s' :
  m s = (inl e, s') -> bindM m k s = (inl e, s').
Proof. intros E. unfold bindM. now rewrite E. Qed.

Lemma rnn_cell_loop_unknown n mode hidden_size input_size dropout
    skip_connection proj_size cell_clip proj_clip acc s :
  ~ In mode recognized_modes ->
  rnn_cell_loop (S n) mode hidden_size input_size dropout skip_connection
    proj_size cell_clip proj_clip None acc s
  = (inl UnboundLocalError, s).
Proof.
  intros Hm. cbn [rnn_cell_loop].
  erewrite bindM_inr by (apply assign_cell_unknown; assumption).
  destruct skip_connection; reflexivity.
Qed.

(** C10: for a mode outside the five recognised strings and at least one
    layer, [_get_rnn_cell] raises [UnboundLocalError] when the first
    iteration reads [cell]; it returns no chain and has created no
    parameter. *)
Theorem get_rnn_cell_unknown_mode_raises mode num_layers input_size
    hidden_size dropout skip_connection proj_size cell_clip proj_clip s :
  ~ In mode recognized_modes ->
  (1 <= num_layers)%Z ->
  fst (_get_rnn_cell mode num_layers input_size hidden_size dropout
         skip_connection proj_size cell_clip proj_clip s)
  = inl UnboundLocalError
  /\ parameters (snd (_get_rnn_cell mode num_layers input_size hidden_size
                        dropout skip_connection proj_size cell_clip proj_clip s))
     = parameters s.
Proof.
  intros Hm Hn.
  destruct (Z.to_nat num_layers) as [|n] eqn:En; [lia|].
  unfold _get_rnn_cell. rewrite En.
  erewrite bindM_inr by (cbn [Block_init]; reflexivity).
  erewrite bindM_inl by (apply rnn_cell_loop_unknown; assumption).
  split; reflexivity.
Qed.

Lemma get_rnn_cell_unknown_mode_raises_witness :
  fst (_get_rnn_cell "transformer" 2 (Some 4%Z) 4 0 false None None None
         empty_store)
  = inl UnboundLocalError
  /\ parameters (snd (_get_rnn_cell "transformer" 2 (Some 4%Z) 4 0 false
                        None None None empty_store))
     = parameters empty_store.
Proof.
  apply get_rnn_cell_unknown_mode_raises.
  - unfold recognized_modes. simpl.
    intros [H|[H|[H|[H|[H|[]]]]]]; discriminate H.
  - lia.
Defined.

(* ------------------------------------------------------------------ *)
(** ** C3: the two directions of the encoder *)
(* ------------------------------------------------------------------ *)

Section EncoderFacts.

Variables X S Stacked : Type.
Variable call : SequentialRNNCell -> X -> S -> res (X * S).
Variable cell_begin_state : SequentialRNNCell -> Z -> S.
Variable batch_size_of : list X -> Z.
Variable stack : list X -> res Stacked.

Lemma layers_loop_forward_only self js fwd b1 b2 n st1 st2 r1 r2 :
  outputs_forward st1 = outputs_forward st2 ->
  states_forward st1 = states_forward st2 ->
  layers_loop call self js fwd b1 n st1 = inr r1 ->
  layers_loop call self js fwd b2 n st2 = inr r2 ->
  outputs_forward r1 = outputs_forward r2 /\
  states_forward r1 = states_forward r2.
Proof.
  revert st1 st2. induction js as [|j js IH]; intros st1 st2 Ho Hs E1 E2.
  - inversion E1; inversion E2; subst. auto.
  - cbn [layers_loop] in E1, E2. rewrite Ho, Hs in E1.
    bind_inv E1. bind_inv E1. bind_inv E2. bind_inv E2. same_result.
    eapply IH; [| | exact E1 | exact E2]; reflexivity.
Qed.

Lemma layers_loop_backward_only self js f1 f2 bwd n st1 st2 r1 r2 :
  outputs_backward st1 = outputs_backward st2 ->
  states_backward st1 = states_backward st2 ->
  layers_loop call self js f1 bwd n st1 = inr r1 ->
  layers_loop call self js f2 bwd n st2 = inr r2 ->
  outputs_backward r1 = outputs_backward r2 /\
  states_backward r1 = states_backward r2.
Proof.
  revert st1 st2. induction js as [|j js IH]; intros st1 st2 Ho Hs E1 E2.
  - inversion E1; inversion E2; subst. auto.
  - cbn [layers_loop] in E1, E2. rewrite Ho, Hs in E1.
    bind_inv E1. bind_inv E1. bind_inv E2. bind_inv E2. same_result.
    eapply IH; [| | exact E1 | exact E2]; reflexivity.
Qed.

Lemma stack_loop_forward_only js outs ob1 ob2 r1 r2 :
  stack_loop stack js outs ob1 = inr r1 ->
  stack_loop stack js outs ob2 = inr r2 ->
  fst r1 = fst r2.
Proof.
  revert r1 r2. induction js as [|j js IH]; intros r1 r2 E1 E2.
  - inversion E1; inversion E2; subst. reflexivity.
  - cbn [stack_loop] in E1, E2.
    repeat bind_inv E1. repeat bind_inv E2.
    inversion E1; inversion E2; subst. cbn [fst].
    same_result. f_equal. eapply IH; eauto.
Qed.

Lemma stack_loop_backward_only js of1 of2 outs r1 r2 :
  stack_loop stack js of1 outs = inr r1 ->
  stack_loop stack js of2 outs = inr r2 ->
  snd r1 = snd r2.
Proof.
  revert r1 r2. induction js as [|j js IH]; intros r1 r2 E1 E2.
  - inversion E1; inversion E2; subst. reflexivity.
  - cbn [stack_loop] in E1, E2.
    repeat bind_inv E1. repeat bind_inv E2.
    inversion E1; inversion E2; subst. cbn [snd].
    same_result. f_equal. eapply IH; eauto.
Qed.

(** C3 (amended): in word mode, the forward-direction outputs of every layer
    returned by [forward] depend only on the forward input stream and the
    forward initial states: two calls that differ in the backward stream
    and backward states return the same forward outputs.  The
    backward-direction outputs depend only on the backward input stream, the
    backward initial states and the shape of the forward stream: its length
    is [seq_len], and when no states are given its batch size sizes the
    initial states. *)
Theorem forward_directions_independent nl wf ep fls bls :
  let self := {| num_layers := nl; char_embedding := false; weight_file := wf;
                 elmo_params := ep;
                 forward_layer_ := fls; backward_layer_ := bls |} in
  (forall fwd b1 b2 st1 st2 r1 r2,
      option_map fst st1 = option_map fst st2 ->
      forward call cell_begin_state batch_size_of stack self
        (WordInputs fwd b1) st1 = inr r1 ->
      forward call cell_begin_state batch_size_of stack self
        (WordInputs fwd b2) st2 = inr r2 ->
      fst (fst r1) = fst (fst r2))
  /\
  (forall f1 f2 bwd st1 st2 r1 r2,
      length f1 = length f2 ->
      (st1 = None -> batch_size_of f1 = batch_size_of f2) ->
      option_map snd st1 = option_map snd st2 ->
      forward call cell_begin_state batch_size_of stack self
        (WordInputs f1 bwd) st1 = inr r1 ->
      forward call cell_begin_state batch_size_of stack self
        (WordInputs f2 bwd) st2 = inr r2 ->
      snd (fst r1) = snd (fst r2)).
Proof.
  intros self. split.
  - intros fwd b1 b2 st1 st2 r1 r2 Hst E1 E2.
    unfold forward in E1, E2.
    cbn [forward_stream backward_stream char_embedding self] in E1, E2.
    bind_inv E1. bind_inv E1. bind_inv E1.
    bind_inv E2. bind_inv E2. bind_inv E2.
    inversion E1; inversion E2; subst r1 r2. cbn [fst].
    assert (Hs : fst a = fst a2).
    { destruct st1 as [p1|], st2 as [p2|]; try discriminate.
      - inversion Ha; inversion Ha2; subst. now inversion Hst.
      - same_result. reflexivity. }
    assert (Ho : outputs_forward a0 = outputs_forward a3).
    { eapply proj1, layers_loop_forward_only;
        [| | exact Ha0 | exact Ha3]; [reflexivity | exact Hs]. }
    rewrite Ho in Ha1. eapply stack_loop_forward_only; eauto.
  - intros f1 f2 bwd st1 st2 r1 r2 Hlen Hb Hst E1 E2.
    unfold forward in E1, E2.
    cbn [forward_stream backward_stream char_embedding self] in E1, E2.
    rewrite Hlen in E1.
    bind_inv E1. bind_inv E1. bind_inv E1.
    bind_inv E2. bind_inv E2. bind_inv E2.
    inversion E1; inversion E2; subst r1 r2. cbn [fst snd].
    assert (Hs : snd a = snd a2).
    { destruct st1 as [p1|], st2 as [p2|]; try discriminate.
      - inversion Ha; inversion Ha2; subst. now inversion Hst.
      - rewrite Hb in Ha by reflexivity. same_result. reflexivity. }
    assert (Ho : outputs_backward a0 = outputs_backward a3).
    { eapply proj1, layers_loop_backward_only;
        [| | exact Ha0 | exact Ha3]; [reflexivity | exact Hs]. }
    rewrite Ho in Ha1. eapply stack_loop_backward_only; eauto.
Qed.

End EncoderFacts.

(** C3, as stated, fails in the "vice versa" half: two calls with the same
    backward stream and (default) states whose forward streams are both
    zero but of lengths one and two return different backward outputs,
    because [seq_len] is read off the forward stream. *)
Lemma backward_outputs_depend_on_forward_length :
  exists r1 r2,
    toy_forward [0%Z] [1%Z; 2%Z] None = inr r1 /\
    toy_forward [0%Z; 0%Z] [1%Z; 2%Z] None = inr r2 /\
    snd (fst r1) <> snd (fst r2).
Proof.
  exists (([[0%Z]], [[1%Z]]), ([0%Z], [1%Z])).
  exists (([[0%Z; 0%Z]], [[3%Z; 2%Z]]), ([0%Z], [3%Z])).
  repeat split; try reflexivity. discriminate.
Qed.

Lemma forward_directions_independent_witness :
  fst (fst (([[5%Z; 11%Z]], [[3%Z; 2%Z]]), ([11%Z], [3%Z])))
  = fst (fst (([[5%Z; 11%Z]], [[24%Z; 17%Z]]), ([11%Z], [24%Z])))
  /\
  snd (fst (([[5%Z; 11%Z]], [[3%Z; 2%Z]]), ([11%Z], [3%Z])))
  = snd (fst (([[0%Z; 0%Z]], [[3%Z; 2%Z]]), ([0%Z], [3%Z]))).
Proof.
  pose proof (@forward_directions_independent Z Z (list Z) toy_call
                (fun _ _ => 0%Z) (fun _ => 1%Z) (fun xs => ret xs)
                1%Z None 0%nat [toy_layer] [toy_layer]) as [HA HB].
  split.
  - apply (HA [5%Z; 6%Z] [1%Z; 2%Z] [7%Z; 7%Z]
             (Some ([0%Z], [0%Z])) (Some ([0%Z], [10%Z])));
      reflexivity.
  - apply (HB [5%Z; 6%Z] [0%Z; 0%Z] [1%Z; 2%Z] None None); reflexivity.
Defined.

(* ------------------------------------------------------------------ *)
(** ** Constructors that cannot fail *)
(* ------------------------------------------------------------------ *)

Local Open Scope nat_scope.
Unset Implicit Arguments.

Lemma frame_refl n s : frame n s s.
Proof. split; auto. Qed.

Lemma frame_trans n s1 s2 s3 : frame n s1 s2 -> frame n s2 s3 -> frame n s1 s3.
Proof. intros [L1 F1] [L2 F2]. split; [lia | congruence]. Qed.

Lemma succeeds_ret {A} n (a : A) (Q : A -> Prop) : Q a -> succeeds n (retM a) Q.
Proof. intros HQ s _. exists a, s. auto using frame_refl. Qed.

Lemma succeeds_bind {A B} n (m : M A) (k : A -> M B) (P : A -> Prop)
    (Q : B -> Prop) :
  succeeds n m P -> (forall a, P a -> succeeds n (k a) Q) ->
  succeeds n (bindM m k) Q.
Proof.
  intros Hm Hk s Hs.
  destruct (Hm s Hs) as (a & s1 & E1 & Pa & F1).
  destruct (Hk a Pa s1) as (b & s2 & E2 & Qb & F2).
  { destruct F1. lia. }
  exists b, s2. erewrite bindM_inr by eassumption.
  eauto using frame_trans.
Qed.

Lemma succeeds_weaken {A} n (m : M A) (P Q : A -> Prop) :
  succeeds n m P -> (forall a, P a -> Q a) -> succeeds n m Q.
Proof.
  intros Hm HPQ s Hs. destruct (Hm s Hs) as (a & s' & E & Pa & F).
  exists a, s'. auto.
Qed.

Lemma set_nth_length {A} i (a : A) xs : length (set_nth i a xs) = length xs.
Proof.
  revert i. induction xs as [|x xs IH]; intros [|i]; simpl; auto.
Qed.

Lemma firstn_set_nth {A} n i (a : A) xs :
  n <= i -> firstn n (set_nth i a xs) = firstn n xs.
Proof.
  revert n i. induction xs as [|x xs IH]; intros [|n] [|i] H; simpl; auto;
    try lia.
  f_equal. apply IH. lia.
Qed.

Lemma Block_init_None_succeeds n :
  succeeds n (Block_init None) (fun d => n <= d).
Proof.
  intros s Hs. eexists _, _. split; [reflexivity|]. split; [exact Hs|].
  split; cbn [dicts].
  - rewrite length_app. lia.
  - rewrite firstn_app. replace (n - length (dicts s)) with 0 by lia.
    simpl. apply app_nil_r.
Qed.

Lemma params_get_frame n d name s :
  n <= d -> d < length (dicts s) ->
  exists id s', params_get d name s = (inr id, s') /\ frame n s s'.
Proof.
  intros Hn Hd. unfold params_get.
  destruct (nth_error (dicts s) d) as [pd|] eqn:E.
  2:{ apply nth_error_None in E. lia. }
  assert (Fr : forall x ps,
             frame n s {| trace := trace s; dicts := set_nth d x (dicts s);
                          parameters := ps; next_prefix := next_prefix s |}).
  { intros x ps. split; cbn [dicts].
    - rewrite set_nth_length. lia.
    - now apply firstn_set_nth. }
  destruct (lookup_name _ (pd_params pd)); [eauto using frame_refl|].
  destruct (match pd_shared pd with Some _ => _ | None => _ end); eauto.
Qed.

Lemma recurrent_params_succeeds n names :
  succeeds n (recurrent_params names) (fun _ => True).
Proof.
  intros s Hs. unfold recurrent_params.
  destruct (Block_init_None_succeeds n s Hs) as (d & s1 & E1 & Hd & F1).
  erewrite bindM_inr by exact E1.
  assert (Hlen : d < length (dicts s1)).
  { cbn in E1. inversion E1; subst. cbn [dicts].
    rewrite length_app. simpl. lia. }
  clear E1. revert s1 F1 Hlen.
  induction names as [|nm names IH]; intros s1 F1 Hlen.
  - exists d, s1. cbn. auto.
  - destruct (params_get_frame n d nm s1 Hd Hlen) as (id & s2 & E2 & F2).
    destruct (IH s2) as (a & s3 & E3 & _ & F3).
    { eauto using frame_trans. }
    { destruct F2. lia. }
    exists a, s3. split; [|auto].
    rewrite <- E3. unfold bindM at 1 3. cbn [bindM].
    unfold bindM at 1. rewrite E2. reflexivity.
Qed.

Lemma succeeds_ret_True {A} n (a : A) : succeeds n (retM a) (fun _ => True).
Proof. now apply succeeds_ret. Qed.

Lemma succeeds_ret_Some {A} n (a : A) :
  succeeds n (retM (Some a)) (fun c => c <> None).
Proof. apply succeeds_ret. discriminate. Qed.

(** [m ;; k] where nothing is known, or needed, about the value of [m]. *)
Lemma succeeds_seq {A B} n (m : M A) (k : A -> M B) (Q : B -> Prop) :
  succeeds n m (fun _ => True) -> (forall a, succeeds n (k a) Q) ->
  succeeds n (bindM m k) Q.
Proof. intros Hm Hk. eapply succeeds_bind; [exact Hm | auto]. Qed.

Lemma new_ResidualCell_succeeds n base :
  succeeds n (new_ResidualCell base) (fun _ => True).
Proof.
  unfold new_ResidualCell. apply succeeds_seq.
  - eapply succeeds_weaken; [apply Block_init_None_succeeds | auto].
  - intros. apply succeeds_ret_True.
Qed.

Lemma new_DropoutCell_succeeds n rate :
  succeeds n (new_DropoutCell rate) (fun _ => True).
Proof.
  unfold new_DropoutCell. apply succeeds_seq.
  - eapply succeeds_weaken; [apply Block_init_None_succeeds | auto].
  - intros. apply succeeds_ret_True.
Qed.

Lemma assign_cell_recognized n mode hidden_size input_size proj_size
    cell_clip proj_clip cell :
  In mode recognized_modes ->
  succeeds n (assign_cell mode hidden_size input_size proj_size
                cell_clip proj_clip cell)
    (fun c => c <> None).
Proof.
  intros Hm. unfold recognized_modes in Hm. simpl in Hm.
  assert (Hnew : forall names (f : nat -> Cell),
             succeeds n (bindM (bindM (recurrent_params names)
                                  (fun d => retM (f d)))
                           (fun c => retM (Some c)))
               (fun c => c <> None)).
  { intros names f. apply succeeds_seq.
    - apply succeeds_seq; [apply recurrent_params_succeeds|].
      intros. apply succeeds_ret_True.
    - intros c. apply succeeds_ret_Some. }
  unfold assign_cell.
  destruct Hm as [<-|[<-|[<-|[<-|[<-|[]]]]]]; cbn [String.eqb]; simpl;
    apply Hnew.
Qed.

Lemma rnn_cell_loop_succeeds n k mode hidden_size input_size dropout
    skip_connection proj_size cell_clip proj_clip cell acc :
  In mode recognized_modes ->
  succeeds n (rnn_cell_loop k mode hidden_size input_size dropout
                skip_connection proj_size cell_clip proj_clip cell acc)
    (fun _ => True).
Proof.
  intros Hm. revert cell acc.
  induction k as [|k IH]; intros cell acc; cbn [rnn_cell_loop].
  - apply succeeds_ret_True.
  - eapply succeeds_bind; [now apply assign_cell_recognized|].
    intros [c|] Hc; [clear Hc | congruence].
    eapply succeeds_bind with (P := fun c' => c' <> None).
    { destruct skip_connection.
      - cbn [load liftM]. apply succeeds_seq.
        + apply (succeeds_ret_True n c).
        + intros. apply succeeds_seq; [apply new_ResidualCell_succeeds|].
          intros. apply succeeds_ret_Some.
      - apply succeeds_ret_Some. }
    intros [c'|] Hc'; [clear Hc' | congruence].
    apply succeeds_seq.
    { cbn [load liftM]. apply (succeeds_ret_True n c'). }
    intros c''. apply succeeds_seq.
    { destruct (Req_dec_T dropout 0).
      - apply succeeds_ret_True.
      - apply succeeds_seq; [apply new_DropoutCell_succeeds|].
        intros. apply succeeds_ret_True. }
    intros. apply IH.
Qed.

Lemma get_rnn_cell_succeeds n mode num_layers input_size hidden_size dropout
    skip_connection proj_size cell_clip proj_clip :
  In mode recognized_modes ->
  succeeds n (_get_rnn_cell mode num_layers input_size hidden_size dropout
                skip_connection proj_size cell_clip proj_clip)
    (fun _ => True).
Proof.
  intros Hm. unfold _get_rnn_cell. apply succeeds_seq.
  - eapply succeeds_weaken; [apply Block_init_None_succeeds | auto].
  - intros d. apply succeeds_seq; [now apply rnn_cell_loop_succeeds|].
    intros. apply succeeds_ret_True.
Qed.

Lemma ElmoLSTM_layers_succeeds n idxs mode num_layers hidden_size dropout
    skip_connection proj_size cell_clip proj_clip lstm_input_size fw bw :
  In mode recognized_modes \/ idxs = [] ->
  succeeds n (ElmoLSTM_layers idxs mode num_layers hidden_size dropout
                skip_connection proj_size cell_clip proj_clip
                lstm_input_size fw bw)
    (fun _ => True).
Proof.
  intros Hm. revert lstm_input_size fw bw.
  induction idxs as [|i idxs IH]; intros lstm_input_size fw bw;
    cbn [ElmoLSTM_layers].
  - apply succeeds_ret_True.
  - destruct Hm as [Hm|]; [|discriminate].
    apply succeeds_seq; [now apply get_rnn_cell_succeeds|].
    intros fl. apply succeeds_seq; [now apply get_rnn_cell_succeeds|].
    intros bl. apply IH. now left.
Qed.

Lemma ElmoLSTM_init_succeeds n mode num_layers input_size hidden_size dropout
    skip_connection char_embedding proj_size cell_clip proj_clip weight_file :
  In mode recognized_modes \/ (num_layers <= 0)%Z ->
  succeeds n (ElmoLSTM_init mode num_layers input_size hidden_size dropout
                skip_connection char_embedding proj_size cell_clip proj_clip
                weight_file)
    (fun _ => True).
Proof.
  intros Hm. unfold ElmoLSTM_init. apply succeeds_seq.
  - eapply succeeds_weaken; [apply Block_init_None_succeeds | auto].
  - intros d. apply succeeds_seq.
    + apply ElmoLSTM_layers_succeeds. destruct Hm as [Hm|Hn]; [now left|right].
      unfold range. now replace (Z.to_nat num_layers) with 0%nat by lia.
    + intros. apply succeeds_ret_True.
Qed.

(* ------------------------------------------------------------------ *)
(** ** C4: tied weights *)
(* ------------------------------------------------------------------ *)

Lemma nth_error_set_nth {A} i (a : A) xs :
  i < length xs -> nth_error (set_nth i a xs) i = Some a.
Proof.
  revert i. induction xs as [|x xs IH]; intros [|i] H; simpl in *;
    try lia; auto.
  apply IH. lia.
Qed.

Lemma nth_error_last {A} (xs : list A) a :
  nth_error (xs ++ [a]) (length xs) = Some a.
Proof. rewrite nth_error_app2, Nat.sub_diag; auto. Qed.

(** A dense layer built on a dictionary that holds a weight takes that very
    parameter as its own weight. *)
Lemma new_Dense_shares_weight units d pd w s :
  nth_error (dicts s) d = Some pd ->
  lookup_name (pd_prefix pd, "weight"%string) (pd_params pd) = Some w ->
  exists dd b s',
    new_Dense units (Some d) s = (inr (Dense dd w b units), s')
    /\ parameters s = firstn (length (parameters s)) (parameters s').
Proof.
  intros Hd Hw.
  assert (Hlt : d < length (dicts s)) by (apply nth_error_Some; congruence).
  unfold new_Dense.
  set (nd := {| pd_prefix := pd_prefix pd; pd_params := [];
                pd_shared := Some d |}).
  set (s1 := {| trace := trace s; dicts := dicts s ++ [nd];
                parameters := parameters s; next_prefix := next_prefix s |}).
  assert (E1 : Block_init (Some d) s = (inr (length (dicts s)), s1)).
  { unfold Block_init. rewrite Hd. reflexivity. }
  erewrite bindM_inr by exact E1.
  set (nd' := {| pd_prefix := pd_prefix pd;
                 pd_params := [((pd_prefix pd, "weight"%string), w)];
                 pd_shared := Some d |}).
  set (s2 := {| trace := trace s;
                dicts := set_nth (length (dicts s)) nd' (dicts s ++ [nd]);
                parameters := parameters s; next_prefix := next_prefix s |}).
  assert (E2 : params_get (length (dicts s)) "weight" s1 = (inr w, s2)).
  { unfold params_get. cbn [dicts s1]. rewrite nth_error_last.
    cbn [pd_params pd_prefix pd_shared nd lookup_name].
    rewrite nth_error_app1 by exact Hlt. rewrite Hd, Hw. reflexivity. }
  erewrite bindM_inr by exact E2.
  assert (E3 : exists b s3,
             params_get (length (dicts s)) "bias" s2 = (inr b, s3)
             /\ parameters s = firstn (length (parameters s)) (parameters s3)).
  { unfold params_get. cbn [dicts s2].
    rewrite nth_error_set_nth by (rewrite length_app; simpl; lia).
    cbn [pd_params pd_prefix pd_shared nd' lookup_name fst snd].
    rewrite Nat.eqb_refl. cbn [andb String.eqb Ascii.eqb Bool.eqb].
    cbn [parameters s2].
    destruct (match nth_error _ d with Some _ => _ | None => _ end);
      eexists _, _; (split; [reflexivity|]); cbn [parameters].
    - now rewrite firstn_all.
    - rewrite firstn_app, firstn_all, Nat.sub_diag. simpl.
      now rewrite app_nil_r. }
  destruct E3 as (b & s3 & E3 & Hp).
  erewrite bindM_inr by exact E3.
  exists (length (dicts s)), b, s3. split; [reflexivity | exact Hp].
Qed.

Lemma get_embedding_spec self s :
  exists hs s' d w pd rest,
    ElmoBiLM._get_embedding self s = (inr hs, s')
    /\ layers hs = Embedding d w (ElmoBiLM._vocab_size self)
                     (ElmoBiLM._embed_size self) :: rest
    /\ nth_error (dicts s') d = Some pd
    /\ lookup_name (pd_prefix pd, "weight"%string) (pd_params pd) = Some w.
Proof.
  unfold ElmoBiLM._get_embedding.
  erewrite bindM_inr by (cbn [Block_init]; reflexivity).
  unfold new_Embedding.
  set (s1 := {| trace := trace s; dicts := _; parameters := parameters s;
                next_prefix := S (next_prefix s) |}).
  erewrite bindM_inr.
  2:{ erewrite bindM_inr by (cbn [Block_init]; reflexivity).
      erewrite bindM_inr.
      2:{ unfold params_get. cbn [dicts]. rewrite nth_error_last.
          cbn [pd_params pd_prefix pd_shared lookup_name]. reflexivity. }
      reflexivity. }
  cbn [dicts s1 parameters next_prefix trace].
  set (pd := {| pd_prefix := S (next_prefix s);
                pd_params := [((S (next_prefix s), "weight"%string),
                               length (parameters s))];
                pd_shared := None |}).
  destruct (Req_dec_T (ElmoBiLM._dropout self) 0).
  - eexists _, _, _, _, pd, _. split; [reflexivity|].
    split; [reflexivity|]. split; [|cbn; now rewrite Nat.eqb_refl].
    cbn [dicts]. apply nth_error_set_nth. rewrite !length_app. simpl. lia.
  - unfold new_Dropout.
    erewrite bindM_inr.
    2:{ erewrite bindM_inr by (cbn [Block_init]; reflexivity). reflexivity. }
    eexists _, _, _, _, pd, _. split; [reflexivity|].
    split; [reflexivity|]. split; [|cbn; now rewrite Nat.eqb_refl].
    cbn [dicts]. rewrite nth_error_app1.
    + apply nth_error_set_nth. rewrite !length_app. simpl. lia.
    + rewrite set_nth_length, !length_app. simpl. lia.
Qed.

Lemma get_rnn_cell_unknown mode num_layers input_size hidden_size dropout
    skip_connection proj_size cell_clip proj_clip s :
  ~ In mode recognized_modes ->
  (1 <= num_layers)%Z ->
  exists s',
    _get_rnn_cell mode num_layers input_size hidden_size dropout
      skip_connection proj_size cell_clip proj_clip s
    = (inl UnboundLocalError, s').
Proof.
  intros Hm Hn.
  destruct (Z.to_nat num_layers) as [|n] eqn:En; [lia|].
  unfold _get_rnn_cell. rewrite En.
  erewrite bindM_inr by (cbn [Block_init]; reflexivity).
  erewrite bindM_inl by (apply rnn_cell_loop_unknown; assumption).
  eauto.
Qed.

Lemma ElmoLSTM_init_unknown mode num_layers input_size hidden_size dropout
    skip_connection char_embedding proj_size cell_clip proj_clip weight_file s :
  ~ In mode recognized_modes ->
  (1 <= num_layers)%Z ->
  exists s',
    ElmoLSTM_init mode num_layers input_size hidden_size dropout
      skip_connection char_embedding proj_size cell_clip proj_clip
      weight_file s
    = (inl UnboundLocalError, s').
Proof.
  intros Hm Hn. unfold ElmoLSTM_init, range.
  destruct (Z.to_nat num_layers) as [|n] eqn:En; [lia|].
  erewrite bindM_inr by (cbn [Block_init]; reflexivity).
  cbn [seq ElmoLSTM_layers].
  match goal with
  | |- exists _, bindM (bindM (_get_rnn_cell ?m ?n ?i ?h ?d ?sk ?p ?c ?pc) _) _
                   ?st = _ =>
      destruct (get_rnn_cell_unknown m n i h d sk p c pc st Hm) as [s' E];
        [lia|]
  end.
  erewrite bindM_inl.
  2:{ erewrite bindM_inl by exact E. reflexivity. }
  eauto.
Qed.

(** C4, as stated, fails in its second half: with tied weights and
    [embed_size = hidden_size = 4], a model whose [mode] is not one of the
    five recognised strings is not constructed; [_get_rnn_cell] raises
    [UnboundLocalError] while the encoder is built. *)
Lemma tied_construction_unknown_mode_fails :
  fst (ElmoBiLM.__init__ "bilstm" 10 4 4 1 0 true false false None None None
         empty_store)
  = inl UnboundLocalError.
Proof.
  unfold ElmoBiLM.__init__.
  erewrite bindM_inr by reflexivity.
  erewrite bindM_inr by (cbn [Block_init]; reflexivity).
  match goal with
  | |- context [bindM (ElmoBiLM._get_embedding ?self) _ ?st] =>
      destruct (get_embedding_spec self st) as (hs & s1 & d & w & pd & rest & E & _)
  end.
  erewrite bindM_inr by exact E.
  match goal with
  | |- context [bindM (ElmoBiLM._get_encoder ?self) _ ?st] =>
      destruct (ElmoLSTM_init_unknown "bilstm" 1 4 4 0 false false None None
                  None None st) as [s2 E2]
  end.
  - unfold recognized_modes. simpl.
    intros [H|[H|[H|[H|[H|[]]]]]]; discriminate H.
  - lia.
  - unfold ElmoBiLM._get_encoder. cbn [ElmoBiLM.set_embedding
      ElmoBiLM._mode ElmoBiLM._num_layers ElmoBiLM._embed_size
      ElmoBiLM._hidden_size ElmoBiLM._dropout ElmoBiLM._skip_connection
      ElmoBiLM._char_embedding ElmoBiLM._proj_size ElmoBiLM._cell_clip
      ElmoBiLM._proj_clip].
    erewrite bindM_inl by exact E2. reflexivity.
Qed.

(** C4 (amended): with [tie_weights=True], construction raises the
    assertion error when [embed_size <> hidden_size], leaving the state
    untouched (no dictionary, no parameter has been created); when
    [embed_size = hidden_size] and the encoder can be built (the mode is one
    of the five recognised strings, or there is no layer), construction
    succeeds and the weight of the output dense layer is the very parameter
    that is the weight of the input embedding layer. *)
Theorem ElmoBiLM_tie_weights mode vocab_size embed_size hidden_size num_layers
    dropout char_embedding skip_connection proj_size proj_clip cell_clip s :
  (embed_size <> hidden_size ->
   ElmoBiLM.__init__ mode vocab_size embed_size hidden_size num_layers
     dropout true char_embedding skip_connection proj_size proj_clip
     cell_clip s
   = (inl AssertionError, s))
  /\
  (embed_size = hidden_size ->
   In mode recognized_modes \/ (num_layers <= 0)%Z ->
   exists self s' w,
     ElmoBiLM.__init__ mode vocab_size embed_size hidden_size num_layers
       dropout true char_embedding skip_connection proj_size proj_clip
       cell_clip s
     = (inr self, s')
     /\ ElmoBiLM.embedding_weight self = Some w
     /\ ElmoBiLM.decoder_weight self = Some w).
Proof.
  split.
  - intros Hne. unfold ElmoBiLM.__init__.
    apply Z.eqb_neq in Hne. rewrite Hne. reflexivity.
  - intros -> Hm. unfold ElmoBiLM.__init__. rewrite Z.eqb_refl.
    erewrite bindM_inr by reflexivity.
    erewrite bindM_inr by (cbn [Block_init]; reflexivity).
    match goal with
    | |- context [bindM (ElmoBiLM._get_embedding ?self) _ ?st] =>
        destruct (get_embedding_spec self st)
          as (hs & s1 & d & w & pd & rest & E & Hl & Hd & Hw)
    end.
    erewrite bindM_inr by exact E.
    assert (Hlt : d < length (dicts s1)) by (apply nth_error_Some; congruence).
    match goal with
    | |- context [bindM (ElmoBiLM._get_encoder ?self) _ _] =>
        destruct (ElmoLSTM_init_succeeds (length (dicts s1))
                    (ElmoBiLM._mode self) (ElmoBiLM._num_layers self)
                    (ElmoBiLM._embed_size self) (ElmoBiLM._hidden_size self)
                    (ElmoBiLM._dropout self) (ElmoBiLM._skip_connection self)
                    (ElmoBiLM._char_embedding self) (ElmoBiLM._proj_size self)
                    (ElmoBiLM._cell_clip self) (ElmoBiLM._proj_clip self)
                    None Hm s1 (le_n _))
          as (enc & s2 & E2 & _ & Hlen & Hfirst)
    end.
    erewrite bindM_inr by exact E2.
    assert (Hd2 : nth_error (dicts s2) d = Some pd).
    { rewrite <- Hd.
      rewrite <- (firstn_all (dicts s1)), <- Hfirst, nth_error_firstn.
      apply Nat.ltb_lt in Hlt. now rewrite Hlt. }
    destruct (new_Dense_shares_weight vocab_size d pd w
                {| trace := trace s2;
                   dicts := dicts s2 ++ [{| pd_prefix := next_prefix s2;
                                            pd_params := [];
                                            pd_shared := None |}];
                   parameters := parameters s2;
                   next_prefix := S (next_prefix s2) |})
      as (dd & b & s3 & E3 & _).
    { cbn [dicts]. rewrite nth_error_app1 by lia. exact Hd2. }
    { exact Hw. }
    unfold ElmoBiLM._get_decoder.
    cbn [ElmoBiLM._tie_weights ElmoBiLM.set_encoder ElmoBiLM.set_embedding
         ElmoBiLM.embedding ElmoBiLM._vocab_size ElmoBiLM.attr liftM].
    erewrite bindM_inr.
    2:{ erewrite bindM_inr by (cbn [Block_init]; reflexivity).
        erewrite bindM_inr by reflexivity.
        rewrite Hl. cbn [getitem nth_error ret liftM].
        erewrite bindM_inr by reflexivity.
        cbn [layer_params].
        erewrite bindM_inr by exact E3. reflexivity. }
    eexists _, _, w. split; [reflexivity|].
    destruct hs as [hp hl]. cbn [layers] in Hl. subst hl.
    split; reflexivity.
Qed.

Lemma ElmoBiLM_tie_weights_witness :
  ElmoBiLM.__init__ "lstmp" 10 3 4 2 0 true false true (Some 2%Z) None None
    empty_store
  = (inl AssertionError, empty_store)
  /\
  exists self s' w,
    ElmoBiLM.__init__ "lstmp" 10 4 4 2 0 true false true (Some 2%Z) None None
      empty_store
    = (inr self, s')
    /\ ElmoBiLM.embedding_weight self = Some w
    /\ ElmoBiLM.decoder_weight self = Some w.
Proof.
  split.
  - apply (proj1 (ElmoBiLM_tie_weights "lstmp" 10 3 4 2 0%R false true
                    (Some 2%Z) None None empty_store)).
    discriminate.
  - apply (proj2 (ElmoBiLM_tie_weights "lstmp" 10 4 4 2 0%R false true
                    (Some 2%Z) None None empty_store)).
    + reflexivity.
    + left. unfold recognized_modes. simpl. tauto.
Defined.

(* ------------------------------------------------------------------ *)
(** ** C8: perplexity and overflow *)
(* ------------------------------------------------------------------ *)

Local Open Scope R_scope.

Lemma pow2_le_exp (n : nat) : 2 ^ n <= exp (INR n).
Proof.
  induction n as [|n IH].
  - simpl. rewrite exp_0. lra.
  - rewrite S_INR, exp_plus, <- tech_pow_Rmult.
    pose proof (exp_ineq1_le 1) as H1.
    pose proof (pow_lt 2 n ltac:(lra)) as Hp.
    pose proof (exp_pos (INR n)) as He.
    nra.
Qed.

Lemma exp_1024_overflows : DBL_MAX < exp 1024.
Proof.
  pose proof (pow2_le_exp 1024) as H.
  replace (INR 1024) with 1024 in H
    by (rewrite INR_IZR_INZ; reflexivity).
  apply Rlt_le_trans with (2 ^ 1024); [|exact H].
  unfold DBL_MAX.
  replace 1024%nat with (S 1023) by reflexivity.
  rewrite <- tech_pow_Rmult.
  pose proof (pow_lt 2 1023 ltac:(lra)) as Hp.
  pose proof (pow_lt 2 52 ltac:(lra)) as Hq.
  apply Rinv_0_lt_compat in Hq.
  nra.
Qed.

Lemma math_exp_1024 : math_exp (Fin 1024) = inl OverflowError.
Proof.
  unfold math_exp. destruct (Rlt_dec DBL_MAX (exp 1024)) as [_|H].
  - reflexivity.
  - exfalso. apply H, exp_1024_overflows.
Qed.

(** [get_ppl] itself never raises, returns [exp L] when [math.exp] does and
    positive infinity when it overflows. *)
Lemma get_ppl_total (L : R) :
  (exp L <= DBL_MAX -> get_ppl (Fin L) = Fin (exp L)) /\
  (DBL_MAX < exp L -> get_ppl (Fin L) = PInf).
Proof.
  unfold get_ppl, math_exp.
  destruct (Rlt_dec DBL_MAX (exp L)); split; intros; simpl; auto; lra.
Qed.

(** C8, the code at the failing input: with a loss of 1024, [get_ppl] would
    return positive infinity, but the progress line of the batch loop and
    the validation report of the epoch call [math.exp] directly and the
    [OverflowError] leaves [train]. *)
Theorem report_ppl_overflow_raises :
  get_ppl (Fin 1024) = PInf /\
  (forall interval factor v t st,
      run_epoch interval factor
        {| logged := [Fin 1024]; val_L := v; test_L := t |} st
      = inl OverflowError) /\
  (forall interval factor t st,
      run_epoch interval factor
        {| logged := []; val_L := Fin 1024; test_L := t |} st
      = inl OverflowError).
Proof.
  split; [|split].
  - unfold get_ppl. now rewrite math_exp_1024.
  - intros. unfold run_epoch. cbn [logged progress_lines].
    now rewrite math_exp_1024.
  - intros. unfold run_epoch, end_of_epoch. cbn [logged progress_lines val_L bind].
    now rewrite math_exp_1024.
Qed.

(* ------------------------------------------------------------------ *)
(** ** C5: the learning-rate schedule *)
(* ------------------------------------------------------------------ *)

(** C5, the code at the failing input: when the very first epoch does not
    improve on [best_val = inf] (its validation loss is NaN or infinite),
    the [else] branch increments [update_lr_epoch], which nothing has
    assigned, and [train] ends with [UnboundLocalError] instead of
    counting the epoch. *)
Theorem train_first_epoch_without_improvement_raises :
  forall lr interval factor t,
    train lr interval factor [{| logged := []; val_L := NaN; test_L := t |}]
    = inl UnboundLocalError
    /\
    train lr interval factor [{| logged := []; val_L := PInf; test_L := t |}]
    = inl UnboundLocalError.
Proof. intros. split; reflexivity. Qed.

(** An epoch that improves the validation loss binds the counter to zero
    and leaves the learning rate as it is. *)
Lemma improving_epoch_resets_counter interval factor e st p q :
  float_lt (val_L e) (best_val st) = true ->
  math_exp (val_L e) = inr p ->
  math_exp (test_L e) = inr q ->
  end_of_epoch interval factor e st
  = inr {| best_val := val_L e; update_lr_epoch := Some 0%Z;
           learning_rate := learning_rate st; saved := S (saved st) |}.
Proof.
  intros Hlt Hv Ht. unfold end_of_epoch. rewrite Hv. cbn [bind].
  rewrite Hlt, Ht. reflexivity.
Qed.

(** An epoch that does not improve, once the counter is bound. *)
Lemma stale_epoch_step interval factor e st c p :
  float_lt (val_L e) (best_val st) = false ->
  math_exp (val_L e) = inr p ->
  update_lr_epoch st = Some c ->
  (0 <= c < interval)%Z ->
  end_of_epoch interval factor e st
  = inr (if Z.eqb (c + 1) interval
         then {| best_val := best_val st; update_lr_epoch := Some 0%Z;
                 learning_rate := learning_rate st * factor;
                 saved := saved st |}
         else {| best_val := best_val st; update_lr_epoch := Some (c + 1)%Z;
                 learning_rate := learning_rate st; saved := saved st |}).
Proof.
  intros Hlt Hv Hc Hr. unfold end_of_epoch. rewrite Hv. cbn [bind].
  rewrite Hlt, Hc. cbn [load bind ret]. unfold py_mod.
  destruct (Z.eqb_spec interval 0) as [|_]; [lia|]. cbn [bind ret].
  destruct (Z.eqb_spec (c + 1) interval) as [E|E].
  - rewrite E, Z_mod_same_full. cbn [Z.eqb].
    destruct (Z.eqb_spec interval 0); [lia|]. reflexivity.
  - rewrite Z.mod_small by lia.
    destruct (Z.eqb_spec (c + 1) 0); [lia|]. reflexivity.
Qed.

(** Once the counter is bound: [interval - c] consecutive epochs without
    improvement, none of whose reports overflows, take the counter from [c]
    to the interval, where the rate is multiplied by the factor and the
    counter returns to zero. *)
Lemma lr_decay_after_interval interval factor :
  forall es st c,
    update_lr_epoch st = Some c ->
    (0 <= c < interval)%Z ->
    Z.of_nat (length es) = (interval - c)%Z ->
    Forall (fun e => float_lt (val_L e) (best_val st) = false
                     /\ logged e = []
                     /\ exists p, math_exp (val_L e) = inr p) es ->
    run_epochs interval factor es st
    = inr {| best_val := best_val st; update_lr_epoch := Some 0%Z;
             learning_rate := learning_rate st * factor; saved := saved st |}.
Proof.
  induction es as [|e es IH]; intros st c Hc Hr Hl Hall.
  - simpl in Hl. lia.
  - inversion Hall as [|? ? (Hlt & Hlog & p & Hp) Hrest]; subst.
    cbn [run_epochs]. unfold run_epoch. rewrite Hlog.
    cbn [progress_lines bind ret].
    rewrite (stale_epoch_step interval factor e st c p Hlt Hp Hc Hr).
    cbn [bind]. cbn [length] in Hl.
    destruct (Z.eqb_spec (c + 1) interval) as [E|E].
    + destruct es; [reflexivity | cbn [length] in Hl; lia].
    + rewrite (IH _ (c + 1)%Z); try reflexivity; try lia.
      exact Hrest.
Qed.

(* ------------------------------------------------------------------ *)
(** ** C9 and C7: what stops the scripts before the model *)
(* ------------------------------------------------------------------ *)

Lemma import_module_cases path name :
  import_module path name = inr tt \/ import_module path name = inl ImportError.
Proof. unfold import_module. destruct (existsb _ path); auto. Qed.

Lemma import_module_missing path name :
  ~ In name path -> import_module path name = inl ImportError.
Proof.
  intros H. unfold import_module.
  destruct (existsb (String.eqb name) path) eqn:E; [|reflexivity].
  apply existsb_exists in E. destruct E as (x & Hx & Heq).
  apply String.eqb_eq in Heq. subst. contradiction.
Qed.

Lemma imports_cases path names :
  imports path names = inr tt \/ imports path names = inl ImportError.
Proof.
  induction names as [|n names IH]; cbn [imports]; auto.
  destruct (import_module_cases path n) as [-> | ->]; cbn [bind]; auto.
Qed.

Lemma imports_missing path names name :
  In name names -> ~ In name path -> imports path names = inl ImportError.
Proof.
  intros Hin Hmiss. induction names as [|n names IH]; [contradiction|].
  cbn [imports].
  destruct (import_module_cases path n) as [E|E]; rewrite E; cbn [bind]; auto.
  destruct Hin as [->|Hin]; auto.
  rewrite import_module_missing in E by assumption. discriminate.
Qed.

(** C9: wherever no module named [LSTMPCellLSTMPCellWithClip] can be
    imported (the directory of the script holds [LSTMPCellWithClip]), every
    run of [word_language_model.py] ends with [ImportError] at load time:
    no argument is parsed, no data loaded, nothing built or trained. *)
Theorem word_language_model_import_fails path args vocab_size main s :
  ~ In "LSTMPCellLSTMPCellWithClip"%string path ->
  word_language_model path args vocab_size main s = (inl ImportError, s).
Proof.
  intros Hmiss. unfold word_language_model.
  erewrite bindM_inl; [reflexivity|].
  unfold liftM. f_equal.
  apply imports_missing with (name := "LSTMPCellLSTMPCellWithClip"%string);
    [simpl; tauto | exact Hmiss].
Qed.

Lemma word_language_model_import_fails_witness :
  word_language_model elmo_path default_args 33278
    (fun _ _ => retM tt) empty_store
  = (inl ImportError, empty_store).
Proof.
  apply word_language_model_import_fails.
  unfold elmo_path, elmo_directory. simpl.
  intros H. repeat (destruct H as [H|H]; [discriminate H|]). exact H.
Defined.

Lemma regularization_rejected w a :
  w = 0 -> a <> 0 -> regularization_allowed w a = false.
Proof.
  intros -> Ha. unfold regularization_allowed.
  destruct (Rlt_dec 0 0); [lra|].
  destruct (Req_dec_T 0 0); [|congruence].
  destruct (Req_dec_T a 0); [contradiction | reflexivity].
Qed.

Lemma context_size_nonzero gpus : context_size gpus <> 0%Z.
Proof. destruct gpus as [[|? ?]|]; simpl; lia. Qed.

Lemma word_language_model_config_fatal path args vocab_size main s :
  (batch_size args mod context_size (gpus args) <> 0)%Z
  \/ (weight_dropout args = 0 /\ alpha args <> 0) ->
  fails_before_model (word_language_model path args vocab_size main s) s.
Proof.
  intros Hbad. unfold word_language_model, fails_before_model.
  destruct (imports_cases path
              ["argparse"; "time"; "math"; "os"; "sys"; "mxnet"; "gluonnlp";
               "LSTMPCellLSTMPCellWithClip"]%string) as [E|E].
  2:{ erewrite bindM_inl by (unfold liftM; rewrite E; reflexivity).
      split; [eexists; reflexivity | left; reflexivity]. }
  erewrite bindM_inr by (unfold liftM; rewrite E; reflexivity).
  erewrite bindM_inr by reflexivity.
  unfold py_mod.
  destruct (Z.eqb_spec (context_size (gpus args)) 0) as [E0|_];
    [now apply context_size_nonzero in E0|].
  erewrite bindM_inr by reflexivity.
  destruct (Z.eqb_spec (batch_size args mod context_size (gpus args)) 0)
    as [Ediv|Ediv].
  - destruct Hbad as [Hb|[Hw Ha]]; [contradiction|].
    erewrite bindM_inr by reflexivity.
    rewrite (regularization_rejected _ _ Hw Ha).
    split; [eexists; reflexivity | right; reflexivity].
  - split; [eexists; reflexivity | right; reflexivity].
Qed.

(** [bi_language_model.py] stops before the model whatever its options:
    an import fails, the batch-size assertion fails, or reading
    [args.weight_dropout] raises [AttributeError]. *)
Lemma bi_language_model_always_fatal path args main s :
  fails_before_model (bi_language_model path args main s) s.
Proof.
  unfold bi_language_model, fails_before_model.
  destruct (imports_cases path
              ["argparse"; "time"; "math"; "os"; "sys"; "mxnet"; "gluonnlp"]%string)
    as [E|E].
  2:{ erewrite bindM_inl by (unfold liftM; rewrite E; reflexivity).
      split; [eexists; reflexivity | left; reflexivity]. }
  erewrite bindM_inr by (unfold liftM; rewrite E; reflexivity).
  erewrite bindM_inr by reflexivity.
  unfold py_mod.
  destruct (Z.eqb_spec (context_size (bi_gpus args)) 0) as [E0|_];
    [now apply context_size_nonzero in E0|].
  erewrite bindM_inr by reflexivity.
  destruct (Z.eqb (bi_batch_size args mod context_size (bi_gpus args)) 0).
  - erewrite bindM_inr by reflexivity.
    split; [eexists; reflexivity | right; reflexivity].
  - split; [eexists; reflexivity | right; reflexivity].
Qed.

(** C7: for every configuration in which the batch size is no multiple of
    the number of devices, or in which weight dropout is zero while alpha
    is not, the ELMo script ends in an exception having at most parsed its
    arguments: before any data is loaded, any model constructed, anything
    trained or evaluated.  So does [bi_language_model.py], which has no
    weight-dropout option and stops there under every configuration. *)
Theorem config_errors_fatal path args bi_args vocab_size main bi_main s :
  (batch_size args mod context_size (gpus args) <> 0)%Z
  \/ (weight_dropout args = 0 /\ alpha args <> 0) ->
  fails_before_model (word_language_model path args vocab_size main s) s
  /\ fails_before_model (bi_language_model path bi_args bi_main s) s.
Proof.
  intros Hbad. split.
  - now apply word_language_model_config_fatal.
  - apply bi_language_model_always_fatal.
Qed.

Lemma config_errors_fatal_witness :
  fails_before_model
    (word_language_model elmo_path three_gpu_args 33278
       (fun _ _ => retM tt) empty_store) empty_store
  /\ fails_before_model
       (bi_language_model elmo_path default_bi_args (fun _ => retM tt)
          empty_store) empty_store.
Proof.
  apply config_errors_fatal. left. vm_compute. discriminate.
Defined.

(** With every import found, the first failing assertion is what ends the
    ELMo script. *)
Lemma word_language_model_assertion path args vocab_size main s :
  imports path
    ["argparse"; "time"; "math"; "os"; "sys"; "mxnet"; "gluonnlp";
     "LSTMPCellLSTMPCellWithClip"]%string = inr tt ->
  (batch_size args mod context_size (gpus args) <> 0)%Z
  \/ (weight_dropout args = 0 /\ alpha args <> 0) ->
  word_language_model path args vocab_size main s
  = (inl AssertionError, log ParseArgs s).
Proof.
  intros E Hbad. unfold word_language_model.
  erewrite bindM_inr by (unfold liftM; rewrite E; reflexivity).
  erewrite bindM_inr by reflexivity.
  unfold py_mod.
  destruct (Z.eqb_spec (context_size (gpus args)) 0) as [E0|_];
    [now apply context_size_nonzero in E0|].
  erewrite bindM_inr by reflexivity.
  destruct (Z.eqb_spec (batch_size args mod context_size (gpus args)) 0)
    as [Ediv|Ediv]; [|reflexivity].
  destruct Hbad as [Hb|[Hw Ha]]; [contradiction|].
  erewrite bindM_inr by reflexivity.
  now rewrite (regularization_rejected _ _ Hw Ha).
Qed.

(* ------------------------------------------------------------------ *)
(** ** C6: what the backward logits are scored against *)
(* ------------------------------------------------------------------ *)

Lemma clamp_index_inside len i :
  (0 <= i <= len)%Z -> clamp_index len i = i.
Proof.
  intros H. unfold clamp_index.
  destruct (Z.ltb_spec i 0); lia.
Qed.


Section LossFacts.

Variables Logits Hidden : Type.
Variable ce : Logits -> Z -> R.
Variable model :
  Tokens * Tokens -> Hidden ->
  res ((list (list Logits) * list (list Logits)) * Hidden).
Variable detach : Hidden -> Hidden.


Lemma loss_inr pred label l :
  loss ce pred label = inr l -> l = zipWith ce pred label.
Proof.
  unfold loss. destruct (Nat.eqb _ _); [|discriminate].
  now inversion 1.
Qed.




End LossFacts.

(* ------------------------------------------------------------------ *)
(** ** C6: what the backward direction is run on *)
(* ------------------------------------------------------------------ *)

Section ModelFacts.

Variables X St Stacked Logits Mask : Type.
Variable call : SequentialRNNCell -> X -> St -> res (X * St).
Variable cell_begin_state : SequentialRNNCell -> Z -> St.
Variable batch_size_of : list X -> Z.
Variable stack : list X -> res Stacked.
Variable embedding_call : HybridSequential -> Tokens -> res (list X).
Variable decoder_call : HybridSequential -> Stacked -> res (list (list Logits)).
Variable Dropout : Mask -> Stacked -> R -> Stacked.
Variable shape1 : Tokens -> Z.
Variable ce : Logits -> Z -> R.
Variable detach : list St * list St -> list St * list St.






End ModelFacts.




(* ================================================================== *)
(** * Further properties of the code *)
(* ================================================================== *)

(* ------------------------------------------------------------------ *)
(** ** The schedule of [train] *)
(* ------------------------------------------------------------------ *)

Lemma end_of_epoch_keeps_schedule lr0 interval factor n e st st' :
  (0 < interval)%Z ->
  schedule_inv lr0 interval factor n st ->
  end_of_epoch interval factor e st = inr st' ->
  schedule_inv lr0 interval factor (S n) st'.
Proof.
  intros Hi (k & Hlr & Hc) E. unfold end_of_epoch in E.
  apply bind_inr in E. destruct E as (p & _ & E).
  destruct (float_lt (val_L e) (best_val st)).
  - apply bind_inr in E. destruct E as (q & _ & E).
    inversion E; subst st'; clear E.
    exists k. cbn [learning_rate update_lr_epoch]. split; [exact Hlr|].
    split; [lia|].
    destruct (update_lr_epoch st) as [c|]; [nia | destruct Hc; subst; lia].
  - destruct (update_lr_epoch st) as [c|]; [|discriminate E].
    cbn [load bind ret] in E. unfold py_mod in E.
    destruct (Z.eqb_spec interval 0); [lia|]. cbn [bind ret] in E.
    destruct Hc as [Hc Hn].
    destruct (Z.eqb_spec ((c + 1) mod interval) 0) as [Em|Em];
      destruct (Z.eqb_spec (c + 1) 0) as [E0|E0]; try lia;
      cbn [andb negb] in E; inversion E; subst st'; clear E.
    + assert (c + 1 = interval)%Z.
      { destruct (Z.eq_dec (c + 1) interval); auto.
        rewrite Z.mod_small in Em by lia. lia. }
      exists (S k). cbn [learning_rate update_lr_epoch]. split.
      * rewrite Hlr. simpl. ring.
      * split; [lia|]. nia.
    + assert (c + 1 <> interval)%Z.
      { intros Heq. rewrite Heq, Z_mod_same_full in Em. lia. }
      exists k. cbn [learning_rate update_lr_epoch]. split; [exact Hlr|].
      split; [lia|]. nia.
Qed.

Lemma run_epochs_keeps_schedule lr0 interval factor es :
  forall n st st',
    (0 < interval)%Z ->
    schedule_inv lr0 interval factor n st ->
    run_epochs interval factor es st = inr st' ->
    schedule_inv lr0 interval factor (n + length es) st'.
Proof.
  induction es as [|e es IH]; intros n st st' Hi Hinv E.
  - inversion E; subst. now rewrite Nat.add_0_r.
  - cbn [run_epochs] in E. apply bind_inr in E. destruct E as (st1 & E1 & E).
    unfold run_epoch in E1. apply bind_inr in E1. destruct E1 as (u & _ & E1).
    cbn [length]. rewrite Nat.add_succ_r.
    apply (IH (S n) st1 st' Hi); [|exact E].
    eapply end_of_epoch_keeps_schedule; eauto.
Qed.

(** Whenever [train] returns after at least one epoch, with a positive
    interval: the no-improvement counter is bound and lies in
    [[0, interval)], the learning rate is the initial rate times
    [factor ^ k] for some [k], and [k] decays have taken at least
    [k * interval] epochs. *)
Theorem train_schedule_invariant lr interval factor es st' :
  (0 < interval)%Z ->
  es <> [] ->
  train lr interval factor es = inr st' ->
  exists (k : nat) (c : Z),
    update_lr_epoch st' = Some c /\ (0 <= c < interval)%Z /\
    learning_rate st' = lr * factor ^ k /\
    (Z.of_nat k * interval + c <= Z.of_nat (length es))%Z.
Proof.
  intros Hi Hne E. unfold train in E.
  apply (run_epochs_keeps_schedule lr interval factor es 0) in E; auto.
  - destruct E as (k & Hlr & Hc). cbn [Nat.add] in Hc.
    destruct (update_lr_epoch st') as [c|].
    + exists k, c. tauto.
    + destruct Hc as [Hn _]. destruct es; [contradiction | discriminate Hn].
  - exists 0%nat. cbn. split; [ring | auto].
Qed.

Lemma train_schedule_invariant_witness :
  exists (k : nat) (c : Z),
    update_lr_epoch
      {| best_val := NInf; update_lr_epoch := Some 0%Z;
         learning_rate := 30 * (1 / 10); saved := 1 |} = Some c /\
    (0 <= c < 1)%Z /\
    learning_rate
      {| best_val := NInf; update_lr_epoch := Some 0%Z;
         learning_rate := 30 * (1 / 10); saved := 1 |}
    = 30 * (1 / 10) ^ k /\
    (Z.of_nat k * 1 + c
     <= Z.of_nat (length [{| logged := []; val_L := NInf; test_L := NaN |};
                          {| logged := [NaN]; val_L := NaN; test_L := NaN |}]))%Z.
Proof.
  apply (train_schedule_invariant 30 1 (1 / 10)
           [{| logged := []; val_L := NInf; test_L := NaN |};
            {| logged := [NaN]; val_L := NaN; test_L := NaN |}]).
  - lia.
  - discriminate.
  - reflexivity.
Defined.

(** Once the counter is bound to [c]: [interval - c] consecutive epochs
    that do not improve on the best validation loss, and whose reports do
    not overflow, end with the rate multiplied by the factor exactly once
    and the counter back at zero; the best loss and the checkpoint count
    are untouched. *)
Theorem lr_decays_after_stale_interval interval factor :
  forall es st c,
    update_lr_epoch st = Some c ->
    (0 <= c < interval)%Z ->
    Z.of_nat (length es) = (interval - c)%Z ->
    Forall (fun e => float_lt (val_L e) (best_val st) = false
                     /\ progress_lines (logged e) = inr tt
                     /\ exists p, math_exp (val_L e) = inr p) es ->
    run_epochs interval factor es st
    = inr {| best_val := best_val st; update_lr_epoch := Some 0%Z;
             learning_rate := learning_rate st * factor; saved := saved st |}.
Proof.
  induction es as [|e es IH]; intros st c Hc Hr Hl Hall.
  - simpl in Hl. lia.
  - inversion Hall as [|? ? (Hlt & Hlog & p & Hp) Hrest]; subst.
    cbn [run_epochs]. unfold run_epoch. rewrite Hlog. cbn [bind].
    rewrite (stale_epoch_step interval factor e st c p Hlt Hp Hc Hr).
    cbn [bind]. cbn [length] in Hl.
    destruct (Z.eqb_spec (c + 1) interval) as [E|E].
    + destruct es; [reflexivity | cbn [length] in Hl; lia].
    + rewrite (IH _ (c + 1)%Z); try reflexivity; try lia.
      exact Hrest.
Qed.

Lemma lr_decays_after_stale_interval_witness :
  run_epochs 2 (1 / 10)
    [{| logged := [NaN]; val_L := NaN; test_L := NaN |};
     {| logged := []; val_L := PInf; test_L := NaN |}]
    {| best_val := NInf; update_lr_epoch := Some 0%Z;
       learning_rate := 30; saved := 1 |}
  = inr {| best_val := NInf; update_lr_epoch := Some 0%Z;
           learning_rate := 30 * (1 / 10); saved := 1 |}.
Proof.
  apply (lr_decays_after_stale_interval 2 (1 / 10)
           [{| logged := [NaN]; val_L := NaN; test_L := NaN |};
            {| logged := []; val_L := PInf; test_L := NaN |}]
           {| best_val := NInf; update_lr_epoch := Some 0%Z;
              learning_rate := 30; saved := 1 |} 0%Z).
  - reflexivity.
  - lia.
  - reflexivity.
  - repeat constructor; eexists; reflexivity.
Defined.

(* ------------------------------------------------------------------ *)
(** ** [get_ppl] *)
(* ------------------------------------------------------------------ *)

Lemma exp_INR (n : nat) : exp (INR n) = exp 1 ^ n.
Proof.
  induction n as [|n IH].
  - simpl. apply exp_0.
  - rewrite S_INR, exp_plus, IH. simpl. ring.
Qed.

Lemma exp_le (x y : R) : x <= y -> exp x <= exp y.
Proof.
  intros [H| ->]; [left; now apply exp_increasing | right; reflexivity].
Qed.

Lemma exp_512_representable : exp 512 <= DBL_MAX.
Proof.
  replace 512 with (INR 512) by (rewrite INR_IZR_INZ; reflexivity).
  rewrite exp_INR.
  apply Rle_trans with (3 ^ 512).
  - apply pow_incr. split; [left; apply exp_pos | apply exp_le_3].
  - apply Rle_trans with (2 ^ 1023).
    + rewrite !pow_IZR. apply IZR_le. vm_compute. discriminate.
    + unfold DBL_MAX.
      pose proof (pow_lt 2 1023 ltac:(lra)) as Hp.
      assert (Hq : / 2 ^ 52 <= 1).
      { rewrite <- Rinv_1. apply Rinv_le_contravar; [lra|].
        apply pow_R1_Rle. lra. }
      nra.
Qed.

(** [get_ppl] never raises.  For a finite loss [L] it returns [exp L]
    whenever that is at most the largest double, and positive infinity
    otherwise; in particular every loss up to 512 gives [exp L] and every
    loss from 1024 on gives infinity. *)
Theorem get_ppl_guards_overflow (L : R) :
  (exp L <= DBL_MAX -> get_ppl (Fin L) = Fin (exp L)) /\
  (DBL_MAX < exp L -> get_ppl (Fin L) = PInf) /\
  (L <= 512 -> get_ppl (Fin L) = Fin (exp L)) /\
  (1024 <= L -> get_ppl (Fin L) = PInf).
Proof.
  destruct (get_ppl_total L) as [Hle Hgt].
  split; [exact Hle|]. split; [exact Hgt|]. split.
  - intros H. apply Hle.
    apply Rle_trans with (exp 512);
      [now apply exp_le | apply exp_512_representable].
  - intros H. apply Hgt.
    apply Rlt_le_trans with (exp 1024);
      [apply exp_1024_overflows | now apply exp_le].
Qed.

(* ------------------------------------------------------------------ *)
(** ** More on one call of the cell *)
(* ------------------------------------------------------------------ *)

Lemma getitem_inr_length {A} (xs : list A) i a :
  getitem xs i = inr a -> (i < length xs)%nat.
Proof.
  unfold getitem. destruct (nth_error xs i) eqn:E; [|discriminate].
  intros _. apply nth_error_Some. congruence.
Qed.

(** The cell reads [states[0]] and [states[1]]: a call whose [states] holds
    fewer than two arrays raises, whatever the other arguments. *)
Theorem hybrid_forward_needs_two_states self F inputs states
    i2h_weight h2h_weight h2r_weight i2h_bias h2h_bias :
  (length states < 2)%nat ->
  exists e,
    hybrid_forward self F inputs states i2h_weight h2h_weight h2r_weight
      i2h_bias h2h_bias = inl e.
Proof.
  intros Hlen.
  destruct (hybrid_forward self F inputs states i2h_weight h2h_weight
              h2r_weight i2h_bias h2h_bias) as [e|v] eqn:E; [eauto|].
  exfalso. unfold hybrid_forward in E.
  do 10 bind_inv E.
  match goal with
  | H : getitem states 1 = inr _ |- _ => apply getitem_inr_length in H; lia
  end.
Qed.

Lemma hybrid_forward_needs_two_states_witness :
  exists e,
    hybrid_forward (unit_cell None None) sym [[0]] [[[0]]]
      [[0]; [0]; [0]; [0]] [[0]; [0]; [0]; [0]] [[0]]
      [0; 0; 0; 0] [0; 0; 0; 0] = inl e.
Proof.
  apply hybrid_forward_needs_two_states. simpl. lia.
Defined.

Lemma clip1_inactive b v : - b <= v <= b -> clip1 (- b) b v = v.
Proof.
  intros H. unfold clip1.
  destruct (Rlt_dec b v); [lra|]. destruct (Rlt_dec v (- b)); [lra|].
  reflexivity.
Qed.

Lemma clip_inactive b a : within b a -> clip a (- b) b = a.
Proof.
  unfold within, clip. intros H.
  rewrite <- (map_id a) at 2. apply map_ext_in. intros row Hrow.
  rewrite Forall_forall in H. specialize (H row Hrow).
  rewrite <- (map_id row) at 2. apply map_ext_in. intros v Hv.
  rewrite Forall_forall in H. now apply clip1_inactive, H.
Qed.

(** Clipping that is not reached changes nothing: when the cell without
    bounds returns a cell state within [[-b_c, b_c]] and an output within
    [[-b_p, b_p]], the same cell with those bounds returns the same output
    and state. *)
Theorem hybrid_forward_clip_not_reached hidden_size projection_size
    input_size b_c b_p F inputs states
    i2h_weight h2h_weight h2r_weight i2h_bias h2h_bias r c :
  hybrid_forward
    {| _hidden_size := hidden_size; _projection_size := projection_size;
       _cell_clip := None; _projection_clip := None;
       _input_size := input_size |}
    F inputs states i2h_weight h2h_weight h2r_weight i2h_bias h2h_bias
  = inr (r, [r; c]) ->
  within b_c c -> within b_p r ->
  hybrid_forward
    {| _hidden_size := hidden_size; _projection_size := projection_size;
       _cell_clip := Some b_c; _projection_clip := Some b_p;
       _input_size := input_size |}
    F inputs states i2h_weight h2h_weight h2r_weight i2h_bias h2h_bias
  = inr (r, [r; c]).
Proof.
  intros E Hc Hr. unfold hybrid_forward in *.
  cbn [_hidden_size _projection_size _cell_clip _projection_clip] in *.
  destruct F; cbn [clip_out]; [|exact E].
  repeat bind_inv E. inversion E; subst; clear E.
  repeat first
    [ rewrite (clip_inactive _ _ Hc)
    | rewrite (clip_inactive _ _ Hr)
    | match goal with
      | H : ?e = inr ?a |- context [?e] => rewrite H; cbn [bind]
      end ].
  reflexivity.
Qed.

Lemma sigmoid_fn_bounds x : 0 < sigmoid_fn x < 1.
Proof.
  unfold sigmoid_fn. pose proof (exp_pos (- x)) as He.
  assert (Hd : 0 < 1 + exp (- x)) by lra.
  pose proof (Rinv_0_lt_compat _ Hd) as Hi.
  assert (Hm : (1 + exp (- x)) * / (1 + exp (- x)) = 1)
    by (apply Rinv_r; lra).
  unfold Rdiv. rewrite Rmult_1_l. nra.
Qed.

Lemma tanh_bounds x : -1 < Rtrigo_def.tanh x < 1.
Proof.
  unfold Rtrigo_def.tanh, sinh, cosh.
  pose proof (exp_pos x) as Ha. pose proof (exp_pos (- x)) as Hb.
  set (a := exp x) in *. set (b := exp (- x)) in *.
  assert (Hd : 0 < (a + b) / 2) by lra.
  pose proof (Rinv_0_lt_compat _ Hd) as Hi.
  assert (Hm : (a + b) / 2 * / ((a + b) / 2) = 1) by (apply Rinv_r; lra).
  unfold Rdiv at 1 4. nra.
Qed.










Lemma unit_cell_example cell_clip projection_clip F :
  cell_clip = None -> projection_clip = None ->
  hybrid_forward (unit_cell cell_clip projection_clip) F
    [[1]] [[[0]]; [[2]]]
    [[0]; [0]; [0]; [0]] [[0]; [0]; [0]; [0]] [[0]]
    [0; 0; 0; 0] [0; 0; 0; 0]
  = inr (example_r, [example_r; example_c]).
Proof. intros -> ->. reflexivity. Qed.

Lemma example_c_within : within 3 example_c.
Proof.
  unfold within, example_c. repeat constructor;
    pose proof (sigmoid_fn_bounds (0 * 1 + 0 + 0 + (0 * 0 + 0 + 0)));
    pose proof (tanh_bounds (0 * 1 + 0 + 0 + (0 * 0 + 0 + 0))); nra.
Qed.

Lemma example_r_within : within 1 example_r.
Proof. unfold within, example_r. repeat constructor; lra. Qed.

Lemma hybrid_forward_clip_not_reached_witness :
  hybrid_forward (unit_cell (Some 3) (Some 1)) nd
    [[1]] [[[0]]; [[2]]]
    [[0]; [0]; [0]; [0]] [[0]; [0]; [0]; [0]] [[0]]
    [0; 0; 0; 0] [0; 0; 0; 0]
  = inr (example_r, [example_r; example_c]).
Proof.
  apply (hybrid_forward_clip_not_reached 1 (Some 1%Z) (Some 1%Z) 3 1 nd).
  - now apply unit_cell_example.
  - apply example_c_within.
  - apply example_r_within.
Defined.


(** A call on well-shaped arguments returns a state of the shapes it was
    given (batch by projection size, batch by hidden size), so the
    returned state list is accepted by a next call on any input of the
    same shape. *)
Theorem hybrid_forward_keeps_state_shapes H P I B self F p xs xs' rs cs :
  _hidden_size self = Z.of_nat H ->
  _projection_size self = Some (Z.of_nat P) ->
  params_shaped H P I p ->
  rect B I xs -> rect B I xs' -> rect B P rs -> rect B H cs ->
  exists r c r' c',
    hybrid_forward self F xs [rs; cs]
      (Reference.i2h_weight p) (Reference.h2h_weight p) (Reference.W_hr p)
      (Reference.i2h_bias p) (Reference.h2h_bias p) = inr (r, [r; c])
    /\ rect B P r /\ rect B H c
    /\ hybrid_forward self F xs' [r; c]
         (Reference.i2h_weight p) (Reference.h2h_weight p) (Reference.W_hr p)
         (Reference.i2h_bias p) (Reference.h2h_bias p) = inr (r', [r'; c'])
    /\ rect B P r' /\ rect B H c'.
Proof.
  intros Hh Hp Hps Hx Hx' Hr Hc.
  destruct (hybrid_forward_eval self F Hh Hp Hps Hx Hr Hc)
    as (E1 & Hc1 & Hr1).
  destruct (hybrid_forward_eval self F Hh Hp Hps Hx' Hr1 Hc1)
    as (E2 & Hc2 & Hr2).
  eauto 12.
Qed.

Lemma hybrid_forward_keeps_state_shapes_witness :
  exists r c r' c',
    hybrid_forward (unit_cell (Some 3) None) sym [[1]] [[[0]]; [[2]]]
      (Reference.i2h_weight zero_params) (Reference.h2h_weight zero_params)
      (Reference.W_hr zero_params)
      (Reference.i2h_bias zero_params) (Reference.h2h_bias zero_params)
    = inr (r, [r; c])
    /\ rect 1 1 r /\ rect 1 1 c
    /\ hybrid_forward (unit_cell (Some 3) None) sym [[5]] [r; c]
         (Reference.i2h_weight zero_params) (Reference.h2h_weight zero_params)
         (Reference.W_hr zero_params)
         (Reference.i2h_bias zero_params) (Reference.h2h_bias zero_params)
       = inr (r', [r'; c'])
    /\ rect 1 1 r' /\ rect 1 1 c'.
Proof.
  apply (hybrid_forward_keeps_state_shapes 1 1 1 1 (unit_cell (Some 3) None)
           sym zero_params [[1]] [[5]] [[0]] [[2]]);
    try reflexivity; try apply zero_params_shaped;
    (split; [reflexivity | repeat constructor]).
Defined.

(* ------------------------------------------------------------------ *)
(** ** The chunks of [evaluate] *)
(* ------------------------------------------------------------------ *)

Lemma firstn_add_skipn {A} (a c : nat) (l : list A) :
  firstn (a + c) l = (firstn a l ++ firstn c (skipn a l))%list.
Proof.
  revert l. induction a as [|a IH]; intros l; [reflexivity|].
  destruct l as [|x l]; [now rewrite !firstn_nil|].
  cbn [Nat.add firstn skipn app]. now rewrite IH.
Qed.

Lemma py_slice_inside {A} (xs : list A) (lo n : Z) :
  (0 <= lo)%Z -> (0 <= n)%Z -> (lo + n <= Z.of_nat (length xs))%Z ->
  py_slice xs lo (lo + n) = firstn (Z.to_nat n) (skipn (Z.to_nat lo) xs).
Proof.
  intros Hlo Hn Hlen. unfold py_slice.
  rewrite !clamp_index_inside by lia. f_equal. lia.
Qed.

(** Consecutive chunks of [b] rows, the last one cut at row [n], make up
    the first [n] rows. *)
Lemma chunks_concat {A} (l : list A) (b n : Z) (m : nat) :
  (0 < b)%Z -> (0 <= n)%Z ->
  (Z.of_nat m * b < n + b)%Z ->
  concat (map (fun k => firstn (Z.to_nat (Z.min b (n - Z.of_nat k * b)))
                          (skipn (Z.to_nat (Z.of_nat k * b)) l))
            (seq 0 m))
  = firstn (Z.to_nat (Z.min (Z.of_nat m * b) n)) l.
Proof.
  intros Hb Hn. induction m as [|m IH]; intros Hm.
  - replace (Z.to_nat (Z.min (Z.of_nat 0 * b) n)) with 0%nat by lia.
    reflexivity.
  - rewrite seq_S, map_app, concat_app. cbn [map concat Nat.add].
    rewrite app_nil_r, IH by nia.
    replace (Z.to_nat (Z.min (Z.of_nat (S m) * b) n))
      with (Z.to_nat (Z.min (Z.of_nat m * b) n)
            + Z.to_nat (Z.min b (n - Z.of_nat m * b)))%nat by nia.
    rewrite firstn_add_skipn. do 3 f_equal. nia.
Qed.

Lemma range3_forward (stop step : Z) (starts : list Z) :
  (0 < step)%Z -> range3 0 stop step = inr starts ->
  exists m : nat,
    starts = map (fun k => (Z.of_nat k * step)%Z) (seq 0 m)
    /\ ((m = 0%nat /\ (stop <= 0)%Z)
        \/ ((0 < stop)%Z /\ (Z.of_nat m * step < stop + step)%Z
            /\ (stop <= Z.of_nat m * step)%Z)).
Proof.
  intros Hs. unfold range3.
  destruct (Z.eqb_spec step 0) as [|_]; [lia|].
  destruct (Z.ltb_spec 0 step) as [_|]; [|lia].
  unfold ret. intros E. injection E as <-.
  exists (Z.to_nat (Z.max 0 ((stop - 0 + step - 1) / step))).
  pose proof (Z.div_mod (stop - 0 + step - 1) step ltac:(lia)) as Hd.
  pose proof (Z.mod_pos_bound (stop - 0 + step - 1) step Hs) as Hr.
  set (q := ((stop - 0 + step - 1) / step)%Z) in *.
  set (r := ((stop - 0 + step - 1) mod step)%Z) in *.
  split; [reflexivity|].
  destruct (Z.max_spec 0 q) as [[Hq ->]|[Hq ->]].
  - right. rewrite Z2Nat.id by lia. repeat apply conj; nia.
  - left. split; [reflexivity|]. nia.
Qed.

Lemma get_batch_chunks_tile (bptt : Z) (data_source : Tokens) starts :
  (0 < bptt)%Z ->
  range3 0 (Z.of_nat (length data_source) - 1) bptt = inr starts ->
  concat (map (fun i => fst (get_batch bptt data_source i None)) starts)
  = removelast data_source
  /\
  concat (map (fun i => snd (get_batch bptt data_source i None)) starts)
  = tl data_source.
Proof.
  intros Hb Hr.
  destruct (range3_forward _ _ _ Hb Hr) as (m & -> & [[-> Hn]|(Hn & Hm & Hfull)]).
  - destruct data_source as [|x [|y l]]; try (split; reflexivity).
    cbn [length] in Hn. lia.
  - rewrite !map_map. unfold get_batch. cbn [fst snd].
    set (n := (Z.of_nat (length data_source) - 1)%Z) in *.
    assert (Hn' : (0 <= n)%Z) by lia.
    split.
    + rewrite removelast_firstn_len.
      replace (pred (length data_source))
        with (Z.to_nat (Z.min (Z.of_nat m * bptt) n)) by lia.
      rewrite <- (chunks_concat data_source bptt n m Hb Hn' Hm).
      f_equal. apply map_ext_in. intros k Hk. apply in_seq in Hk.
      apply py_slice_inside; nia.
    + replace (tl data_source) with (skipn 1 data_source)
        by (now destruct data_source).
      rewrite <- (firstn_all (skipn 1 data_source)), length_skipn.
      replace (length data_source - 1)%nat
        with (Z.to_nat (Z.min (Z.of_nat m * bptt) n)) by lia.
      rewrite <- (chunks_concat (skipn 1 data_source) bptt n m Hb Hn' Hm).
      f_equal. apply map_ext_in. intros k Hk. apply in_seq in Hk.
      rewrite skipn_skipn.
      rewrite py_slice_inside by nia.
      do 2 f_equal. nia.
Qed.

(** The chunks that [evaluate] takes with [get_batch] at the starts
    [range(0, len(data_source) - 1, args.bptt)] tile the data: the [data]
    chunks put end to end are all rows but the last, the [target] chunks
    all rows but the first, so every position is scored exactly once in
    each direction. *)
Theorem evaluate_chunks_tile (bptt : Z) (data_source : Tokens) starts :
  (0 < bptt)%Z ->
  range3 0 (Z.of_nat (length data_source) - 1) bptt = inr starts ->
  concat (map (fun i => fst (get_batch bptt data_source i None)) starts)
  = removelast data_source
  /\
  concat (map (fun i => snd (get_batch bptt data_source i None)) starts)
  = tl data_source.
Proof. apply get_batch_chunks_tile. Qed.

Lemma evaluate_chunks_tile_witness :
  concat (map (fun i => fst (get_batch 2
                 [[1%Z]; [2%Z]; [3%Z]; [4%Z]; [5%Z]; [6%Z]] i None))
            [0%Z; 2%Z; 4%Z])
  = removelast [[1%Z]; [2%Z]; [3%Z]; [4%Z]; [5%Z]; [6%Z]]
  /\
  concat (map (fun i => snd (get_batch 2
                 [[1%Z]; [2%Z]; [3%Z]; [4%Z]; [5%Z]; [6%Z]] i None))
            [0%Z; 2%Z; 4%Z])
  = tl [[1%Z]; [2%Z]; [3%Z]; [4%Z]; [5%Z]; [6%Z]].
Proof.
  apply (evaluate_chunks_tile 2 [[1%Z]; [2%Z]; [3%Z]; [4%Z]; [5%Z]; [6%Z]]
           [0%Z; 2%Z; 4%Z]).
  - lia.
  - reflexivity.
Defined.

Section EvaluateFacts.

Variables Logits Hidden : Type.
Variable ce : Logits -> Z -> R.
Variable model :
  Tokens * Tokens -> Hidden ->
  res ((list (list Logits) * list (list Logits)) * Hidden).
Variable detach : Hidden -> Hidden.

Lemma evaluate_chunk_count bptt data_source i total_L ntotal hidden
    total_L' ntotal' hidden' :
  evaluate_chunk ce model detach bptt data_source i (total_L, ntotal, hidden)
  = inr (total_L', ntotal', hidden') ->
  ntotal' = (ntotal + 2 * Z.of_nat
               (length (concat (fst (get_batch bptt data_source i None)))))%Z.
Proof.
  unfold evaluate_chunk.
  set (data := fst (get_batch bptt data_source i None)).
  set (target := snd (get_batch bptt data_source i None)).
  intros E.
  apply bind_inr in E. destruct E as (r & _ & E).
  apply bind_inr in E. destruct E as (L1 & _ & E).
  apply bind_inr in E. destruct E as (L2 & HL2 & E).
  apply loss_inr in HL2 as HL2'.
  unfold loss in HL2.
  destruct (Nat.eqb_spec (length (concat (snd (fst r))))
              (length (concat data))) as [Hlen|]; [|discriminate].
  assert (HL : length L2 = length (concat data)).
  { rewrite HL2', zipWith_length, Hlen. apply Nat.min_id. }
  rewrite <- HL. unfold ret in E. injection E as _ Hn _.
  exact (eq_sym Hn).
Qed.

Lemma evaluate_loop_count bptt data_source starts total_L ntotal hidden
    total_L' ntotal' hidden' :
  evaluate_loop ce model detach bptt data_source starts
    (total_L, ntotal, hidden) = inr (total_L', ntotal', hidden') ->
  ntotal' = (ntotal + 2 * Z.of_nat
               (length (concat (concat
                  (map (fun i => fst (get_batch bptt data_source i None))
                     starts)))))%Z.
Proof.
  revert total_L ntotal hidden.
  induction starts as [|i rest IH]; intros total_L ntotal hidden E.
  - cbn in E. unfold ret in E. injection E as _ <- _. cbn. lia.
  - cbn [evaluate_loop] in E.
    apply bind_inr in E. destruct E as ([[t1 n1] h1] & E1 & E).
    apply evaluate_chunk_count in E1. apply IH in E. subst.
    cbn [map concat]. rewrite concat_app, length_app. lia.
Qed.

(** [evaluate] on degenerate arguments never returns a loss: with
    [args.bptt = 0] the [range] raises ValueError; with a data source of
    fewer than two rows, or with a negative [args.bptt] and a data source
    that is not empty, the loop body never runs and [total_L / ntotal]
    divides by zero. *)
Theorem evaluate_degenerate_arguments (bptt : Z) (data_source : Tokens)
    (hidden : Hidden) :
  (bptt = 0%Z ->
   evaluate ce model detach bptt data_source hidden = inl ValueError)
  /\
  ((0 < bptt)%Z -> (length data_source <= 1)%nat ->
   evaluate ce model detach bptt data_source hidden = inl ZeroDivisionError)
  /\
  ((bptt < 0)%Z -> (1 <= length data_source)%nat ->
   evaluate ce model detach bptt data_source hidden = inl ZeroDivisionError).
Proof.
  unfold evaluate, range3. repeat apply conj.
  - intros ->. reflexivity.
  - intros Hb Hlen.
    destruct (Z.eqb_spec bptt 0) as [|_]; [lia|].
    destruct (Z.ltb_spec 0 bptt) as [_|]; [|lia].
    replace (Z.max 0 ((Z.of_nat (length data_source) - 1 - 0 + bptt - 1)
                      / bptt)) with 0%Z; [reflexivity|].
    assert ((Z.of_nat (length data_source) - 1 - 0 + bptt - 1) / bptt
            <= 0)%Z; [|lia].
    apply Z.lt_succ_r, Z.div_lt_upper_bound; lia.
  - intros Hb Hlen.
    destruct (Z.eqb_spec bptt 0) as [|_]; [lia|].
    destruct (Z.ltb_spec 0 bptt) as [|_]; [lia|].
    replace (Z.max 0 ((0 - (Z.of_nat (length data_source) - 1) - bptt - 1)
                      / - bptt)) with 0%Z; [reflexivity|].
    assert ((0 - (Z.of_nat (length data_source) - 1) - bptt - 1) / - bptt
            <= 0)%Z; [|lia].
    apply Z.lt_succ_r, Z.div_lt_upper_bound; lia.
Qed.

(** When the loop of [evaluate] runs to its end with a positive
    [args.bptt], the divisor [ntotal] has grown by twice the number of
    tokens in all rows but the last: each such token is counted once for
    the forward and once for the backward direction. *)
Theorem evaluate_counts_tokens bptt (data_source : Tokens) starts
    total_L ntotal hidden total_L' ntotal' hidden' :
  (0 < bptt)%Z ->
  range3 0 (Z.of_nat (length data_source) - 1) bptt = inr starts ->
  evaluate_loop ce model detach bptt data_source starts
    (total_L, ntotal, hidden) = inr (total_L', ntotal', hidden') ->
  ntotal'
  = (ntotal + 2 * Z.of_nat (length (concat (removelast data_source))))%Z.
Proof.
  intros Hb Hr E. apply evaluate_loop_count in E.
  destruct (get_batch_chunks_tile bptt data_source starts Hb Hr) as [Hd _].
  now rewrite Hd in E.
Qed.

End EvaluateFacts.

Lemma evaluate_counts_tokens_witness :
  20%Z = (0 + 2 * Z.of_nat (length (concat (removelast
            [[1%Z; 7%Z]; [2%Z; 8%Z]; [3%Z; 9%Z];
             [4%Z; 10%Z]; [5%Z; 11%Z]; [6%Z; 12%Z]]))))%Z.
Proof.
  apply (evaluate_counts_tokens Z unit (fun l t => IZR (l - t))
           (fun p h => ret ((fst p, snd p), h)) (fun h => h)
           2 [[1%Z; 7%Z]; [2%Z; 8%Z]; [3%Z; 9%Z];
              [4%Z; 10%Z]; [5%Z; 11%Z]; [6%Z; 12%Z]]
           [0%Z; 2%Z; 4%Z]
           0 0%Z tt
           (0 + sum (zipWith (fun l t => IZR (l - t))
                       [1%Z; 7%Z; 2%Z; 8%Z] [2%Z; 8%Z; 3%Z; 9%Z])
              + sum (zipWith (fun l t => IZR (l - t))
                       [2%Z; 8%Z; 3%Z; 9%Z] [1%Z; 7%Z; 2%Z; 8%Z])
              + sum (zipWith (fun l t => IZR (l - t))
                       [3%Z; 9%Z; 4%Z; 10%Z] [4%Z; 10%Z; 5%Z; 11%Z])
              + sum (zipWith (fun l t => IZR (l - t))
                       [4%Z; 10%Z; 5%Z; 11%Z] [3%Z; 9%Z; 4%Z; 10%Z])
              + sum (zipWith (fun l t => IZR (l - t))
                       [5%Z; 11%Z] [6%Z; 12%Z])
              + sum (zipWith (fun l t => IZR (l - t))
                       [6%Z; 12%Z] [5%Z; 11%Z]))
           20%Z tt).
  - lia.
  - reflexivity.
  - reflexivity.
Defined.

(* ------------------------------------------------------------------ *)
(** ** The loops of [ElmoLSTM.forward], layer by layer *)
(* ------------------------------------------------------------------ *)

Local Open Scope nat_scope.

Lemma set_nth_same {A} i (a : A) xs :
  nth_error xs i = Some a -> set_nth i a xs = xs.
Proof.
  revert i. induction xs as [|x xs IH]; intros [|i] H; cbn in *;
    try congruence.
  now rewrite IH.
Qed.

Lemma set_nth_set_nth {A} i (a b : A) xs :
  set_nth i a (set_nth i b xs) = set_nth i a xs.
Proof.
  revert i. induction xs as [|x xs IH]; intros [|i]; cbn; try reflexivity.
  now rewrite IH.
Qed.

Lemma nth_error_set_nth_ne {A} i j (a : A) xs :
  i <> j -> nth_error (set_nth i a xs) j = nth_error xs j.
Proof.
  revert i j. induction xs as [|x xs IH]; intros [|i] [|j] H; cbn;
    try reflexivity; try congruence.
  apply IH. congruence.
Qed.

Lemma set_nth_app_last {A} (xs : list A) a b :
  set_nth (length xs) a (xs ++ [b]) = (xs ++ [a])%list.
Proof. induction xs as [|x xs IH]; cbn; [reflexivity | now rewrite IH]. Qed.

Lemma set_nth_app_at {A} j (xs : list A) a b :
  length xs = j -> set_nth j a (xs ++ [b]) = (xs ++ [a])%list.
Proof. intros <-. apply set_nth_app_last. Qed.

Lemma skipn_set_nth_at {A} m (a : A) xs :
  m < length xs -> skipn m (set_nth m a xs) = a :: skipn (S m) xs.
Proof.
  revert m. induction xs as [|x xs IH]; intros [|m] H; cbn in *;
    try lia; try reflexivity.
  apply IH. lia.
Qed.

Lemma skipn_set_nth_below {A} n i (a : A) xs :
  i < n -> skipn n (set_nth i a xs) = skipn n xs.
Proof.
  revert n i. induction xs as [|x xs IH]; intros [|n] [|i] H; cbn;
    try reflexivity; try lia.
  apply IH. lia.
Qed.

Lemma firstn_S_set_nth {A} i (a : A) xs :
  i < length xs -> firstn (S i) (set_nth i a xs) = (firstn i xs ++ [a])%list.
Proof.
  revert i. induction xs as [|x xs IH]; intros [|i] H; cbn in *;
    try lia; try reflexivity.
  f_equal. apply IH. lia.
Qed.

Lemma skipn_nth_error {A} k (x : A) l :
  nth_error l k = Some x -> skipn k l = x :: skipn (S k) l.
Proof.
  revert k. induction l as [|y l IH]; intros [|k] H; cbn in *;
    try congruence.
  now apply IH.
Qed.

Lemma firstn_S_nth_error {A} k (x : A) l :
  nth_error l k = Some x -> firstn (S k) l = (firstn k l ++ [x])%list.
Proof.
  revert k. induction l as [|y l IH]; intros [|k] H; cbn in *;
    try congruence.
  f_equal. now apply IH.
Qed.

Lemma nth_error_in_range {A} (l : list A) k :
  k < length l -> exists x, nth_error l k = Some x.
Proof.
  intros H. destruct (nth_error l k) eqn:E; [eauto|].
  apply nth_error_None in E. lia.
Qed.

Section EncoderUnrolled.

Variables X St Stacked : Type.
Variable call : SequentialRNNCell -> X -> St -> res (X * St).
Variable cell_begin_state : SequentialRNNCell -> Z -> St.
Variable batch_size_of : list X -> Z.
Variable stack : list X -> res Stacked.

Lemma unroll_length layer xs : forall s ys s',
  unroll call layer xs s = inr (ys, s') -> length ys = length xs.
Proof.
  induction xs as [|x xs IH]; intros s ys s' E; cbn [unroll] in E.
  - unfold ret in E. now injection E as <- _.
  - apply bind_inr in E. destruct E as ([y s1] & _ & E).
    apply bind_inr in E. destruct E as ([ys1 s2] & E1 & E).
    unfold ret in E. injection E as <- _. cbn [fst snd length] in *.
    f_equal. eapply IH, E1.
Qed.

Lemma forward_steps_unroll self j stream inputs layer m :
  forall k outs sts s cur,
    nth_error (forward_layer_ self) j = Some layer ->
    (j = 0 /\ stream = inputs) \/
    (0 < j /\ nth_error outs (j - 1) = Some inputs) ->
    nth_error sts j = Some s ->
    nth_error outs j = Some cur ->
    k + m <= length inputs ->
    forward_steps call self j stream (seq k m) outs sts
    = (r <- unroll call layer (firstn m (skipn k inputs)) s ;;
       ret (set_nth j (cur ++ fst r)%list outs, set_nth j (snd r) sts)).
Proof.
  induction m as [|m IH]; intros k outs sts s cur Hl Hin Hs Ho Hk.
  - cbn [seq forward_steps firstn unroll bind ret fst snd].
    rewrite app_nil_r, !set_nth_same by assumption. reflexivity.
  - cbn [seq forward_steps]. unfold getattr_layer. rewrite Hl.
    cbn [bind ret].
    destruct (nth_error_in_range inputs k ltac:(lia)) as [x Hx].
    assert (Hread :
      (if Nat.eqb j 0 then getitem stream k
       else prev <- getitem outs (j - 1) ;; getitem prev k) = inr x).
    { destruct Hin as [[-> ->]|[Hj Hp]].
      - cbn. unfold getitem. now rewrite Hx.
      - destruct (Nat.eqb_spec j 0) as [|_]; [lia|].
        unfold getitem. rewrite Hp. cbn [bind ret]. now rewrite Hx. }
    rewrite Hread. cbn [bind].
    unfold getitem at 1. rewrite Hs. cbn [bind ret].
    rewrite (skipn_nth_error k x inputs Hx). cbn [firstn unroll].
    destruct (call layer x s) as [e|[y s1]]; cbn [bind fst snd];
      [reflexivity|].
    unfold getitem at 1. rewrite Ho. cbn [bind ret].
    assert (Hjs : j < length sts)
      by (apply nth_error_Some; congruence).
    assert (Hjo : j < length outs)
      by (apply nth_error_Some; congruence).
    rewrite (IH (S k) _ _ s1 (cur ++ [y])%list); try assumption.
    + destruct (unroll call layer (firstn m (skipn (S k) inputs)) s1)
        as [e|[ys s2]]; cbn [bind ret fst snd]; [reflexivity|].
      rewrite !set_nth_set_nth, <- app_assoc. reflexivity.
    + destruct Hin as [?|[Hj Hp]]; [now left|right].
      split; [assumption|].
      rewrite nth_error_set_nth_ne by lia. assumption.
    + now apply nth_error_set_nth.
    + now apply nth_error_set_nth.
    + lia.
Qed.

Lemma backward_steps_unroll self j stream inputs layer m :
  forall outs sts s cur,
    nth_error (backward_layer_ self) j = Some layer ->
    (j = 0 /\ stream = inputs) \/
    (0 < j /\ nth_error outs (j - 1) = Some (map Some inputs)) ->
    nth_error sts j = Some s ->
    nth_error outs j = Some cur ->
    m <= length inputs -> m <= length cur ->
    backward_steps call self j stream (rev (seq 0 m)) outs sts
    = (r <- unroll call layer (rev (firstn m inputs)) s ;;
       ret (set_nth j (map Some (rev (fst r)) ++ skipn m cur)%list outs,
            set_nth j (snd r) sts)).
Proof.
  induction m as [|m IH]; intros outs sts s cur Hl Hin Hs Ho Hm Hc.
  - cbn [seq rev backward_steps firstn unroll bind ret fst snd map app skipn].
    rewrite !set_nth_same by assumption. reflexivity.
  - rewrite seq_S, rev_app_distr. cbn [Nat.add rev app backward_steps].
    unfold getattr_layer. rewrite Hl. cbn [bind ret].
    destruct (nth_error_in_range inputs m ltac:(lia)) as [x Hx].
    assert (Hread :
      (if Nat.eqb j 0 then getitem stream m
       else prev <- getitem outs (j - 1) ;;
            o <- getitem prev m ;; filled o) = inr x).
    { destruct Hin as [[-> ->]|[Hj Hp]].
      - cbn. unfold getitem. now rewrite Hx.
      - destruct (Nat.eqb_spec j 0) as [|_]; [lia|].
        unfold getitem. rewrite Hp. cbn [bind ret].
        rewrite nth_error_map, Hx. reflexivity. }
    rewrite Hread. cbn [bind].
    unfold getitem at 1. rewrite Hs. cbn [bind ret].
    rewrite (firstn_S_nth_error m x inputs Hx), rev_app_distr.
    cbn [rev app unroll].
    destruct (call layer x s) as [e|[y s1]]; cbn [bind fst snd];
      [reflexivity|].
    unfold getitem at 1. rewrite Ho. cbn [bind ret].
    destruct (Nat.ltb_spec m (length cur)) as [_|]; [|lia].
    cbn [bind ret].
    assert (Hjs : j < length sts)
      by (apply nth_error_Some; congruence).
    assert (Hjo : j < length outs)
      by (apply nth_error_Some; congruence).
    rewrite (IH _ _ s1 (set_nth m (Some y) cur)); try assumption.
    + destruct (unroll call layer (rev (firstn m inputs)) s1)
        as [e|[ys s2]]; cbn [bind ret fst snd]; [reflexivity|].
      rewrite !set_nth_set_nth, skipn_set_nth_at by lia.
      cbn [rev]. rewrite map_app, <- app_assoc. reflexivity.
    + destruct Hin as [?|[Hj Hp]]; [now left|right].
      split; [assumption|].
      rewrite nth_error_set_nth_ne by lia. assumption.
    + now apply nth_error_set_nth.
    + now apply nth_error_set_nth.
    + lia.
    + rewrite set_nth_length. lia.
Qed.

Lemma unroll_layers_lengths fls : forall bls sf sb xf xb r,
  length bls = length fls -> length sf = length fls ->
  length sb = length fls ->
  unroll_layers call fls bls sf sb xf xb = inr r ->
  length (fst (fst r)) = length fls /\ length (snd (fst r)) = length fls /\
  length (fst (snd r)) = length fls /\ length (snd (snd r)) = length fls.
Proof.
  induction fls as [|fl fls IH]; intros bls sf sb xf xb r Hb Hsf Hsb E.
  - cbn in E. unfold ret in E. injection E as <-. cbn. auto.
  - destruct bls as [|bl bls], sf as [|s sf], sb as [|t sb];
      try discriminate.
    cbn [unroll_layers] in E.
    apply bind_inr in E. destruct E as (f & _ & E).
    apply bind_inr in E. destruct E as (b & _ & E).
    apply bind_inr in E. destruct E as (rest & Hrest & E).
    unfold ret in E. injection E as <-. cbn [fst snd length] in *.
    apply IH in Hrest; [|lia..].
    destruct Hrest as (-> & -> & -> & ->). auto.
Qed.

Lemma unroll_layers_cons fl fls bl bls s sf t sb xf xb :
  unroll_layers call (fl :: fls) (bl :: bls) (s :: sf) (t :: sb) xf xb
  = (f <- unroll call fl xf s ;;
     b <- unroll call bl (rev xb) t ;;
     rest <- unroll_layers call fls bls sf sb (fst f) (rev (fst b)) ;;
     ret ((fst f :: fst (fst rest), rev (fst b) :: snd (fst rest)),
          (snd f :: fst (snd rest), snd b :: snd (snd rest)))).
Proof. reflexivity. Qed.

Lemma layers_loop_unroll self fwd bwd n : forall c j0 st xf xb,
  length (forward_layer_ self) = j0 + c ->
  length (backward_layer_ self) = j0 + c ->
  length (states_forward st) = j0 + c ->
  length (states_backward st) = j0 + c ->
  length (outputs_forward st) = j0 ->
  length (outputs_backward st) = j0 ->
  length xf = n -> length xb = n ->
  (j0 = 0 /\ fwd = xf) \/
  (0 < j0 /\ nth_error (outputs_forward st) (j0 - 1) = Some xf) ->
  (j0 = 0 /\ xb = firstn n bwd /\ n <= length bwd) \/
  (0 < j0 /\ nth_error (outputs_backward st) (j0 - 1) = Some (map Some xb)) ->
  layers_loop call self (seq j0 c) fwd bwd n st
  = (r <- unroll_layers call
            (skipn j0 (forward_layer_ self)) (skipn j0 (backward_layer_ self))
            (skipn j0 (states_forward st)) (skipn j0 (states_backward st))
            xf xb ;;
     ret {| outputs_forward := (outputs_forward st ++ fst (fst r))%list;
            outputs_backward :=
              (outputs_backward st ++ map (map Some) (snd (fst r)))%list;
            states_forward :=
              (firstn j0 (states_forward st) ++ fst (snd r))%list;
            states_backward :=
              (firstn j0 (states_backward st) ++ snd (snd r))%list |}).
Proof.
  induction c as [|c IH];
    intros j0 st xf xb Hfl Hbl Hsf Hsb Hof Hob Hxf Hxb Hinf Hinb.
  - cbn [seq layers_loop].
    rewrite (skipn_all2 (forward_layer_ self)) by lia.
    cbn [unroll_layers bind ret fst snd map].
    rewrite !app_nil_r, !firstn_all2 by lia.
    now destruct st.
  - cbn [seq layers_loop].
    destruct (nth_error_in_range (forward_layer_ self) j0 ltac:(lia))
      as [fl Hfl0].
    destruct (nth_error_in_range (backward_layer_ self) j0 ltac:(lia))
      as [bl Hbl0].
    destruct (nth_error_in_range (states_forward st) j0 ltac:(lia))
      as [s Hs0].
    destruct (nth_error_in_range (states_backward st) j0 ltac:(lia))
      as [t Ht0].
    rewrite (skipn_nth_error j0 fl _ Hfl0), (skipn_nth_error j0 bl _ Hbl0),
      (skipn_nth_error j0 s _ Hs0), (skipn_nth_error j0 t _ Ht0).
    rewrite unroll_layers_cons.
    (* the forward loop of layer [j0] *)
    rewrite (forward_steps_unroll self j0 fwd xf fl n 0
               (outputs_forward st ++ [[]])%list (states_forward st) s []
               Hfl0).
    2:{ destruct Hinf as [?|[Hj Hp]]; [now left|right].
        split; [assumption|]. rewrite nth_error_app1 by lia. assumption. }
    2: assumption.
    2:{ rewrite <- Hof. apply nth_error_last. }
    2: cbn; lia.
    change (skipn 0 xf) with xf. rewrite firstn_all2 by lia.
    destruct (unroll call fl xf s) as [e|[yf s']] eqn:Ef;
      cbn [bind ret fst snd app]; [reflexivity|].
    rewrite (set_nth_app_at j0 _ _ _ Hof).
    (* the backward loop of layer [j0] *)
    assert (Hrevb :
      exists inputs,
        ((j0 = 0 /\ bwd = inputs) \/
         (0 < j0 /\
          nth_error (outputs_backward st ++ [repeat None n])%list (j0 - 1)
          = Some (map Some inputs)))
        /\ n <= length inputs /\ firstn n inputs = xb).
    { destruct Hinb as [(Hj & Hb & Hn)|[Hj Hp]].
      - exists bwd. auto.
      - exists xb. split; [right; split; [assumption|]|].
        + rewrite nth_error_app1 by lia. assumption.
        + split; [lia|]. apply firstn_all2. lia. }
    destruct Hrevb as (inputs & Hin' & Hlen' & Hfirst).
    rewrite (backward_steps_unroll self j0 bwd inputs bl n
               (outputs_backward st ++ [repeat None n])%list
               (states_backward st) t (repeat None n) Hbl0 Hin' Ht0).
    2:{ rewrite <- Hob. apply nth_error_last. }
    2: assumption.
    2: rewrite repeat_length; lia.
    rewrite Hfirst.
    destruct (unroll call bl (rev xb) t) as [e|[yb t']] eqn:Eb;
      cbn [bind ret fst snd]; [reflexivity|].
    rewrite skipn_all2 by (rewrite repeat_length; lia).
    rewrite app_nil_r, (set_nth_app_at j0 _ _ _ Hob).
    (* the layers above *)
    pose proof (unroll_length _ _ _ _ _ Ef) as Hyf.
    pose proof (unroll_length _ _ _ _ _ Eb) as Hyb.
    rewrite length_rev in Hyb.
    rewrite (IH (S j0) _ yf (rev yb));
      cbn [outputs_forward outputs_backward states_forward states_backward];
      rewrite ?set_nth_length, ?length_app, ?length_rev; cbn [length];
      try lia.
    + rewrite !skipn_set_nth_below by lia.
      rewrite !firstn_S_set_nth by lia.
      destruct (unroll_layers call (skipn (S j0) (forward_layer_ self))
                  (skipn (S j0) (backward_layer_ self))
                  (skipn (S j0) (states_forward st))
                  (skipn (S j0) (states_backward st)) yf (rev yb))
        as [e|rest]; cbn [bind ret fst snd map]; [reflexivity|].
      rewrite <- !app_assoc. reflexivity.
    + right. split; [lia|].
      replace (S j0 - 1) with (length (outputs_forward st)) by lia.
      apply nth_error_last.
    + right. split; [lia|].
      replace (S j0 - 1) with (length (outputs_backward st)) by lia.
      apply nth_error_last.
Qed.

Lemma filled_all_Some (xs : list X) : filled_all (map Some xs) = inr xs.
Proof.
  induction xs as [|x xs IH]; [reflexivity|].
  cbn [map filled_all filled bind ret]. now rewrite IH.
Qed.

Lemma stack_loop_layers : forall c j0 (fs bs : list (list X)),
  length fs = j0 + c -> length bs = j0 + c ->
  stack_loop stack (seq j0 c) fs (map (map Some) bs)
  = stack_layers stack (skipn j0 fs) (skipn j0 bs).
Proof.
  induction c as [|c IH]; intros j0 fs bs Hf Hb.
  - cbn [seq stack_loop]. rewrite (skipn_all2 fs) by lia. reflexivity.
  - cbn [seq stack_loop].
    destruct (nth_error_in_range fs j0 ltac:(lia)) as [f Hf0].
    destruct (nth_error_in_range bs j0 ltac:(lia)) as [b Hb0].
    rewrite (skipn_nth_error j0 f _ Hf0), (skipn_nth_error j0 b _ Hb0).
    cbn [stack_layers]. unfold getitem.
    rewrite Hf0, nth_error_map, Hb0. cbn [option_map bind ret].
    destruct (stack f) as [e|sf]; cbn [bind]; [reflexivity|].
    rewrite filled_all_Some. cbn [bind].
    destruct (stack b) as [e|sb]; cbn [bind]; [reflexivity|].
    rewrite IH by lia. reflexivity.
Qed.

Lemma begin_state_layers_map layers batch_size : forall c j0,
  j0 + c <= length layers ->
  begin_state_layers cell_begin_state layers (seq j0 c) batch_size
  = inr (map (fun l => cell_begin_state l batch_size)
           (firstn c (skipn j0 layers))).
Proof.
  induction c as [|c IH]; intros j0 H; [reflexivity|].
  cbn [seq begin_state_layers].
  destruct (nth_error_in_range layers j0 ltac:(lia)) as [l Hl].
  unfold getattr_layer. rewrite Hl. cbn [bind ret].
  rewrite IH by lia. cbn [bind ret].
  rewrite (skipn_nth_error j0 l _ Hl). reflexivity.
Qed.

Lemma begin_state_map self batch_size :
  length (forward_layer_ self) = Z.to_nat (num_layers self) ->
  length (backward_layer_ self) = Z.to_nat (num_layers self) ->
  begin_state cell_begin_state self batch_size
  = inr (map (fun l => cell_begin_state l batch_size) (forward_layer_ self),
         map (fun l => cell_begin_state l batch_size) (backward_layer_ self)).
Proof.
  intros Hf Hb. unfold begin_state, range.
  rewrite !begin_state_layers_map by (cbn; lia).
  cbn [bind ret skipn]. rewrite <- Hf at 1. rewrite <- Hb at 1.
  now rewrite !firstn_all.
Qed.

(** What [states] stands for in [forward]: the states given, or those of
    [begin_state] at the batch size of the forward stream. *)
Lemma forward_unrolled self (inputs : Inputs X (char_embedding self))
    states sf sb :
  length (forward_layer_ self) = Z.to_nat (num_layers self) ->
  length (backward_layer_ self) = Z.to_nat (num_layers self) ->
  (states = Some (sf, sb) \/
   states = None /\
   sf = map (fun l => cell_begin_state l
                        (batch_size_of (forward_stream inputs)))
          (forward_layer_ self) /\
   sb = map (fun l => cell_begin_state l
                        (batch_size_of (forward_stream inputs)))
          (backward_layer_ self)) ->
  length sf = Z.to_nat (num_layers self) ->
  length sb = Z.to_nat (num_layers self) ->
  length (forward_stream inputs) <= length (backward_stream inputs) ->
  forward call cell_begin_state batch_size_of stack self inputs states
  = (r <- unroll_layers call (forward_layer_ self) (backward_layer_ self)
            sf sb (forward_stream inputs)
            (firstn (length (forward_stream inputs))
               (backward_stream inputs)) ;;
     outs <- stack_layers stack (fst (fst r)) (snd (fst r)) ;;
     ret (outs, snd r)).
Proof.
  intros Hfl Hbl Hst Hsf Hsb Hlen. unfold forward.
  assert (Hstates :
    match states with
    | Some st => ret st
    | None => begin_state cell_begin_state self
                (batch_size_of (forward_stream inputs))
    end = inr (sf, sb)).
  { destruct Hst as [->|(-> & -> & ->)]; [reflexivity|].
    now apply begin_state_map. }
  rewrite Hstates. cbn [bind fst snd]. unfold range.
  rewrite (layers_loop_unroll self (forward_stream inputs)
             (backward_stream inputs) (length (forward_stream inputs))
             (Z.to_nat (num_layers self)) 0 _ (forward_stream inputs)
             (firstn (length (forward_stream inputs))
                (backward_stream inputs)));
    cbn [outputs_forward outputs_backward states_forward states_backward
         length]; try lia; try (left; auto).
  2:{ rewrite length_firstn. lia. }
  cbn [skipn firstn app].
  destruct (unroll_layers call (forward_layer_ self) (backward_layer_ self)
              sf sb (forward_stream inputs)
              (firstn (length (forward_stream inputs))
                 (backward_stream inputs))) as [e|r] eqn:E;
    cbn [bind]; [reflexivity|].
  cbn [bind ret outputs_forward outputs_backward states_forward
       states_backward app].
  apply unroll_layers_lengths in E; [|lia..].
  destruct E as (H1 & H2 & _ & _).
  rewrite stack_loop_layers by (cbn; lia).
  cbn [skipn].
  destruct (stack_layers stack (fst (fst r)) (snd (fst r))) as [e|outs];
    cbn [bind ret]; [reflexivity|].
  now destruct r as [? [? ?]].
Qed.

End EncoderUnrolled.

Lemma Forall_firstn_of {A} (P : A -> Prop) n (l : list A) :
  Forall P l -> Forall P (firstn n l).
Proof.
  intros H. revert n. induction H as [|x l Hx Hl IH]; intros [|n]; cbn;
    constructor; auto.
Qed.

Section EncoderProperties.

Variables X St Stacked : Type.
Variable call : SequentialRNNCell -> X -> St -> res (X * St).
Variable cell_begin_state : SequentialRNNCell -> Z -> St.
Variable batch_size_of : list X -> Z.
Variable stack : list X -> res Stacked.

(** [ElmoLSTM.forward], with as many layers and states in each direction
    as [num_layers] and a backward stream as long as the forward one (the
    same stream, in character mode), is the layer-wise unrolling: forward
    layer [j] run over the outputs of forward layer [j - 1] from the first
    step to the last, backward layer [j] over those of backward layer
    [j - 1] from the last step to the first, its outputs stored at the
    steps they belong to; then every layer's outputs are stacked.  Only
    the first [seq_len] steps of the backward stream are read, and without
    [states] the layers start from [begin_state] at the batch size of the
    forward stream.  A failing cell or [stack] fails the call with the
    same exception. *)
Theorem forward_is_layerwise_unroll self
    (inputs : Inputs X (char_embedding self)) states sf sb :
  length (forward_layer_ self) = Z.to_nat (num_layers self) ->
  length (backward_layer_ self) = Z.to_nat (num_layers self) ->
  (states = Some (sf, sb) \/
   states = None /\
   sf = map (fun l => cell_begin_state l
                        (batch_size_of (forward_stream inputs)))
          (forward_layer_ self) /\
   sb = map (fun l => cell_begin_state l
                        (batch_size_of (forward_stream inputs)))
          (backward_layer_ self)) ->
  length sf = Z.to_nat (num_layers self) ->
  length sb = Z.to_nat (num_layers self) ->
  length (forward_stream inputs) <= length (backward_stream inputs) ->
  forward call cell_begin_state batch_size_of stack self inputs states
  = (r <- unroll_layers call (forward_layer_ self) (backward_layer_ self)
            sf sb (forward_stream inputs)
            (firstn (length (forward_stream inputs))
               (backward_stream inputs)) ;;
     outs <- stack_layers stack (fst (fst r)) (snd (fst r)) ;;
     ret (outs, snd r)).
Proof. apply forward_unrolled. Qed.

Section Invariant.

Variable PX : X -> Prop.
Variable PS : St -> Prop.

Lemma unroll_total layer xs :
  (forall x s, PX x -> PS s ->
     exists y s', call layer x s = inr (y, s') /\ PX y /\ PS s') ->
  Forall PX xs ->
  forall s, PS s ->
    exists ys s', unroll call layer xs s = inr (ys, s')
                  /\ Forall PX ys /\ PS s' /\ length ys = length xs.
Proof.
  intros Hcall Hxs. induction Hxs as [|x xs Hx Hxs IH]; intros s Hs.
  - exists [], s. repeat split; auto.
  - destruct (Hcall x s Hx Hs) as (y & s1 & Ec & Hy & Hs1).
    destruct (IH s1 Hs1) as (ys & s2 & Eu & Hys & Hs2 & Hl).
    exists (y :: ys), s2. cbn [unroll]. rewrite Ec. cbn [bind fst snd].
    rewrite Eu. cbn [bind ret fst snd length].
    repeat split; auto.
Qed.

Lemma unroll_layers_total fls : forall bls sf sb xf xb,
  length bls = length fls -> length sf = length fls ->
  length sb = length fls ->
  (forall l x s, In l fls \/ In l bls -> PX x -> PS s ->
     exists y s', call l x s = inr (y, s') /\ PX y /\ PS s') ->
  Forall PX xf -> Forall PX xb -> Forall PS sf -> Forall PS sb ->
  exists r, unroll_layers call fls bls sf sb xf xb = inr r
            /\ Forall (fun ys => length ys = length xf) (fst (fst r))
            /\ Forall (fun ys => length ys = length xb) (snd (fst r))
            /\ Forall PS (fst (snd r)) /\ Forall PS (snd (snd r)).
Proof.
  induction fls as [|fl fls IH];
    intros bls sf sb xf xb Hb Hsf Hsb Hcall Hxf Hxb HPf HPb.
  - exists (([], []), ([], [])). cbn. auto.
  - destruct bls as [|bl bls], sf as [|s sf], sb as [|t sb];
      try discriminate.
    inversion HPf as [|? ? Hs HPf']; subst.
    inversion HPb as [|? ? Ht HPb']; subst.
    rewrite unroll_layers_cons.
    destruct (unroll_total fl xf
                (fun x s => Hcall fl x s (or_introl (or_introl eq_refl)))
                Hxf s Hs) as (yf & s' & Ef & Hyf & Hs' & Hlf).
    destruct (unroll_total bl (rev xb)
                (fun x s => Hcall bl x s (or_intror (or_introl eq_refl)))
                (Forall_rev Hxb) t Ht) as (yb & t' & Eb & Hyb & Ht' & Hlb).
    rewrite Ef. cbn [bind fst snd]. rewrite Eb. cbn [bind fst snd].
    rewrite length_rev in Hlb.
    destruct (IH bls sf sb yf (rev yb)) as (r & Er & H1 & H2 & H3 & H4);
      cbn [length] in *; try lia; auto.
    + intros l x0 s0 [Hl|Hl]; apply Hcall; [left|right]; now right.
    + now apply Forall_rev.
    + rewrite Er. cbn [bind ret].
      eexists. split; [reflexivity|]. cbn [fst snd].
      rewrite length_rev, Hlf, Hlb in *.
      repeat split; constructor; auto. now rewrite length_rev.
Qed.

End Invariant.

Lemma stack_layers_total (fs : list (list X)) : forall bs,
  (forall xs, xs <> [] -> exists t, stack xs = inr t) ->
  length bs = length fs ->
  Forall (fun ys => ys <> []) fs -> Forall (fun ys => ys <> []) bs ->
  exists outs, stack_layers stack fs bs = inr outs
               /\ length (fst outs) = length fs
               /\ length (snd outs) = length fs.
Proof.
  intros bs Hstack. revert bs.
  induction fs as [|f fs IH]; intros bs Hl Hf Hb.
  - exists ([], []). auto.
  - destruct bs as [|b bs]; [discriminate|].
    inversion Hf as [|? ? Hf1 Hf2]; inversion Hb as [|? ? Hb1 Hb2]; subst.
    destruct (Hstack f) as [tf Etf]; [assumption|].
    destruct (Hstack b) as [tb Etb]; [assumption|].
    destruct (IH bs) as (outs & Eo & O1 & O2); cbn [length] in *;
      try lia; auto.
    cbn [stack_layers]. rewrite Etf. cbn [bind]. rewrite Etb. cbn [bind].
    rewrite Eo. cbn [bind ret].
    eexists. split; [reflexivity|]. cbn [fst snd length]. lia.
Qed.

(** [ElmoLSTM.forward] raises nothing of its own: with [num_layers] layers
    and states in each direction, a forward stream that is not empty and
    a backward stream at least as long, it returns whenever the cells
    return on the arrays and states they are given (those that satisfy
    an invariant the cells keep) and [stack] returns on a list that is not
    empty.  The result has [num_layers] stacked outputs and [num_layers]
    states in each direction, and the states satisfy the invariant. *)
Theorem forward_returns_when_cells_do (PX : X -> Prop) (PS : St -> Prop)
    self (inputs : Inputs X (char_embedding self)) states sf sb :
  length (forward_layer_ self) = Z.to_nat (num_layers self) ->
  length (backward_layer_ self) = Z.to_nat (num_layers self) ->
  (states = Some (sf, sb) \/
   states = None /\
   sf = map (fun l => cell_begin_state l
                        (batch_size_of (forward_stream inputs)))
          (forward_layer_ self) /\
   sb = map (fun l => cell_begin_state l
                        (batch_size_of (forward_stream inputs)))
          (backward_layer_ self)) ->
  length sf = Z.to_nat (num_layers self) ->
  length sb = Z.to_nat (num_layers self) ->
  forward_stream inputs <> [] ->
  length (forward_stream inputs) <= length (backward_stream inputs) ->
  (forall l x s,
     In l (forward_layer_ self) \/ In l (backward_layer_ self) ->
     PX x -> PS s ->
     exists y s', call l x s = inr (y, s') /\ PX y /\ PS s') ->
  (forall xs, xs <> [] -> exists t, stack xs = inr t) ->
  Forall PX (forward_stream inputs) ->
  Forall PX (backward_stream inputs) ->
  Forall PS sf -> Forall PS sb ->
  exists outs sf' sb',
    forward call cell_begin_state batch_size_of stack self inputs states
    = inr (outs, (sf', sb'))
    /\ length (fst outs) = Z.to_nat (num_layers self)
    /\ length (snd outs) = Z.to_nat (num_layers self)
    /\ length sf' = Z.to_nat (num_layers self)
    /\ length sb' = Z.to_nat (num_layers self)
    /\ Forall PS sf' /\ Forall PS sb'.
Proof.
  intros Hfl Hbl Hst Hsf Hsb Hne Hlen Hcall Hstack HXf HXb HSf HSb.
  rewrite (forward_unrolled X St Stacked call cell_begin_state batch_size_of
             stack self inputs states sf sb Hfl Hbl Hst Hsf Hsb Hlen).
  destruct (unroll_layers_total PX PS (forward_layer_ self)
              (backward_layer_ self) sf sb (forward_stream inputs)
              (firstn (length (forward_stream inputs))
                 (backward_stream inputs)))
    as (r & Er & H1 & H2 & H3 & H4); try lia; auto.
  { now apply Forall_firstn_of. }
  rewrite Er. cbn [bind].
  pose proof Er as Er'.
  apply unroll_layers_lengths in Er'; [|lia..].
  destruct Er' as (L1 & L2 & L3 & L4).
  assert (Hn : 0 < length (forward_stream inputs)).
  { destruct (forward_stream inputs); [congruence | cbn; lia]. }
  destruct (stack_layers_total (fst (fst r)) (snd (fst r)) Hstack)
    as (outs & Eo & O1 & O2); try lia.
  { eapply Forall_impl; [|exact H1].
    intros ys Hys ->. cbn in Hys. lia. }
  { eapply Forall_impl; [|exact H2].
    intros ys Hys ->. rewrite length_firstn in Hys. cbn in Hys. lia. }
  rewrite Eo. cbn [bind ret].
  exists outs, (fst (snd r)), (snd (snd r)).
  destruct r as [? [? ?]]. cbn [fst snd] in *.
  repeat split; auto; lia.
Qed.

(** A backward stream shorter than the forward one is an error: once the
    forward loop of the first layer has run, the backward loop starts at
    step [seq_len - 1], which the backward stream does not have, and the
    call raises IndexError. *)
Theorem forward_short_backward_stream_raises self
    (inputs : Inputs X (char_embedding self)) sf sb fl bl s ys s' :
  (0 < num_layers self)%Z ->
  nth_error (forward_layer_ self) 0 = Some fl ->
  nth_error (backward_layer_ self) 0 = Some bl ->
  nth_error sf 0 = Some s ->
  unroll call fl (forward_stream inputs) s = inr (ys, s') ->
  length (backward_stream inputs) < length (forward_stream inputs) ->
  forward call cell_begin_state batch_size_of stack self inputs
    (Some (sf, sb)) = inl IndexError.
Proof.
  intros Hnl Hfl Hbl Hs Hu Hlen. unfold forward, range.
  cbn [bind ret fst snd].
  destruct (Z.to_nat (num_layers self)) as [|c] eqn:Ec; [lia|].
  cbn [seq layers_loop outputs_forward outputs_backward states_forward
       states_backward app].
  rewrite (forward_steps_unroll _ _ call self 0 (forward_stream inputs)
             (forward_stream inputs) fl (length (forward_stream inputs)) 0
             [[]] sf s [] Hfl (or_introl (conj eq_refl eq_refl)) Hs
             eq_refl ltac:(cbn; lia)).
  change (skipn 0 (forward_stream inputs)) with (forward_stream inputs).
  rewrite firstn_all, Hu. cbn [bind ret fst snd].
  destruct (length (forward_stream inputs)) as [|m] eqn:Em; [lia|].
  rewrite seq_S, rev_app_distr.
  cbn [Nat.add rev app backward_steps]. unfold getattr_layer.
  rewrite Hbl. cbn [bind ret Nat.eqb]. unfold getitem at 1.
  replace (nth_error (backward_stream inputs) m) with (@None X)
    by (symmetry; apply nth_error_None; lia).
  reflexivity.
Qed.

End EncoderProperties.

Lemma forward_is_layerwise_unroll_witness :
  toy_forward [1%Z; 2%Z] [3%Z; 4%Z; 5%Z] (Some ([0%Z], [0%Z]))
  = (r <- unroll_layers toy_call [toy_layer] [toy_layer] [0%Z] [0%Z]
            [1%Z; 2%Z] (firstn 2 [3%Z; 4%Z; 5%Z]) ;;
     outs <- stack_layers (fun xs => ret xs) (fst (fst r)) (snd (fst r)) ;;
     ret (outs, snd r)).
Proof.
  apply (forward_is_layerwise_unroll Z Z (list Z) toy_call
           (fun _ _ => 0%Z) (fun _ => 1%Z) (fun xs => ret xs)
           toy_encoder (WordInputs [1%Z; 2%Z] [3%Z; 4%Z; 5%Z])
           (Some ([0%Z], [0%Z])) [0%Z] [0%Z]).
  - reflexivity.
  - reflexivity.
  - left. reflexivity.
  - reflexivity.
  - reflexivity.
  - simpl. lia.
Defined.

Lemma forward_returns_when_cells_do_witness :
  exists outs sf' sb',
    toy_forward [1%Z; 2%Z] [3%Z; 4%Z; 5%Z] None = inr (outs, (sf', sb'))
    /\ length (fst outs) = 1 /\ length (snd outs) = 1
    /\ length sf' = 1 /\ length sb' = 1
    /\ Forall (fun _ => True) sf' /\ Forall (fun _ => True) sb'.
Proof.
  apply (forward_returns_when_cells_do Z Z (list Z) toy_call
           (fun _ _ => 0%Z) (fun _ => 1%Z) (fun xs => ret xs)
           (fun _ => True) (fun _ => True)
           toy_encoder (WordInputs [1%Z; 2%Z] [3%Z; 4%Z; 5%Z])
           None [0%Z] [0%Z]).
  - reflexivity.
  - reflexivity.
  - right. repeat split; reflexivity.
  - reflexivity.
  - reflexivity.
  - simpl. discriminate.
  - simpl. lia.
  - intros l x s _ _ _. exists (x + s)%Z, (x + s)%Z.
    repeat split; reflexivity.
  - intros xs _. exists xs. reflexivity.
  - simpl. repeat constructor.
  - simpl. repeat constructor.
  - repeat constructor.
  - repeat constructor.
Defined.

Lemma forward_short_backward_stream_raises_witness :
  toy_forward [1%Z; 2%Z] [3%Z] (Some ([0%Z], [0%Z])) = inl IndexError.
Proof.
  apply (forward_short_backward_stream_raises Z Z (list Z) toy_call
           (fun _ _ => 0%Z) (fun _ => 1%Z) (fun xs => ret xs)
           toy_encoder (WordInputs [1%Z; 2%Z] [3%Z])
           [0%Z] [0%Z] toy_layer toy_layer 0%Z [1%Z; 3%Z] 3%Z).
  - reflexivity.
  - reflexivity.
  - reflexivity.
  - reflexivity.
  - reflexivity.
  - simpl. lia.
Defined.

(* ------------------------------------------------------------------ *)
(** ** The layers built by [ElmoLSTM.__init__] *)
(* ------------------------------------------------------------------ *)

Lemma ElmoLSTM_layers_count n idxs mode num_layers hidden_size dropout
    skip_connection proj_size cell_clip proj_clip lstm_input_size fw bw :
  In mode recognized_modes \/ idxs = [] ->
  succeeds n (ElmoLSTM_layers idxs mode num_layers hidden_size dropout
                skip_connection proj_size cell_clip proj_clip
                lstm_input_size fw bw)
    (fun r => length (fst r) = length fw + length idxs /\
              length (snd r) = length bw + length idxs).
Proof.
  intros Hm. revert lstm_input_size fw bw.
  induction idxs as [|i idxs IH]; intros lstm_input_size fw bw;
    cbn [ElmoLSTM_layers].
  - apply succeeds_ret. cbn. lia.
  - destruct Hm as [Hm|]; [|discriminate].
    apply succeeds_seq; [now apply get_rnn_cell_succeeds|].
    intros fl. apply succeeds_seq; [now apply get_rnn_cell_succeeds|].
    intros bl. eapply succeeds_weaken; [apply IH; now left|].
    intros r. cbn beta. rewrite !length_app. cbn [length]. lia.
Qed.

(** With one of the five recognised modes (or with no layer to build),
    [ElmoLSTM.__init__] returns an encoder that has exactly [num_layers]
    forward and [num_layers] backward layers under the attributes it was
    given, and on that encoder [begin_state] returns [num_layers] states
    in each direction. *)
Theorem ElmoLSTM_init_builds_num_layers (St : Type)
    (cell_begin_state : SequentialRNNCell -> Z -> St)
    mode nlayers input_size hidden_size dropout
    skip_connection char_emb proj_size cell_clip proj_clip weight_file
    batch_size s :
  In mode recognized_modes \/ (nlayers <= 0)%Z ->
  exists self s' sf sb,
    ElmoLSTM_init mode nlayers input_size hidden_size dropout
      skip_connection char_emb proj_size cell_clip proj_clip
      weight_file s = (inr self, s')
    /\ num_layers self = nlayers
    /\ char_embedding self = char_emb
    /\ length (forward_layer_ self) = Z.to_nat nlayers
    /\ length (backward_layer_ self) = Z.to_nat nlayers
    /\ begin_state cell_begin_state self batch_size = inr (sf, sb)
    /\ length sf = Z.to_nat nlayers
    /\ length sb = Z.to_nat nlayers.
Proof.
  intros Hm.
  assert (H : succeeds 0
    (ElmoLSTM_init mode nlayers input_size hidden_size dropout
       skip_connection char_emb proj_size cell_clip proj_clip
       weight_file)
    (fun self =>
       num_layers self = nlayers /\
       char_embedding self = char_emb /\
       length (forward_layer_ self) = Z.to_nat nlayers /\
       length (backward_layer_ self) = Z.to_nat nlayers)).
  { unfold ElmoLSTM_init. apply succeeds_seq.
    - eapply succeeds_weaken; [apply Block_init_None_succeeds | auto].
    - intros d. eapply succeeds_bind.
      + apply ElmoLSTM_layers_count.
        destruct Hm as [Hm|Hn]; [now left|right].
        unfold range. now replace (Z.to_nat nlayers) with 0%nat by lia.
      + intros r [Hf Hb]. apply succeeds_ret.
        cbn [num_layers char_embedding forward_layer_
             backward_layer_].
        unfold range in Hf, Hb. rewrite length_seq in Hf, Hb.
        cbn [length] in Hf, Hb. auto. }
  destruct (H s (Nat.le_0_l _)) as (self & s' & E & (H1 & H2 & H3 & H4) & _).
  exists self, s',
    (map (fun l => cell_begin_state l batch_size) (forward_layer_ self)),
    (map (fun l => cell_begin_state l batch_size) (backward_layer_ self)).
  rewrite !length_map.
  repeat split; try assumption.
  apply begin_state_map; congruence.
Qed.

Lemma ElmoLSTM_init_builds_num_layers_witness :
  exists self s' sf sb,
    ElmoLSTM_init "lstmp" 2 4 4 0%R false false (Some 2%Z) None None None
      empty_store = (inr self, s')
    /\ num_layers self = 2%Z
    /\ char_embedding self = false
    /\ length (forward_layer_ self) = Z.to_nat 2
    /\ length (backward_layer_ self) = Z.to_nat 2
    /\ begin_state (fun _ _ => 0%Z) self 8 = inr (sf, sb)
    /\ length sf = Z.to_nat 2
    /\ length sb = Z.to_nat 2.
Proof.
  apply (ElmoLSTM_init_builds_num_layers Z (fun _ _ => 0%Z)
           "lstmp" 2 4 4 0%R false false (Some 2%Z) None None None
           8 empty_store).
  left. unfold recognized_modes. simpl. tauto.
Defined.

(* ------------------------------------------------------------------ *)
(** ** The parameters of an untied model *)
(* ------------------------------------------------------------------ *)

Lemma grows_ret {A} (a : A) : grows (retM a).
Proof. intros s. apply Nat.le_refl. Qed.

Lemma grows_lift {A} (r : res A) : grows (liftM r).
Proof. intros s. apply Nat.le_refl. Qed.

Lemma grows_bind {A B} (m : M A) (k : A -> M B) :
  grows m -> (forall a, grows (k a)) -> grows (bindM m k).
Proof.
  intros Hm Hk s. unfold bindM. specialize (Hm s).
  destruct (m s) as [[e|a] s']; cbn [snd] in *; [assumption|].
  specialize (Hk a s'). lia.
Qed.

Lemma grows_Block_init shared : grows (Block_init shared).
Proof.
  intros s. unfold Block_init.
  destruct shared as [d|]; [destruct (nth_error (dicts s) d)|]; cbn; lia.
Qed.

Lemma grows_params_get d name : grows (params_get d name).
Proof.
  intros s. unfold params_get.
  destruct (nth_error (dicts s) d) as [pd|]; [|cbn; lia].
  destruct (lookup_name _ (pd_params pd)); [cbn; lia|].
  destruct (match pd_shared pd with Some _ => _ | None => _ end);
    cbn [snd parameters]; rewrite ?length_app; lia.
Qed.

Ltac grows_step :=
  match goal with
  | |- grows (bindM _ _) => apply grows_bind; [|intros ?]
  | |- grows (retM _) => apply grows_ret
  | |- grows (liftM _) => apply grows_lift
  | |- grows (Block_init _) => apply grows_Block_init
  | |- grows (params_get _ _) => apply grows_params_get
  | |- grows (if ?c then _ else _) => destruct c
  end.

Lemma grows_recurrent_params names : grows (recurrent_params names).
Proof.
  unfold recurrent_params. repeat grows_step.
  induction names as [|n names IH]; repeat grows_step. exact IH.
Qed.

Lemma grows_assign_cell mode hidden_size input_size proj_size cell_clip
    proj_clip cell :
  grows (assign_cell mode hidden_size input_size proj_size cell_clip
           proj_clip cell).
Proof.
  unfold assign_cell, new_RNNCell, new_LSTMCell, new_GRUCell,
    new_LSTMPCellWithClip.
  repeat first [grows_step | apply grows_recurrent_params].
Qed.

Lemma grows_rnn_cell_loop n mode hidden_size input_size dropout
    skip_connection proj_size cell_clip proj_clip : forall cell acc,
  grows (rnn_cell_loop n mode hidden_size input_size dropout
           skip_connection proj_size cell_clip proj_clip cell acc).
Proof.
  induction n as [|n IH]; intros cell acc; cbn [rnn_cell_loop].
  - apply grows_ret.
  - unfold new_ResidualCell, new_DropoutCell.
    repeat first [grows_step | apply grows_assign_cell | apply IH].
Qed.

Lemma grows_get_rnn_cell mode num_layers input_size hidden_size dropout
    skip_connection proj_size cell_clip proj_clip :
  grows (_get_rnn_cell mode num_layers input_size hidden_size dropout
           skip_connection proj_size cell_clip proj_clip).
Proof.
  unfold _get_rnn_cell.
  repeat first [grows_step | apply grows_rnn_cell_loop].
Qed.

Lemma grows_ElmoLSTM_layers idxs mode num_layers hidden_size dropout
    skip_connection proj_size cell_clip proj_clip :
  forall lstm_input_size fw bw,
    grows (ElmoLSTM_layers idxs mode num_layers hidden_size dropout
             skip_connection proj_size cell_clip proj_clip
             lstm_input_size fw bw).
Proof.
  induction idxs as [|i idxs IH]; intros lstm_input_size fw bw;
    cbn [ElmoLSTM_layers].
  - apply grows_ret.
  - repeat first [apply grows_get_rnn_cell | apply IH | grows_step].
Qed.

Lemma grows_ElmoLSTM_init mode num_layers input_size hidden_size dropout
    skip_connection char_embedding proj_size cell_clip proj_clip weight_file :
  grows (ElmoLSTM_init mode num_layers input_size hidden_size dropout
           skip_connection char_embedding proj_size cell_clip proj_clip
           weight_file).
Proof.
  unfold ElmoLSTM_init.
  repeat first [apply grows_ElmoLSTM_layers | grows_step].
Qed.

Lemma get_embedding_weight_below self s :
  exists hs s' d w rest,
    ElmoBiLM._get_embedding self s = (inr hs, s')
    /\ layers hs = Embedding d w (ElmoBiLM._vocab_size self)
                     (ElmoBiLM._embed_size self) :: rest
    /\ w < length (parameters s').
Proof.
  unfold ElmoBiLM._get_embedding.
  erewrite bindM_inr by (cbn [Block_init]; reflexivity).
  unfold new_Embedding.
  erewrite bindM_inr.
  2:{ erewrite bindM_inr by (cbn [Block_init]; reflexivity).
      erewrite bindM_inr.
      2:{ unfold params_get. cbn [dicts]. rewrite nth_error_last.
          cbn [pd_params pd_prefix pd_shared lookup_name]. reflexivity. }
      reflexivity. }
  cbn [dicts parameters next_prefix trace].
  destruct (Req_dec_T (ElmoBiLM._dropout self) 0).
  - eexists _, _, _, _, _. split; [reflexivity|].
    split; [reflexivity|]. cbn [parameters]. rewrite length_app. simpl. lia.
  - unfold new_Dropout.
    erewrite bindM_inr.
    2:{ erewrite bindM_inr by (cbn [Block_init]; reflexivity). reflexivity. }
    eexists _, _, _, _, _. split; [reflexivity|].
    split; [reflexivity|]. cbn [parameters]. rewrite length_app. simpl. lia.
Qed.

Lemma new_Dense_fresh units s :
  exists d b s',
    new_Dense units None s
    = (inr (Dense d (length (parameters s)) b units), s').
Proof.
  unfold new_Dense.
  set (nd := {| pd_prefix := next_prefix s; pd_params := [];
                pd_shared := None |}).
  set (s1 := {| trace := trace s; dicts := dicts s ++ [nd];
                parameters := parameters s;
                next_prefix := S (next_prefix s) |}).
  assert (E1 : Block_init None s = (inr (length (dicts s)), s1))
    by reflexivity.
  erewrite bindM_inr by exact E1.
  set (nd' := {| pd_prefix := next_prefix s;
                 pd_params := [((next_prefix s, "weight"%string),
                                length (parameters s))];
                 pd_shared := None |}).
  set (s2 := {| trace := trace s;
                dicts := set_nth (length (dicts s)) nd' (dicts s ++ [nd]);
                parameters :=
                  (parameters s ++ [(next_prefix s, "weight"%string)])%list;
                next_prefix := S (next_prefix s) |}).
  assert (E2 : params_get (length (dicts s)) "weight" s1
               = (inr (length (parameters s)), s2)).
  { unfold params_get. cbn [dicts s1]. rewrite nth_error_last. reflexivity. }
  erewrite bindM_inr by exact E2.
  assert (E3 : exists b s3,
             params_get (length (dicts s)) "bias" s2 = (inr b, s3)).
  { unfold params_get. cbn [dicts s2].
    rewrite nth_error_set_nth by (rewrite length_app; simpl; lia).
    cbn [pd_params pd_prefix pd_shared nd' lookup_name fst snd].
    rewrite Nat.eqb_refl. cbn [andb String.eqb Ascii.eqb Bool.eqb].
    eexists _, _. reflexivity. }
  destruct E3 as (b & s3 & E3).
  erewrite bindM_inr by exact E3.
  eexists _, _, _. reflexivity.
Qed.

Lemma get_decoder_untied self s :
  ElmoBiLM._tie_weights self = false ->
  exists hs s' d b rest,
    ElmoBiLM._get_decoder self s = (inr hs, s')
    /\ layers hs = Dense d (length (parameters s)) b
                     (ElmoBiLM._vocab_size self) :: rest.
Proof.
  intros Htie. unfold ElmoBiLM._get_decoder. rewrite Htie.
  erewrite bindM_inr by (cbn [Block_init]; reflexivity).
  match goal with
  | |- context [bindM (new_Dense ?u None) _ ?s1] =>
      destruct (new_Dense_fresh u s1) as (d & b & s2 & E)
  end.
  erewrite bindM_inr by exact E.
  cbn [parameters].
  eexists _, _, _, _, _. split; reflexivity.
Qed.

(** Without [tie_weights], the embedding and the output layer of a
    constructed model hold two different weight parameters (whatever the
    embedding and hidden sizes): the output layer creates its own after
    the encoder's. *)
Theorem ElmoBiLM_untied_weights_differ mode vocab_size embed_size hidden_size
    num_layers dropout char_embedding skip_connection proj_size proj_clip
    cell_clip s :
  In mode recognized_modes \/ (num_layers <= 0)%Z ->
  exists self s' w w',
    ElmoBiLM.__init__ mode vocab_size embed_size hidden_size num_layers
      dropout false char_embedding skip_connection proj_size proj_clip
      cell_clip s
    = (inr self, s')
    /\ ElmoBiLM.embedding_weight self = Some w
    /\ ElmoBiLM.decoder_weight self = Some w'
    /\ w <> w'.
Proof.
  intros Hm. unfold ElmoBiLM.__init__.
  erewrite bindM_inr by reflexivity.
  erewrite bindM_inr by (cbn [Block_init]; reflexivity).
  match goal with
  | |- context [bindM (ElmoBiLM._get_embedding ?self0) _ ?s1] =>
      destruct (get_embedding_weight_below self0 s1)
        as (hs & s2 & d & w & rest & E1 & Hl & Hw)
  end.
  erewrite bindM_inr by exact E1.
  match goal with
  | |- context [bindM (ElmoBiLM._get_encoder ?self1) _ _] =>
      destruct (ElmoLSTM_init_succeeds 0 mode num_layers embed_size
                  hidden_size dropout skip_connection char_embedding
                  proj_size cell_clip proj_clip None Hm s2 (Nat.le_0_l _))
        as (enc & s3 & E2 & _ & _);
      pose proof (grows_ElmoLSTM_init mode num_layers embed_size
                    hidden_size dropout skip_connection char_embedding
                    proj_size cell_clip proj_clip None s2) as Hg;
      assert (E2' : ElmoBiLM._get_encoder self1 s2 = (inr enc, s3))
        by exact E2
  end.
  rewrite E2 in Hg. cbn [snd] in Hg.
  erewrite bindM_inr by exact E2'.
  match goal with
  | |- context [bindM (ElmoBiLM._get_decoder ?self2) _ _] =>
      destruct (get_decoder_untied self2 s3 eq_refl)
        as (hd & s4 & dd & b & rest' & E3 & Hd)
  end.
  erewrite bindM_inr by exact E3.
  eexists _, _, w, (length (parameters s3)).
  split; [reflexivity|].
  unfold ElmoBiLM.embedding_weight, ElmoBiLM.decoder_weight.
  cbn [ElmoBiLM.embedding ElmoBiLM.decoder ElmoBiLM.set_decoder
       ElmoBiLM.set_encoder ElmoBiLM.set_embedding].
  destruct hs as [? ?], hd as [? ?]. cbn [layers] in Hl, Hd. subst.
  repeat split; try reflexivity. lia.
Qed.

Lemma ElmoBiLM_untied_weights_differ_witness :
  exists self s' w w',
    ElmoBiLM.__init__ "lstmp" 10 3 4 2 0%R false false true (Some 2%Z)
      None None empty_store
    = (inr self, s')
    /\ ElmoBiLM.embedding_weight self = Some w
    /\ ElmoBiLM.decoder_weight self = Some w'
    /\ w <> w'.
Proof.
  apply (ElmoBiLM_untied_weights_differ "lstmp" 10 3 4 2 0%R false true
           (Some 2%Z) None None empty_store).
  left. unfold recognized_modes. simpl. tauto.
Defined.

Local Open Scope R_scope.
